(** * RadiaCode driver: framing, byte cursor, command channel and decoders

    A shallow embedding of the protocol core of the RadiaCode Arduino
    driver (BytesBuffer.cpp, BluetoothTransport.cpp, RadiaCode.cpp,
    Decoders.cpp, RadiaCodeTypes.cpp), followed by the properties of the
    specification, each proved or refuted on the embedded code.

    Conventions.
    - The target is the ESP32 (the only platform on which the Bluetooth
      transport is compiled in): [size_t], [int] and [unsigned] are 32 bits
      wide and the machine is little-endian.  Unsigned arithmetic wraps
      modulo 2^32 and the wrap is written out with [wrap_size]/[to_uint32].
    - A byte is a [Byte.byte]; [u8] reads it as a number in [0, 256).
    - A [float] is carried as its IEEE-754 binary32 bit pattern; float
      arithmetic (conversion from integers, division) is a parameter of the
      sections that need it. *)

From Stdlib Require Import ZArith List Lia Bool.
From Stdlib.Strings Require Import Byte.
Import ListNotations.
Open Scope Z_scope.

(* ================================================================== *)
(** * Part I: the embedding                                            *)
(* ================================================================== *)

(** ** Machine integers *)

Definition to_uint8 (z : Z) : Z := z mod 2 ^ 8.
Definition to_uint16 (z : Z) : Z := z mod 2 ^ 16.
Definition to_uint32 (z : Z) : Z := z mod 2 ^ 32.

(** Two's complement reading of the low [w] bits. *)
Definition to_signed (w : Z) (z : Z) : Z :=
  let m := z mod 2 ^ w in
  if m <? 2 ^ (w - 1) then m else m - 2 ^ w.

Definition to_int8 : Z -> Z := to_signed 8.
Definition to_int16 : Z -> Z := to_signed 16.
Definition to_int32 : Z -> Z := to_signed 32.

(** [size_t] on the target. *)
Definition wrap_size : Z -> Z := to_uint32.

Definition u8 (b : byte) : Z := Z.of_N (Byte.to_N b).

(** Narrowing store of an integer into a byte ([value & 0xFF]). *)
Definition byte_of (z : Z) : byte :=
  match Byte.of_N (Z.to_N (z mod 2 ^ 8)) with
  | Some b => b
  | None => x00
  end.

(** A [float], as its bit pattern. *)
Inductive float32 : Type := F32 (bits : Z).

Definition float_bits (f : float32) : Z := let (w) := f in w.

(** [0.0f] *)
Definition fzero : float32 := F32 0.

(** ** Arrays

    A C array is a list of fixed length.  [load] is [a[i]]; [poke] is
    [a[i] = v]; [memcpy d off src] copies [src] to [d + off]; [memset_zero d n]
    is [memset(d, 0, n)].  An index outside the array has no meaning in C++:
    [load] then reads [dflt], and the writers drop what falls outside (the
    list keeps its length).  No theorem below relies on these out-of-range
    values: the statements that speak of byte values assume the accesses lie
    inside the array. *)

Definition load {A} (dflt : A) (d : list A) (i : Z) : A := nth (Z.to_nat i) d dflt.

Fixpoint overwrite {A} (src d : list A) : list A :=
  match src, d with
  | [], _ => d
  | _, [] => []
  | x :: src', _ :: d' => x :: overwrite src' d'
  end.

Fixpoint memcpy_at {A} (d : list A) (off : nat) (src : list A) : list A :=
  match off, d with
  | O, _ => overwrite src d
  | S k, [] => []
  | S k, x :: d' => x :: memcpy_at d' k src
  end.

Definition memcpy {A} (d : list A) (off : Z) (src : list A) : list A :=
  memcpy_at d (Z.to_nat off) src.

Definition poke {A} (d : list A) (i : Z) (v : A) : list A := memcpy d i [v].

Definition memset_zero (d : list byte) (n : Z) : list byte :=
  memcpy d 0 (repeat x00 (Z.to_nat n)).

(** [memcpy(dst, src + off, n)] seen from the source side: the [n] bytes of
    [src] from [off] on. *)
Definition slice {A} (d : list A) (off n : Z) : list A :=
  firstn (Z.to_nat n) (skipn (Z.to_nat off) d).

(** Little-endian value of a byte string (used for [memcpy] of an integer
    and to state what the typed reads return). *)
Fixpoint le_uint (bs : list byte) : Z :=
  match bs with
  | [] => 0
  | b :: bs' => u8 b + 2 ^ 8 * le_uint bs'
  end.

(** The four bytes [memcpy(dst, &v, 4)] writes for a 32-bit [v]. *)
Definition le32_bytes (v : Z) : list byte :=
  [byte_of v; byte_of (Z.shiftr v 8); byte_of (Z.shiftr v 16); byte_of (Z.shiftr v 24)].

(* ------------------------------------------------------------------ *)
(** ** BytesBuffer (BytesBuffer.h, BytesBuffer.cpp)                     *)
(* ------------------------------------------------------------------ *)

Definition MAX_BUFFER_SIZE : Z := 4096.

(** Every [BytesBuffer] points at the one static [_shared_buffer]; a value
    of this record is the cursor together with the contents of that store
    while the cursor is the live one. *)
Record BytesBuffer : Type := mkBytesBuffer {
  _fixed_data : list byte;
  _size : Z;
  _capacity : Z;
  _position : Z
}.

(** The store as the program starts: [_shared_buffer[MAX_BUFFER_SIZE] = {0}]. *)
Definition _shared_buffer0 : list byte := repeat x00 (Z.to_nat MAX_BUFFER_SIZE).

Definition with_position (b : BytesBuffer) (p : Z) : BytesBuffer :=
  mkBytesBuffer (_fixed_data b) (_size b) (_capacity b) p.

Definition with_size (b : BytesBuffer) (s : Z) : BytesBuffer :=
  mkBytesBuffer (_fixed_data b) s (_capacity b) (_position b).

Definition with_data (b : BytesBuffer) (d : list byte) : BytesBuffer :=
  mkBytesBuffer d (_size b) (_capacity b) (_position b).

(** [BytesBuffer::BytesBuffer(void)], on the current contents of the store. *)
Definition BytesBuffer_new (shared : list byte) : BytesBuffer :=
  mkBytesBuffer (memset_zero shared 16) 0 MAX_BUFFER_SIZE 0.

(** [BytesBuffer::BytesBuffer(const uint8_t* data, size_t length)] for a
    non-null [data] holding [length] bytes. *)
Definition BytesBuffer_of (shared : list byte) (data : list byte) : BytesBuffer :=
  let length := Z.of_nat (List.length data) in
  let zeroed := memset_zero shared 16 in
  if length =? 0 then mkBytesBuffer zeroed 0 MAX_BUFFER_SIZE 0
  else
    let size := if length >? MAX_BUFFER_SIZE then MAX_BUFFER_SIZE else length in
    mkBytesBuffer (memcpy zeroed 0 (slice data 0 size)) size MAX_BUFFER_SIZE 0.

(** Copy constructor and assignment: same store, so the [memcpy] copies the
    store onto itself. *)
Definition BytesBuffer_copy (other : BytesBuffer) : BytesBuffer :=
  mkBytesBuffer (_fixed_data other) (_size other) MAX_BUFFER_SIZE (_position other).

(** *** The cursor as a state: every member function is a state transformer *)

Definition Cur (A : Type) : Type := BytesBuffer -> A * BytesBuffer.

Definition Cur_ret {A} (a : A) : Cur A := fun b => (a, b).

Definition bind {A B} (m : Cur A) (k : A -> Cur B) : Cur B :=
  fun b => let (a, b') := m b in k a b'.

Declare Scope cur_scope.
Delimit Scope cur_scope with cur.
Notation "x <- m ;; k" := (bind m (fun x => k))
  (at level 61, m at next level, right associativity) : cur_scope.
Notation "' pat <- m ;; k" := (bind m (fun x => match x with pat => k end))
  (at level 61, pat pattern, m at next level, right associativity) : cur_scope.
Notation "m ;;; k" := (bind m (fun _ => k))
  (at level 61, right associativity) : cur_scope.
Open Scope cur_scope.

Definition byte_at (b : BytesBuffer) (i : Z) : Z := u8 (load x00 (_fixed_data b) i).

Definition available : Cur Z := fun b => (wrap_size (_size b - _position b), b).
Definition getPosition : Cur Z := fun b => (_position b, b).
Definition getSize : Cur Z := fun b => (_size b, b).

Definition setPosition (position : Z) : Cur unit := fun b =>
  (tt, with_position b (Z.min position (_size b))).

Definition reset : Cur unit := fun b => (tt, with_position b 0).

Definition ensureCapacity (additionalBytes : Z) : Cur bool := fun b =>
  let required := wrap_size (_position b + additionalBytes) in
  (required <=? _capacity b, b).

Definition setSize (size : Z) : Cur unit := fun b =>
  let b1 := if size >? _capacity b
            then snd (ensureCapacity (wrap_size (size - _capacity b)) b)
            else b in
  let b2 := with_size b1 size in
  (tt, if _position b2 >? _size b2 then with_position b2 (_size b2) else b2).

(** The bounds test shared by the multi-byte reads:
    [(_position >= _size) || ((_position + w) > _size)]. *)
Definition out_of_bounds (b : BytesBuffer) (w : Z) : bool :=
  (_position b >=? _size b) || (wrap_size (_position b + w) >? _size b).

(** [temp |= (T)_fixed_data[_position + k] << (8*k)] guarded by
    [(_position + k) < _size].  The shift is evaluated in the promoted
    32-bit type ([prom]: [int] for the 16-bit types and for [int32_t],
    [uint32_t] otherwise; an [int] shift that reaches the sign bit yields
    the two's complement pattern on the target) and [conv] is the conversion
    to the type of [temp] that the compound assignment performs. *)
Definition or_byte (prom conv : Z -> Z) (b : BytesBuffer) (k : Z) (temp : Z) : Z :=
  if wrap_size (_position b + k) <? _size b
  then conv (Z.lor temp (prom (Z.shiftl (byte_at b (wrap_size (_position b + k))) (8 * k))))
  else temp.

Definition advance (b : BytesBuffer) (w : Z) : BytesBuffer :=
  with_position b (wrap_size (_position b + w)).

(** The typed reads, called with a non-null [value]: the return value, what
    is stored in [*value], and the cursor afterwards. *)
Definition readUint8 : Cur (bool * Z) := fun b =>
  if _position b >=? _size b then ((false, 0), b)
  else ((true, byte_at b (_position b)), advance b 1).

Definition readUint16 : Cur (bool * Z) := fun b =>
  if out_of_bounds b 2 then ((false, 0), b)
  else
    let temp := or_byte to_int32 to_uint16 b 1 (or_byte to_int32 to_uint16 b 0 0) in
    ((true, temp), advance b 2).

Definition readUint32 : Cur (bool * Z) := fun b =>
  if out_of_bounds b 4 then ((false, 0), b)
  else
    let temp := or_byte to_uint32 to_uint32 b 3 (or_byte to_uint32 to_uint32 b 2
                 (or_byte to_uint32 to_uint32 b 1 (or_byte to_uint32 to_uint32 b 0 0))) in
    ((true, temp), advance b 4).

Definition readInt8 : Cur (bool * Z) := fun b =>
  if _position b >=? _size b then ((false, 0), b)
  else ((true, to_int8 (byte_at b (_position b))), advance b 1).

Definition readInt16 : Cur (bool * Z) := fun b =>
  if out_of_bounds b 2 then ((false, 0), b)
  else
    let temp := or_byte to_int32 to_int16 b 1 (or_byte to_int32 to_int16 b 0 0) in
    ((true, temp), advance b 2).

Definition readInt32 : Cur (bool * Z) := fun b =>
  if out_of_bounds b 4 then ((false, 0), b)
  else
    let temp := or_byte to_int32 to_int32 b 3 (or_byte to_int32 to_int32 b 2
                 (or_byte to_int32 to_int32 b 1 (or_byte to_int32 to_int32 b 0 0))) in
    ((true, temp), advance b 4).

Definition readFloat : Cur (bool * float32) := fun b =>
  if out_of_bounds b 4 then ((false, fzero), b)
  else
    let temp := or_byte to_uint32 to_uint32 b 3 (or_byte to_uint32 to_uint32 b 2
                 (or_byte to_uint32 to_uint32 b 1 (or_byte to_uint32 to_uint32 b 0 0))) in
    ((true, F32 temp), advance b 4).

(** [readBytes(buffer, length)]: the bytes copied to [buffer] (their number
    is the return value). *)
Definition readBytes (length : Z) : Cur (list byte) := fun b =>
  let bytesToRead := Z.min length (wrap_size (_size b - _position b)) in
  if bytesToRead >? 0
  then (slice (_fixed_data b) (_position b) bytesToRead,
        with_position b (wrap_size (_position b + bytesToRead)))
  else ([], b).

(** [peekBytes(buffer, offset, length)] for a non-null [buffer]: the return
    value and the bytes copied to [buffer] (none when nothing is copied, in
    which case [buffer] keeps what it held). *)
Definition peekBytes (offset length : Z) : Cur (bool * list byte) := fun b =>
  if offset >=? _size b then ((false, []), b)
  else
    let length := if wrap_size (offset + length) >? _size b
                  then wrap_size (_size b - offset) else length in
    if length >? 0 then ((true, slice (_fixed_data b) offset length), b)
    else ((false, []), b).

(** [readString]: one length byte, then that many characters. *)
Definition readString : Cur (list byte) := fun b =>
  let '((ok, length), b1) := readUint8 b in
  if negb ok then ([], b1)
  else if wrap_size (_position b1 + length) >? _size b1 then ([], b1)
  else (slice (_fixed_data b1) (_position b1) length,
        with_position b1 (wrap_size (_position b1 + length))).

(** The tail shared by the writers: advance and raise the high-water mark. *)
Definition bump (b : BytesBuffer) (w : Z) : BytesBuffer :=
  let b1 := advance b w in
  if _position b1 >? _size b1 then with_size b1 (_position b1) else b1.

Definition writeBytes (buffer : list byte) : Cur Z := fun b =>
  let length := Z.of_nat (List.length buffer) in
  if negb (fst (ensureCapacity length b)) then (0, b)
  else (length, bump (with_data b (memcpy (_fixed_data b) (_position b) buffer)) length).

Definition writeUint8 (value : Z) : Cur bool := fun b =>
  if negb (fst (ensureCapacity 1 b)) then (false, b)
  else (true, bump (with_data b (poke (_fixed_data b) (_position b) (byte_of value))) 1).

Definition writeUint16 (value : Z) : Cur bool := fun b =>
  if negb (fst (ensureCapacity 2 b)) then (false, b)
  else
    let d1 := poke (_fixed_data b) (_position b) (byte_of (Z.land value 255)) in
    let d2 := poke d1 (_position b + 1) (byte_of (Z.land (Z.shiftr value 8) 255)) in
    (true, bump (with_data b d2) 2).

Definition writeUint32 (value : Z) : Cur bool := fun b =>
  if negb (fst (ensureCapacity 4 b)) then (false, b)
  else
    let d1 := poke (_fixed_data b) (_position b) (byte_of (Z.land value 255)) in
    let d2 := poke d1 (_position b + 1) (byte_of (Z.land (Z.shiftr value 8) 255)) in
    let d3 := poke d2 (_position b + 2) (byte_of (Z.land (Z.shiftr value 16) 255)) in
    let d4 := poke d3 (_position b + 3) (byte_of (Z.land (Z.shiftr value 24) 255)) in
    (true, bump (with_data b d4) 4).

Definition writeInt8 (value : Z) : Cur bool := writeUint8 (to_uint8 value).
Definition writeInt16 (value : Z) : Cur bool := writeUint16 (to_uint16 value).
Definition writeInt32 (value : Z) : Cur bool := writeUint32 (to_uint32 value).

Definition writeFloat (value : float32) : Cur bool := fun b =>
  if negb (fst (ensureCapacity 4 b)) then (false, b)
  else (true, bump (with_data b (memcpy (_fixed_data b) (_position b)
                                        (le32_bytes (float_bits value)))) 4).

(** [writeString]: the length byte ([uint8_t length = str.length()]), then
    the first [length] characters, stopping at the first failed write. *)
Fixpoint writeChars (cs : list byte) : Cur bool :=
  match cs with
  | [] => Cur_ret true
  | c :: cs' => ok <- writeUint8 (u8 c) ;; if ok then writeChars cs' else Cur_ret false
  end.

Definition writeString (str : list byte) : Cur bool :=
  let length := to_uint8 (Z.of_nat (List.length str)) in
  ok <- writeUint8 length ;;
  if ok then writeChars (firstn (Z.to_nat length) str) else Cur_ret false.

(** The class invariant of the data model, together with the extent of the
    store the cursor points at. *)
Definition buffer_ok (b : BytesBuffer) : Prop :=
  0 <= _position b <= _size b /\ _size b <= _capacity b /\
  _capacity b = MAX_BUFFER_SIZE /\
  Z.of_nat (List.length (_fixed_data b)) = MAX_BUFFER_SIZE.

(** The public operations on a cursor, as data, to speak of sequences of
    calls. *)
Inductive BufferOp : Type :=
| CallReadUint8 | CallReadUint16 | CallReadUint32
| CallReadInt8 | CallReadInt16 | CallReadInt32 | CallReadFloat
| CallReadBytes (length : Z)
| CallPeekBytes (offset length : Z)
| CallReadString
| CallWriteUint8 (value : Z) | CallWriteUint16 (value : Z) | CallWriteUint32 (value : Z)
| CallWriteInt8 (value : Z) | CallWriteInt16 (value : Z) | CallWriteInt32 (value : Z)
| CallWriteFloat (value : float32)
| CallWriteBytes (buffer : list byte)
| CallWriteString (str : list byte)
| CallSetPosition (position : Z)
| CallReset
| CallSetSize (size : Z).

Definition BufferOp_run (o : BufferOp) (b : BytesBuffer) : BytesBuffer :=
  match o with
  | CallReadUint8 => snd (readUint8 b)
  | CallReadUint16 => snd (readUint16 b)
  | CallReadUint32 => snd (readUint32 b)
  | CallReadInt8 => snd (readInt8 b)
  | CallReadInt16 => snd (readInt16 b)
  | CallReadInt32 => snd (readInt32 b)
  | CallReadFloat => snd (readFloat b)
  | CallReadBytes length => snd (readBytes length b)
  | CallPeekBytes offset length => snd (peekBytes offset length b)
  | CallReadString => snd (readString b)
  | CallWriteUint8 v => snd (writeUint8 v b)
  | CallWriteUint16 v => snd (writeUint16 v b)
  | CallWriteUint32 v => snd (writeUint32 v b)
  | CallWriteInt8 v => snd (writeInt8 v b)
  | CallWriteInt16 v => snd (writeInt16 v b)
  | CallWriteInt32 v => snd (writeInt32 v b)
  | CallWriteFloat f => snd (writeFloat f b)
  | CallWriteBytes buffer => snd (writeBytes buffer b)
  | CallWriteString str => snd (writeString str b)
  | CallSetPosition position => snd (setPosition position b)
  | CallReset => snd (reset b)
  | CallSetSize size => snd (setSize size b)
  end.

(** The calls whose arguments are [size_t] values, with a source buffer that
    fits the address space beside the store, and that do not ask [setSize]
    for more than the capacity. *)
Definition BufferOp_within_capacity (o : BufferOp) : Prop :=
  match o with
  | CallReadBytes length => 0 <= length
  | CallWriteBytes buffer => Z.of_nat (List.length buffer) + MAX_BUFFER_SIZE < 2 ^ 32
  | CallSetPosition position => 0 <= position
  | CallSetSize size => 0 <= size <= MAX_BUFFER_SIZE
  | _ => True
  end.

(* ------------------------------------------------------------------ *)
(** ** Spectrum (RadiaCodeTypes.h, RadiaCodeTypes.cpp)                  *)
(* ------------------------------------------------------------------ *)

Definition MAX_CHANNELS : Z := 1024.

(** [counts] always points at the static [shared_counts]; the record holds
    the contents of that array while the spectrum is the live one. *)
Record Spectrum : Type := mkSpectrum {
  duration_sec : Z;
  a0 : float32;
  a1 : float32;
  a2 : float32;
  counts : list Z;
  count_size : Z
}.

Definition shared_counts0 : list Z := repeat 0 (Z.to_nat MAX_CHANNELS).

Definition with_count_size (sp : Spectrum) (n : Z) : Spectrum :=
  mkSpectrum (duration_sec sp) (a0 sp) (a1 sp) (a2 sp) (counts sp) n.

(** [counts[count_size++] = value] *)
Definition append_count (sp : Spectrum) (value : Z) : Spectrum :=
  mkSpectrum (duration_sec sp) (a0 sp) (a1 sp) (a2 sp)
             (poke (counts sp) (count_size sp) value)
             (wrap_size (count_size sp + 1)).

(** [Spectrum::Spectrum(void)], on the current contents of [shared_counts]. *)
Definition Spectrum_new (shared : list Z) : Spectrum :=
  mkSpectrum 0 fzero fzero fzero
             (memcpy shared 0 (repeat 0 (Z.to_nat MAX_CHANNELS))) 0.

(** Copy constructor and [operator=] from another spectrum: both point at
    the same array, the [memcpy] copies it onto itself. *)
Definition Spectrum_copy (other : Spectrum) : Spectrum :=
  let safe_count := if count_size other >? MAX_CHANNELS then MAX_CHANNELS
                    else count_size other in
  mkSpectrum (duration_sec other) (a0 other) (a1 other) (a2 other)
             (counts other) safe_count.

Definition Spectrum_clear (sp : Spectrum) : Spectrum :=
  mkSpectrum 0 fzero fzero fzero (memcpy (counts sp) 0 (repeat 0 16%nat)) 0.

Definition Spectrum_size (sp : Spectrum) : Z := count_size sp.

Definition Spectrum_empty (sp : Spectrum) : bool := count_size sp =? 0.

Definition Spectrum_push_back (sp : Spectrum) (value : Z) : Spectrum :=
  if count_size sp <? MAX_CHANNELS then append_count sp value else sp.

Definition Spectrum_at (sp : Spectrum) (index : Z) : Z :=
  if index <? count_size sp then load 0 (counts sp) index else 0.

(** The operations of the vector-like interface that change a spectrum. *)
Inductive SpectrumOp : Type :=
| OpClear
| OpPushBack (value : Z)
| OpAssign (other : Spectrum).

Definition Spectrum_apply (sp : Spectrum) (o : SpectrumOp) : Spectrum :=
  match o with
  | OpClear => Spectrum_clear sp
  | OpPushBack v => Spectrum_push_back sp v
  | OpAssign other => Spectrum_copy other
  end.

(** The vector operations that are legal arguments: an assigned-from
    spectrum has a [size_t] count. *)
Definition op_valid (o : SpectrumOp) : Prop :=
  match o with
  | OpAssign other => 0 <= count_size other
  | _ => True
  end.

(** The entries a spectrum holds: the first [count_size] cells. *)
Definition Spectrum_contents (sp : Spectrum) : list Z :=
  firstn (Z.to_nat (count_size sp)) (counts sp).

(* ------------------------------------------------------------------ *)
(** ** Frame reassembly (BluetoothTransport.h, BluetoothTransport.cpp)  *)
(* ------------------------------------------------------------------ *)

Definition MAX_RESP_SIZE : Z := 4096.

Record BluetoothTransport : Type := mkBluetoothTransport {
  _resp_buffer : list byte;
  _resp_received : Z;
  _resp_size : Z;
  _response_ready : bool
}.

(** The constructor's initialisation of the response state. *)
Definition BluetoothTransport_new (resp_buffer : list byte) : BluetoothTransport :=
  mkBluetoothTransport (memset_zero resp_buffer MAX_RESP_SIZE) 0 0 false.

(** "Reset response tracking" at the start of [execute]. *)
Definition reset_tracking (t : BluetoothTransport) : BluetoothTransport :=
  mkBluetoothTransport (_resp_buffer t) 0 0 false.

(** The notification lambda registered with [registerForNotify], applied to
    one chunk [data] of [length] bytes. *)
Definition onNotify (t : BluetoothTransport) (data : list byte) : BluetoothTransport :=
  let length := Z.of_nat (List.length data) in
  let t1 :=
    if (_resp_size t =? 0) && (length >=? 4) then
      let size_value :=
        Z.lor (Z.lor (Z.lor (u8 (load x00 data 0))
                            (to_uint32 (Z.shiftl (u8 (load x00 data 1)) 8)))
                     (to_uint32 (Z.shiftl (u8 (load x00 data 2)) 16)))
              (to_uint32 (Z.shiftl (u8 (load x00 data 3)) 24)) in
      let resp_size := wrap_size (size_value + 4) in
      let resp_size := if resp_size >? MAX_RESP_SIZE then MAX_RESP_SIZE else resp_size in
      mkBluetoothTransport
        (memcpy (memset_zero (_resp_buffer t) MAX_RESP_SIZE) 0 data)
        length resp_size (_response_ready t)
    else if wrap_size (_resp_received t + length) <=? MAX_RESP_SIZE then
      let copyLength :=
        if wrap_size (_resp_received t + length) >? MAX_RESP_SIZE
        then wrap_size (MAX_RESP_SIZE - _resp_received t) else length in
      if copyLength >? 0 then
        mkBluetoothTransport
          (memcpy (_resp_buffer t) (_resp_received t) (slice data 0 copyLength))
          (wrap_size (_resp_received t + copyLength))
          (_resp_size t) (_response_ready t)
      else t
    else t in
  if _resp_received t1 >=? _resp_size t1
  then mkBluetoothTransport (_resp_buffer t1) (_resp_received t1) (_resp_size t1) true
  else t1.

(** The chunks of one exchange, delivered in order. *)
Definition deliver (t : BluetoothTransport) (chunks : list (list byte)) : BluetoothTransport :=
  fold_left onNotify chunks t.

(** The end of [BluetoothTransport::execute]: what is returned once the
    polling loop is left, in the response state [t] reached by then. *)
Definition response_of (shared : list byte) (t : BluetoothTransport) : BytesBuffer :=
  if negb (_response_ready t) then BytesBuffer_new shared
  else if _resp_received t >=? 4 then
    let dataSize := wrap_size (_resp_received t - 4) in
    let dataSize := if dataSize >? MAX_RESP_SIZE - 4 then MAX_RESP_SIZE - 4 else dataSize in
    let dataSize := if dataSize >? MAX_BUFFER_SIZE then MAX_BUFFER_SIZE else dataSize in
    BytesBuffer_copy (BytesBuffer_of (_fixed_data (BytesBuffer_new shared))
                                     (slice (_resp_buffer t) 4 dataSize))
  else BytesBuffer_new shared.

(** A frame on the wire as the handler understands it: the 4-byte
    little-endian length of the body, then the body. *)
Definition frame_of (body : list byte) : list byte :=
  le32_bytes (Z.of_nat (List.length body)) ++ body.

(** The response buffer holding the bytes [pre] from its start, zero
    beyond them. *)
Definition padded (pre : list byte) : list byte :=
  pre ++ repeat x00 (Z.to_nat MAX_RESP_SIZE - List.length pre).

(* ------------------------------------------------------------------ *)
(** ** Command channel (RadiaCode.h, RadiaCode.cpp)                     *)
(* ------------------------------------------------------------------ *)

(** [enum COMMAND] and [enum VSFR], the members used below. *)
Definition RD_VIRT_STRING : Z := 0x0826.
Definition RD_VIRT_SFR_BATCH : Z := 0x082A.
Definition DS_UNITS : Z := 0x8004.
Definition CHN_TO_keV_A0 : Z := 0x8010.
Definition CHN_TO_keV_A1 : Z := 0x8011.
Definition CHN_TO_keV_A2 : Z := 0x8012.
Definition CR_UNITS : Z := 0x8013.
Definition TEMP_degC : Z := 0x8024.
Definition RAW_TEMP_degC : Z := 0x8033.
Definition TEMP_UP_degC : Z := 0x8034.
Definition TEMP_DN_degC : Z := 0x8035.

(** The session object.  [_connection] is [None] for a null pointer and
    otherwise holds what the transport has been asked so far: the full
    requests handed to [_connection->execute], latest first. *)
Record RadiaCode : Type := mkRadiaCode {
  _connection : option (list (list byte));
  _seq : Z;
  _base_time_sec : Z;
  _spectrum_format_version : Z
}.

(** The fields as the constructor sets them before the first exchange, for
    a transport that could be created. *)
Definition RadiaCode_connected : RadiaCode := mkRadiaCode (Some []) 0 0 0.

Section CommandChannel.

(** The transport behind [RadiaCodeTransport::execute]: from the requests
    written so far (latest first) to the bytes of the reassembled response
    after its length prefix; no bytes on a timeout. *)
Variable link : list (list byte) -> list byte.

(** [(float)x] for an unsigned 32-bit [x]. *)
Variable float_of_uint : Z -> float32.

(** The request [RadiaCode::execute] puts on the wire for the sequence
    counter [seq]: the 4-byte length, the header [{opcode_lo, opcode_hi, 0,
    seq_no}] and the arguments. *)
Definition full_request_of (seq reqtype : Z) (args : list byte) : list byte :=
  let req_seq_no := to_uint8 (0x80 + seq) in
  let req_header :=
    [byte_of (Z.land (to_uint16 reqtype) 255);
     byte_of (Z.land (Z.shiftr (to_uint16 reqtype) 8) 255);
     byte_of 0;
     byte_of req_seq_no] in
  let request := req_header ++ args in
  let request_size := wrap_size (4 + Z.of_nat (List.length args)) in
  let request_len := to_uint32 request_size in
  le32_bytes request_len ++ request.

(** [RadiaCode::execute].  [shared] is the contents of the buffer store
    when the call is made. *)
Definition execute (rc : RadiaCode) (shared : list byte) (reqtype : Z)
    (args : list byte) : RadiaCode * BytesBuffer :=
  match _connection rc with
  | None => (rc, BytesBuffer_new shared)
  | Some sent =>
    let full_request := full_request_of (_seq rc) reqtype args in
    let seq' := to_uint8 ((_seq rc + 1) mod 32) in
    let sent' := full_request :: sent in
    let response := BytesBuffer_of shared (link sent') in
    let '(resp_header, response) := readBytes 4 response in
    (mkRadiaCode (Some sent') seq' (_base_time_sec rc) (_spectrum_format_version rc),
     response)
  end.

(** [RadiaCode::readRequest].  [last_byte0] is what the uninitialised local
    [last_byte] happens to hold. *)
Definition readRequest (rc : RadiaCode) (shared : list byte) (command_id : Z)
    (last_byte0 : byte) : RadiaCode * BytesBuffer :=
  let cmd_bytes := le32_bytes command_id in
  let '(rc, r) := execute rc shared RD_VIRT_STRING cmd_bytes in
  if _size r <? 8 then (rc, BytesBuffer_new (_fixed_data r))
  else
    let '((ok1, retcode), r) := readUint32 r in
    let '((ok2, flen), r) := if ok1 then readUint32 r else ((false, 0), r) in
    let headerValid := ok1 && ok2 in
    if negb headerValid then (rc, BytesBuffer_new (_fixed_data r))
    else
      let remaining_size := fst (available r) in
      if remaining_size =? to_uint32 (flen + 1) then
        let got := snd (fst (peekBytes (wrap_size (remaining_size - 1)) 1 r)) in
        let last_byte := match got with c :: _ => c | [] => last_byte0 end in
        if u8 last_byte =? 0
        then (rc, snd (setSize (wrap_size (wrap_size (_position r + remaining_size) - 1)) r))
        else (rc, r)
      else (rc, r).

(** The value loop of [batchReadVSFRs]. *)
Fixpoint read_values (vsfr_ids : list Z) (ret : list float32) : Cur (list float32) :=
  match vsfr_ids with
  | [] => Cur_ret ret
  | vsfr_id :: rest =>
    fun r =>
      let '((_, raw_value), r) := readUint32 r in
      let v :=
        if (vsfr_id =? CHN_TO_keV_A0) || (vsfr_id =? CHN_TO_keV_A1)
           || (vsfr_id =? CHN_TO_keV_A2)
        then F32 raw_value
        else if (vsfr_id =? DS_UNITS) || (vsfr_id =? CR_UNITS)
        then float_of_uint (Z.land raw_value 1)
        else if (vsfr_id =? TEMP_degC) || (vsfr_id =? RAW_TEMP_degC)
                || (vsfr_id =? TEMP_UP_degC) || (vsfr_id =? TEMP_DN_degC)
        then F32 raw_value
        else float_of_uint raw_value in
      read_values rest (ret ++ [v]) r
  end.

(** What [(1 << nvsfr) - 1] leaves in [expected_flags] for [nvsfr > 30].
    The shift and the subtraction are [int] arithmetic: from 31 on the
    result does not fit, from 32 on the shift count reaches the width, and
    C++ gives the expression no value.  [shift_undefined nvsfr] stands for
    whatever the target computes then; nothing is assumed about it. *)
Variable shift_undefined : Z -> Z.

(** [uint32_t expected_flags = (1 << nvsfr) - 1]: an [int] shift and
    subtraction, converted to unsigned. *)
Definition expected_flags (nvsfr : Z) : Z :=
  if nvsfr <=? 30 then to_uint32 (to_int32 (Z.shiftl 1 nvsfr) - 1)
  else to_uint32 (shift_undefined nvsfr).

(** [RadiaCode::batchReadVSFRs]; the store after the call is returned with
    the values. *)
Definition batchReadVSFRs (rc : RadiaCode) (shared : list byte) (vsfr_ids : list Z)
    : RadiaCode * list float32 * list byte :=
  let nvsfr := Z.of_nat (List.length vsfr_ids) in
  if nvsfr =? 0 then (rc, [], shared)
  else
    let count := to_uint32 nvsfr in
    let msg := le32_bytes count ++ flat_map le32_bytes vsfr_ids in
    let '(rc, r) := execute rc shared RD_VIRT_SFR_BATCH msg in
    let '((_, valid_flags), r) := readUint32 r in
    if negb (valid_flags =? expected_flags nvsfr) then (rc, [], _fixed_data r)
    else
      let '(ret, r) := read_values vsfr_ids [] r in
      (rc, ret, _fixed_data r).

(** Successive [execute] calls of one session; each command is an opcode
    with its argument bytes. *)
Fixpoint execute_all (rc : RadiaCode) (shared : list byte)
    (cmds : list (Z * list byte)) : RadiaCode :=
  match cmds with
  | [] => rc
  | (reqtype, args) :: rest =>
    let '(rc', r) := execute rc shared reqtype args in
    execute_all rc' (_fixed_data r) rest
  end.

End CommandChannel.

(** The requests a session has put on the wire, oldest first. *)
Definition requests_of (rc : RadiaCode) : list (list byte) :=
  match _connection rc with
  | None => []
  | Some sent => rev sent
  end.

(** The sequence byte of a full request: after the 4-byte length prefix,
    [req_header[3]]. *)
Definition seq_byte_of (full_request : list byte) : Z := u8 (load x00 full_request 7).

(* ------------------------------------------------------------------ *)
(** ** Decoders (Decoders.cpp)                                          *)
(* ------------------------------------------------------------------ *)

(** *** Spectrum counts *)

Definition decodeCountsV0_step (sp : Spectrum) : Cur (bool * Spectrum) :=
  '(ok, count) <- readUint32 ;;
  if ok then
    if count_size sp <? MAX_CHANNELS then Cur_ret (true, append_count sp count)
    else Cur_ret (false, sp)
  else Cur_ret (false, sp).

(** The [while] loop of [decodeCountsV0]; [None] when the fuel runs out
    before the loop is left. *)
Fixpoint decodeCountsV0_loop (fuel : nat) (sp : Spectrum) (br : BytesBuffer)
    : option (Spectrum * BytesBuffer) :=
  match fuel with
  | O => None
  | S fuel' =>
    let avail := fst (available br) in
    if (avail >? 0) && (avail >=? 4) && (count_size sp <? MAX_CHANNELS) then
      let '((continue, sp'), br') := decodeCountsV0_step sp br in
      if continue then decodeCountsV0_loop fuel' sp' br' else Some (sp', br')
    else Some (sp, br)
  end.

Definition decodeCountsV0 (br : BytesBuffer) (sp : Spectrum)
    : option (Spectrum * BytesBuffer) :=
  let sp := with_count_size sp 0 in
  if fst (available br) <? 4 then Some (sp, br)
  else decodeCountsV0_loop (S (Z.to_nat (fst (available br)))) sp br.

(** How one entry of a run ends: with a value, with a failed read
    ([goto end_decoding]) or with an unsupported code ([break]). *)
Inductive entry : Type :=
| EntryValue (v : Z)
| EntryReadError
| EntryUnsupported.

(** The value of one entry for the value-length code [vlen], from the
    running value [last]. *)
Definition decode_entry (vlen last : Z) : Cur entry :=
  if vlen =? 0 then Cur_ret (EntryValue 0)
  else if vlen =? 1 then
    '(ok, val) <- readUint8 ;;
    if negb ok then Cur_ret EntryReadError else Cur_ret (EntryValue val)
  else if vlen =? 2 then
    '(ok, val) <- readInt8 ;;
    if negb ok then Cur_ret EntryReadError
    else Cur_ret (EntryValue (to_uint32 (last + val)))
  else if vlen =? 3 then
    '(ok, val) <- readInt16 ;;
    if negb ok then Cur_ret EntryReadError
    else Cur_ret (EntryValue (to_uint32 (last + val)))
  else if vlen =? 4 then
    avail <- available ;;
    if avail <? 3 then Cur_ret EntryReadError
    else
      '(ok_a, a) <- readUint8 ;;
      if negb ok_a then Cur_ret EntryReadError
      else
        '(ok_b, b) <- readUint8 ;;
        if negb ok_b then Cur_ret EntryReadError
        else
          '(ok_c, c) <- readInt8 ;;
          if negb ok_c then Cur_ret EntryReadError
          else Cur_ret (EntryValue
                 (to_uint32 (last + to_int32 (Z.lor (Z.lor (Z.shiftl c 16) (Z.shiftl b 8)) a))))
  else if vlen =? 5 then
    '(ok, val) <- readInt32 ;;
    if negb ok then Cur_ret EntryReadError
    else Cur_ret (EntryValue (to_uint32 (last + val)))
  else Cur_ret EntryUnsupported.

(** The [for] loop over one run, with [n] entries still to go.  The boolean
    is true when decoding goes on with the next run and false after
    [goto end_decoding]. *)
Fixpoint decode_run (n : nat) (vlen last : Z) (sp : Spectrum) (br : BytesBuffer)
    : bool * Z * Spectrum * BytesBuffer :=
  match n with
  | O => (true, last, sp, br)
  | S n' =>
    if count_size sp <? MAX_CHANNELS then
      match decode_entry vlen last br with
      | (EntryValue v, br') =>
        let sp' := if count_size sp <? MAX_CHANNELS then append_count sp v else sp in
        decode_run n' vlen v sp' br'
      | (EntryReadError, br') => (false, last, sp, br')
      | (EntryUnsupported, br') => (true, last, sp, br')
      end
    else (true, last, sp, br)
  end.

(** The [while] loop of [decodeCountsV1]; [None] when the fuel runs out
    before the loop is left. *)
Fixpoint decodeCountsV1_loop (fuel : nat) (last : Z) (sp : Spectrum) (br : BytesBuffer)
    : option (Spectrum * BytesBuffer) :=
  match fuel with
  | O => None
  | S fuel' =>
    if (fst (available br) >=? 2) && (count_size sp <? MAX_CHANNELS) then
      let '((ok, u16), br) := readUint16 br in
      if negb ok then Some (sp, br)
      else
        let cnt := to_uint16 (Z.land (Z.shiftr u16 4) 0x0FFF) in
        let vlen := to_uint8 (Z.land u16 0x0F) in
        let cnt := if cnt >? 4096 then 0 else cnt in
        let '(go_on, last, sp, br) := decode_run (Z.to_nat cnt) vlen last sp br in
        if go_on then decodeCountsV1_loop fuel' last sp br else Some (sp, br)
    else Some (sp, br)
  end.

Definition decodeCountsV1 (br : BytesBuffer) (sp : Spectrum)
    : option (Spectrum * BytesBuffer) :=
  let sp := with_count_size sp 0 in
  let last := 0 in
  if fst (available br) <? 2 then Some (sp, br)
  else decodeCountsV1_loop (S (Z.to_nat (fst (available br)))) last sp br.

Definition decodeSpectrum (br : BytesBuffer) (format_version : Z) (sp : Spectrum)
    : option (Spectrum * BytesBuffer) :=
  let sp := Spectrum_clear sp in
  if fst (available br) <? 4 + 3 * 4 then Some (sp, br)
  else
    let '((ok, duration), br) := readUint32 br in
    if negb ok then Some (sp, br)
    else
      let '((ok0, f0), br) := readFloat br in
      if negb ok0 then Some (sp, br)
      else
        let '((ok1, f1), br) := readFloat br in
        if negb ok1 then Some (sp, br)
        else
          let '((ok2, f2), br) := readFloat br in
          if negb ok2 then Some (sp, br)
          else
            let sp := mkSpectrum duration f0 f1 f2 (counts sp) (count_size sp) in
            let decoded :=
              if format_version =? 0 then decodeCountsV0 br sp
              else if format_version =? 1 then decodeCountsV1 br sp
              else Some (sp, br) in
            match decoded with
            | None => None
            | Some (sp, br) =>
              if count_size sp >? MAX_CHANNELS
              then Some (with_count_size sp MAX_CHANNELS, br)
              else Some (sp, br)
            end.

(** *** Telemetry records *)

(** The [DataItem] hierarchy; every class carries the [timestamp]. *)
Inductive DataItem : Type :=
| RealTimeData (timestamp : Z) (count_rate count_rate_err dose_rate dose_rate_err : float32)
               (flags real_time_flags : Z)
| RawData (timestamp : Z) (count_rate dose_rate : float32)
| DoseRateDB (timestamp count : Z) (count_rate dose_rate dose_rate_err : float32) (flags : Z)
| RareData (timestamp duration : Z) (dose temperature charge_level : float32) (flags : Z)
| Event (timestamp event event_param1 flags : Z).

(** What the dispatch on [(eid, gid)] does with one record. *)
Inductive record : Type :=
| Decoded (item : DataItem)
| Skipped
| UnknownType.

Section Telemetry.

(** [(float)n] for an [int] or unsigned [n], and float division. *)
Variable float_of_int : Z -> float32.
Variable fdiv : float32 -> float32 -> float32.

(** [10.0f] and [100.0f] *)
Definition f10 : float32 := F32 0x41200000.
Definition f100 : float32 := F32 0x42C80000.

(** A read whose success flag the caller drops. *)
Definition value_of {A} (rd : Cur (bool * A)) : Cur A :=
  '(_, v) <- rd ;; Cur_ret v.

(** The body of one record: the [if]/[else if] chain on [(eid, gid)]. *)
Definition decode_record (eid gid timestamp : Z) : Cur record :=
  if (eid =? 0) && (gid =? 0) then
    count_rate <- value_of readFloat ;;
    dose_rate <- value_of readFloat ;;
    tempCountRateErr <- value_of readUint16 ;;
    tempDoseRateErr <- value_of readUint16 ;;
    flags <- value_of readUint16 ;;
    real_time_flags <- value_of readUint8 ;;
    Cur_ret (Decoded (RealTimeData timestamp count_rate
                        (fdiv (float_of_int tempCountRateErr) f10)
                        dose_rate
                        (fdiv (float_of_int tempDoseRateErr) f10)
                        flags real_time_flags))
  else if (eid =? 0) && (gid =? 1) then
    count_rate <- value_of readFloat ;;
    dose_rate <- value_of readFloat ;;
    Cur_ret (Decoded (RawData timestamp count_rate dose_rate))
  else if (eid =? 0) && (gid =? 2) then
    count <- value_of readUint32 ;;
    count_rate <- value_of readFloat ;;
    dose_rate <- value_of readFloat ;;
    tempDoseRateErr <- value_of readUint16 ;;
    flags <- value_of readUint16 ;;
    Cur_ret (Decoded (DoseRateDB timestamp count count_rate dose_rate
                        (fdiv (float_of_int tempDoseRateErr) f10) flags))
  else if (eid =? 0) && (gid =? 3) then
    duration <- value_of readUint32 ;;
    dose <- value_of readFloat ;;
    temperature <- value_of readUint16 ;;
    charge_level <- value_of readUint16 ;;
    flags <- value_of readUint16 ;;
    Cur_ret (Decoded (RareData timestamp duration dose
                        (fdiv (float_of_int (temperature - 2000)) f100)
                        (fdiv (float_of_int charge_level) f100) flags))
  else if (eid =? 0) && (gid =? 7) then
    event_id <- value_of readUint8 ;;
    event_param1 <- value_of readUint8 ;;
    flags <- value_of readUint16 ;;
    Cur_ret (Decoded (Event timestamp event_id event_param1 flags))
  else if (eid =? 0) && (gid =? 9) then
    dose_rate <- value_of readFloat ;;
    flags <- value_of readUint16 ;;
    Cur_ret (Decoded (RawData timestamp fzero dose_rate))
  else if (eid =? 0) && (gid =? 4) then
    value_of readUint32 ;;; value_of readFloat ;;; value_of readFloat ;;;
    value_of readUint16 ;;; value_of readUint16 ;;; Cur_ret Skipped
  else if (eid =? 0) && (gid =? 5) then
    value_of readUint32 ;;; value_of readFloat ;;; value_of readFloat ;;;
    value_of readUint16 ;;; value_of readUint16 ;;; Cur_ret Skipped
  else if (eid =? 0) && (gid =? 6) then
    value_of readUint16 ;;; value_of readUint16 ;;; value_of readUint16 ;;;
    Cur_ret Skipped
  else if (eid =? 0) && (gid =? 8) then
    value_of readFloat ;;; value_of readUint16 ;;; Cur_ret Skipped
  else if (eid =? 1) && (gid =? 1) then
    samples_num <- value_of readUint16 ;;
    value_of readUint32 ;;;
    pos <- getPosition ;;
    setPosition (wrap_size (pos + to_int32 (8 * samples_num))) ;;;
    Cur_ret Skipped
  else if (eid =? 1) && (gid =? 2) then
    samples_num <- value_of readUint16 ;;
    value_of readUint32 ;;;
    pos <- getPosition ;;
    setPosition (wrap_size (pos + to_int32 (16 * samples_num))) ;;;
    Cur_ret Skipped
  else if (eid =? 1) && (gid =? 3) then
    samples_num <- value_of readUint16 ;;
    value_of readUint32 ;;;
    pos <- getPosition ;;
    setPosition (wrap_size (pos + to_int32 (14 * samples_num))) ;;;
    Cur_ret Skipped
  else Cur_ret UnknownType.

(** The 7-byte record header: [seq], [eid], [gid], [ts_offset]. *)
Definition read_header : Cur (Z * Z * Z * Z) :=
  seq <- value_of readUint8 ;;
  eid <- value_of readUint8 ;;
  gid <- value_of readUint8 ;;
  ts_offset <- value_of readInt32 ;;
  Cur_ret (seq, eid, gid, ts_offset).

(** What [(ts_offset * 10) / 1000] evaluates to when the product does not
    fit an [int]: C++ gives the overflowing product no value, and a compiler
    may compute the quotient without ever forming it.  [offset_undefined
    ts_offset] stands for whatever the target computes then; nothing is
    assumed about it. *)
Variable offset_undefined : Z -> Z.

(** [base_time_sec + (ts_offset * 10) / 1000]: the product and the
    quotient in [int] (truncating toward zero), the sum in [uint32_t]. *)
Definition timestamp_of (base_time_sec ts_offset : Z) : Z :=
  let product := ts_offset * 10 in
  let seconds :=
    if (- 2 ^ 31 <=? product) && (product <? 2 ^ 31) then Z.quot product 1000
    else offset_undefined ts_offset in
  to_uint32 (base_time_sec + seconds).

(** The [while] loop of [decodeDataBuf] from a loop head, with the
    records decoded so far; [None] when the fuel runs out before the loop
    is left.  The sequence check only logs and resynchronises. *)
Fixpoint decodeDataBuf_loop (fuel : nat) (base_time_sec : Z) (next_seq : Z)
    (first_packet : bool) (ret : list DataItem) (br : BytesBuffer)
    : option (list DataItem * BytesBuffer) :=
  match fuel with
  | O => None
  | S fuel' =>
    if fst (available br) >=? 7 then
      let '((seq, eid, gid, ts_offset), br) := read_header br in
      let timestamp := timestamp_of base_time_sec ts_offset in
      let next_seq :=
        if negb first_packet && negb (next_seq =? seq) then seq else next_seq in
      let first_packet := false in
      let next_seq := to_uint8 ((seq + 1) mod 256) in
      match decode_record eid gid timestamp br with
      | (Decoded item, br) =>
        decodeDataBuf_loop fuel' base_time_sec next_seq first_packet (ret ++ [item]) br
      | (Skipped, br) =>
        decodeDataBuf_loop fuel' base_time_sec next_seq first_packet ret br
      | (UnknownType, br) => Some (ret, br)
      end
    else Some (ret, br)
  end.

Definition decodeDataBuf (br : BytesBuffer) (base_time_sec : Z)
    : option (list DataItem * BytesBuffer) :=
  decodeDataBuf_loop (S (Z.to_nat (fst (available br)))) base_time_sec 0 true [] br.

End Telemetry.

(** The [(eid, gid)] pairs [decodeDataBuf] knows: the six it decodes and the
    seven it parses and discards. *)
Definition known_pair (eid gid : Z) : bool :=
  existsb (fun '(e, g) => (eid =? e) && (gid =? g))
          [(0, 0); (0, 1); (0, 2); (0, 3); (0, 7); (0, 9);
           (0, 4); (0, 5); (0, 6); (0, 8); (1, 1); (1, 2); (1, 3)].

(* ------------------------------------------------------------------ *)
(** ** Sending a request (BluetoothTransport::execute)                  *)
(* ------------------------------------------------------------------ *)

(** [const size_t chunkSize = 18] *)
Definition chunkSize : Z := 18.

(** The write loop [for (pos = 0; pos < length; pos += chunkSize)]: the
    chunks handed to [writeValue], from [pos] on; [None] when the fuel runs
    out before the loop is left. *)
Fixpoint send_loop (fuel : nat) (request : list byte) (pos : Z) : option (list (list byte)) :=
  match fuel with
  | O => None
  | S fuel' =>
    let length := Z.of_nat (List.length request) in
    if pos <? length then
      let remaining := wrap_size (length - pos) in
      let toSend := if remaining >? chunkSize then chunkSize else remaining in
      match send_loop fuel' request (wrap_size (pos + chunkSize)) with
      | Some rest => Some (slice request pos toSend :: rest)
      | None => None
      end
    else Some []
  end.

Definition written_chunks (request : list byte) : option (list (list byte)) :=
  send_loop (S (List.length request)) request 0.

(* ------------------------------------------------------------------ *)
(** ** Device calls (RadiaCode.cpp)                                     *)
(* ------------------------------------------------------------------ *)

(** More members of [enum COMMAND], [enum VS], [enum VSFR], [enum DEV_CTRL]
    and [enum CTRL]. *)
Definition WR_VIRT_SFR : Z := 0x0825.
Definition DATA_BUF : Z := 0x100.
Definition SPECTRUM : Z := 0x200.
Definition DEVICE_CTRL : Z := 0x0500.
Definition DEVICE_LANG : Z := 0x0502.
Definition DISP_BRT : Z := 0x0511.
Definition DISP_OFF_TIME : Z := 0x0513.
Definition VIBRO_CTRL : Z := 0x0530.
Definition CLICKS : Z := Z.shiftl 1 1.
Definition CONNECTION : Z := Z.shiftl 1 8.
Definition POWER : Z := Z.shiftl 1 9.

(** The characters of the literals ["ru"] and ["en"]. *)
Definition lang_ru : list byte := [x72; x75].
Definition lang_en : list byte := [x65; x6e].

(** [strcmp(a, b) == 0] on the characters of two C strings. *)
Fixpoint str_equal (a b : list byte) : bool :=
  match a, b with
  | [], [] => true
  | x :: a', y :: b' => Byte.eqb x y && str_equal a' b'
  | _, _ => false
  end.

Section DeviceCalls.

Variable link : list (list byte) -> list byte.
Variable float_of_int : Z -> float32.
Variable fdiv : float32 -> float32 -> float32.
Variable offset_undefined : Z -> Z.

(** [RadiaCode::writeRequest]; [data] is empty for a null pointer.  The
    session and the buffer store after the call. *)
Definition writeRequest (rc : RadiaCode) (shared : list byte) (command_id : Z)
    (data : list byte) : RadiaCode * list byte :=
  let cmd_data := le32_bytes command_id ++ data in
  let '(rc, r) := execute link rc shared WR_VIRT_SFR cmd_data in
  let '((_, retcode), r) := readUint32 r in
  (rc, _fixed_data r).

(** [RadiaCode::readVSFR]: the value returned, with the session and the
    store after the call. *)
Definition readVSFR (rc : RadiaCode) (shared : list byte) (vsfr_id : Z)
    : Z * RadiaCode * list byte :=
  let count := 1 in
  let msg := le32_bytes count ++ le32_bytes vsfr_id in
  let '(rc, r) := execute link rc shared RD_VIRT_SFR_BATCH msg in
  let '((_, valid_flags), r) := readUint32 r in
  if negb (valid_flags =? 1) then (0, rc, _fixed_data r)
  else
    let '((_, raw_value), r) := readUint32 r in
    (raw_value, rc, _fixed_data r).

Definition setDisplayOffTime (rc : RadiaCode) (shared : list byte) (seconds : Z)
    : RadiaCode * list byte :=
  if negb (seconds =? 5) && negb (seconds =? 10) && negb (seconds =? 15)
     && negb (seconds =? 30)
  then (rc, shared)
  else
    let value := to_uint32 (if seconds =? 30 then 3 else Z.quot seconds 5 - 1) in
    writeRequest rc shared DISP_OFF_TIME (le32_bytes value).

Definition setDisplayBrightness (rc : RadiaCode) (shared : list byte) (brightness : Z)
    : RadiaCode * list byte :=
  if brightness >? 9 then (rc, shared)
  else writeRequest rc shared DISP_BRT (le32_bytes brightness).

Definition setVibroCtrl (rc : RadiaCode) (shared : list byte) (ctrl_flags : Z)
    : RadiaCode * list byte :=
  if negb (Z.land ctrl_flags CLICKS =? 0) then (rc, shared)
  else if negb (Z.land ctrl_flags CONNECTION =? 0) then (rc, shared)
  else if negb (Z.land ctrl_flags POWER =? 0) then (rc, shared)
  else writeRequest rc shared VIBRO_CTRL (le32_bytes (to_uint32 ctrl_flags)).


(** [RadiaCode::setLanguage]; [lang] holds the characters of the C string. *)
Definition setLanguage (rc : RadiaCode) (shared : list byte) (lang : list byte)
    : RadiaCode * list byte :=
  if negb (str_equal lang lang_ru) && negb (str_equal lang lang_en) then (rc, shared)
  else
    let value := if str_equal lang lang_en then 1 else 0 in
    writeRequest rc shared DEVICE_LANG (le32_bytes value).

(** [RadiaCode::dataBuf]; [last_byte0] as in [readRequest]. *)
Definition dataBuf (rc : RadiaCode) (shared : list byte) (last_byte0 : byte)
    : RadiaCode * option (list DataItem * BytesBuffer) :=
  let '(rc, r) := readRequest link rc shared DATA_BUF last_byte0 in
  (rc, decodeDataBuf float_of_int fdiv offset_undefined r (_base_time_sec rc)).

(** [RadiaCode::spectrum]; [result] is the function's static [Spectrum] as
    the call finds it. *)
Definition spectrum (rc : RadiaCode) (shared : list byte) (last_byte0 : byte)
    (result : Spectrum) : RadiaCode * option Spectrum :=
  let result := Spectrum_clear result in
  let '(rc, r) := readRequest link rc shared SPECTRUM last_byte0 in
  if _size r <? 16 then (rc, Some (Spectrum_copy result))
  else
    match decodeSpectrum r (to_uint8 (_spectrum_format_version rc)) result with
    | Some (result, _) => (rc, Some (Spectrum_copy result))
    | None => (rc, None)
    end.

End DeviceCalls.

(** [DEV_CTRL::LIGHT] *)
Definition LIGHT : Z := Z.shiftl 1 3.

(** [RadiaCode::setLightOn]: the device control word is read, its LIGHT bit
    set or cleared, and the word written back. *)
Definition setLightOn (link : list (list byte) -> list byte) (rc : RadiaCode)
    (shared : list byte) (on : bool) : RadiaCode * list byte :=
  let '(deviceCtrl, rc, shared) := readVSFR link rc shared DEVICE_CTRL in
  let deviceCtrl :=
    if on then to_uint32 (Z.lor deviceCtrl LIGHT)
    else to_uint32 (Z.land deviceCtrl (Z.lnot LIGHT)) in
  writeRequest link rc shared DEVICE_CTRL (le32_bytes deviceCtrl).

(** The conversion in the value loop of [batchReadVSFRs], for one register
    and the raw word read for it. *)
Definition vsfr_value (float_of_uint : Z -> float32) (vsfr_id raw_value : Z) : float32 :=
  if (vsfr_id =? CHN_TO_keV_A0) || (vsfr_id =? CHN_TO_keV_A1)
     || (vsfr_id =? CHN_TO_keV_A2)
  then F32 raw_value
  else if (vsfr_id =? DS_UNITS) || (vsfr_id =? CR_UNITS)
  then float_of_uint (Z.land raw_value 1)
  else if (vsfr_id =? TEMP_degC) || (vsfr_id =? RAW_TEMP_degC)
          || (vsfr_id =? TEMP_UP_degC) || (vsfr_id =? TEMP_DN_degC)
  then F32 raw_value
  else float_of_uint raw_value.

(** What [readUint32] leaves in its argument for the word at [off] of a
    store [d] whose data end at [size]: the word, or 0 when it does not
    fit. *)
Definition word_or_zero (d : list byte) (size off : Z) : Z :=
  if off + 4 <=? size then le_uint (slice d off 4) else 0.

(** The 32-bit words of a byte string, little-endian, whole words only
    (what format 0 of the spectrum holds). *)
Fixpoint words_of (fuel : nat) (bs : list byte) : list Z :=
  match fuel with
  | O => []
  | S fuel' =>
    match bs with
    | c0 :: c1 :: c2 :: c3 :: rest => le_uint [c0; c1; c2; c3] :: words_of fuel' rest
    | _ => []
    end
  end.

Definition words (bs : list byte) : list Z := words_of (List.length bs) bs.

(** What the specification asks of a typed read [rd] of width [w] on the
    cursor [b]: [interp] is the reading of the [w] bytes at the position,
    [zero] the documented default. *)
Definition read_spec {A} (w : Z) (interp : list byte -> A) (zero : A)
    (rd : Cur (bool * A)) (b : BytesBuffer) : Prop :=
  let ok := fst (fst (rd b)) in
  let v := snd (fst (rd b)) in
  let b' := snd (rd b) in
  (ok = true <-> _position b + w <= _size b) /\
  (ok = false -> b' = b /\ v = zero) /\
  (ok = true ->
     v = interp (slice (_fixed_data b) (_position b) w) /\
     b' = with_position b (_position b + w)).

(** A cursor action that, on a well-formed buffer, returns a value in [P],
    keeps the buffer well-formed and its size, and does not move the
    position backwards. *)
Definition cur_post {A} (P : A -> Prop) (m : Cur A) : Prop :=
  forall b, buffer_ok b ->
    P (fst (m b)) /\ buffer_ok (snd (m b)) /\
    _position b <= _position (snd (m b)) /\ _size (snd (m b)) = _size b.

(* ================================================================== *)
(** * Part II: properties                                              *)
(* ================================================================== *)

(** ** Arithmetic of bytes and machine words *)

Lemma u8_range (b : byte) : 0 <= u8 b < 256.
Proof.
  unfold u8. pose proof (Byte.to_N_bounded b). lia.
Qed.

Lemma byte_at_range (b : BytesBuffer) (i : Z) : 0 <= byte_at b i < 256.
Proof. apply u8_range. Qed.

Lemma u8_byte_of (z : Z) : u8 (byte_of z) = z mod 2 ^ 8.
Proof.
  unfold byte_of, u8.
  assert (Hr : 0 <= z mod 2 ^ 8 < 256) by (apply Z.mod_pos_bound; reflexivity).
  destruct (Byte.of_N (Z.to_N (z mod 2 ^ 8))) as [c|] eqn:E.
  - apply Byte.to_of_N in E. rewrite E. lia.
  - apply Byte.of_N_None_iff in E. lia.
Qed.

Lemma byte_of_u8 (c : byte) : byte_of (u8 c) = c.
Proof.
  unfold byte_of. rewrite Z.mod_small by apply u8_range.
  unfold u8. rewrite N2Z.id, Byte.of_to_N. reflexivity.
Qed.

Lemma lor_shiftl_add (a b n : Z) :
  0 <= n -> 0 <= a < 2 ^ n -> Z.lor a (Z.shiftl b n) = a + b * 2 ^ n.
Proof.
  intros Hn Ha.
  assert (Hland : Z.land a (Z.shiftl b n) = 0).
  { apply Z.bits_inj'; intros k Hk.
    rewrite Z.land_spec, Z.bits_0.
    destruct (Z.lt_ge_cases k n) as [Hlt|Hge].
    - rewrite Z.shiftl_spec_low by assumption. apply andb_false_r.
    - rewrite <- (Z.mod_small a (2 ^ n)) by assumption.
      rewrite Z.mod_pow2_bits_high by lia. reflexivity. }
  rewrite <- Z.lxor_lor by assumption.
  rewrite <- Z.add_nocarry_lxor by assumption.
  rewrite Z.shiftl_mul_pow2 by assumption. reflexivity.
Qed.

Lemma to_uint32_small (z : Z) : 0 <= z < 2 ^ 32 -> to_uint32 z = z.
Proof. intros H. unfold to_uint32. apply Z.mod_small. assumption. Qed.

Lemma to_uint16_small (z : Z) : 0 <= z < 2 ^ 16 -> to_uint16 z = z.
Proof. intros H. unfold to_uint16. apply Z.mod_small. assumption. Qed.

Lemma to_signed_small (w z : Z) :
  0 < w -> 0 <= z < 2 ^ (w - 1) -> to_signed w z = z.
Proof.
  intros Hw Hz. unfold to_signed.
  assert (Hp : 2 ^ w = 2 * 2 ^ (w - 1)).
  { replace w with (Z.succ (w - 1)) at 1 by lia. apply Z.pow_succ_r. lia. }
  rewrite Z.mod_small by lia.
  destruct (Z.ltb_spec z (2 ^ (w - 1))); [reflexivity | lia].
Qed.

Lemma to_signed_range (w z : Z) :
  0 < w -> - 2 ^ (w - 1) <= to_signed w z < 2 ^ (w - 1).
Proof.
  intros Hw. unfold to_signed.
  assert (Hp : 2 ^ w = 2 * 2 ^ (w - 1)).
  { replace w with (Z.succ (w - 1)) at 1 by lia. apply Z.pow_succ_r. lia. }
  assert (Hpos : 0 < 2 ^ (w - 1)) by (apply Z.pow_pos_nonneg; lia).
  pose proof (Z.mod_pos_bound z (2 ^ w) ltac:(lia)) as Hm.
  destruct (Z.ltb_spec (z mod 2 ^ w) (2 ^ (w - 1))); lia.
Qed.

Lemma to_signed_mod (w z : Z) : 0 <= w -> to_signed w (z mod 2 ^ w) = to_signed w z.
Proof.
  intros Hw. unfold to_signed.
  rewrite Z.mod_mod by (apply Z.pow_nonzero; lia). reflexivity.
Qed.

(** The last [or] of a signed 32-bit read: the shifted byte may reach the
    sign bit. *)
Lemma lor_top_byte_int32 (t c : Z) :
  0 <= t < 2 ^ 24 -> 0 <= c < 256 ->
  to_int32 (Z.lor t (to_int32 (Z.shiftl c 24))) = to_int32 (t + c * 2 ^ 24).
Proof.
  intros Ht Hc.
  destruct (Z.lt_ge_cases c 128) as [Hlo|Hhi].
  - assert (E : to_int32 (Z.shiftl c 24) = Z.shiftl c 24).
    { rewrite Z.shiftl_mul_pow2 by lia. apply to_signed_small; lia. }
    rewrite E, lor_shiftl_add by lia. reflexivity.
  - assert (E : to_int32 (Z.shiftl c 24) = Z.shiftl (c - 256) 24).
    { rewrite !Z.shiftl_mul_pow2 by lia. unfold to_int32, to_signed.
      rewrite Z.mod_small by lia.
      destruct (Z.ltb_spec (c * 2 ^ 24) (2 ^ (32 - 1))); lia. }
    rewrite E, lor_shiftl_add by lia.
    unfold to_int32.
    rewrite <- (to_signed_mod 32 (t + c * 2 ^ 24)) by lia.
    rewrite <- (to_signed_mod 32 (t + (c - 256) * 2 ^ 24)) by lia.
    f_equal.
    replace (t + (c - 256) * 2 ^ 24) with (t + c * 2 ^ 24 + (-1) * 2 ^ 32) by lia.
    apply Z.mod_add. lia.
Qed.

(** ** Lists as arrays *)

Lemma firstn_skipn_cons {A} (dflt : A) (d : list A) (i n : nat) :
  (i < List.length d)%nat ->
  firstn (S n) (skipn i d) = nth i d dflt :: firstn n (skipn (S i) d).
Proof.
  revert i. induction d as [|x d IH]; intros i Hi; simpl in Hi.
  - lia.
  - destruct i as [|i].
    + reflexivity.
    + change (skipn (S i) (x :: d)) with (skipn i d).
      change (nth (S i) (x :: d) dflt) with (nth i d dflt).
      change (skipn (S (S i)) (x :: d)) with (skipn (S i) d).
      apply IH. lia.
Qed.

Lemma slice_cons {A} (dflt : A) (d : list A) (p n : Z) :
  0 <= p < Z.of_nat (List.length d) -> 0 < n ->
  slice d p n = load dflt d p :: slice d (p + 1) (n - 1).
Proof.
  intros Hp Hn. unfold slice, load.
  replace (Z.to_nat n) with (S (Z.to_nat (n - 1))) by lia.
  replace (Z.to_nat (p + 1)) with (S (Z.to_nat p)) by lia.
  apply firstn_skipn_cons. lia.
Qed.

Lemma slice_zero {A} (d : list A) (p : Z) : slice d p 0 = [].
Proof. reflexivity. Qed.

Lemma le_uint_bound (bs : list byte) :
  0 <= le_uint bs < 2 ^ (8 * Z.of_nat (List.length bs)).
Proof.
  induction bs as [|c bs IH].
  - simpl. lia.
  - cbn [le_uint List.length]. pose proof (u8_range c).
    replace (8 * Z.of_nat (S (List.length bs))) with (8 + 8 * Z.of_nat (List.length bs)) by lia.
    rewrite Z.pow_add_r by lia. lia.
Qed.

Lemma le_uint_slice_range (d : list byte) (off n : Z) :
  0 <= n -> 0 <= le_uint (slice d off n) < 2 ^ (8 * n).
Proof.
  intros Hn. pose proof (le_uint_bound (slice d off n)) as Hb.
  assert (Hlen : Z.of_nat (List.length (slice d off n)) <= n).
  { unfold slice. pose proof (firstn_le_length (Z.to_nat n) (skipn (Z.to_nat off) d)). lia. }
  assert (Hmono : 2 ^ (8 * Z.of_nat (List.length (slice d off n))) <= 2 ^ (8 * n)).
  { apply Z.pow_le_mono_r; lia. }
  lia.
Qed.

(** ** The typed reads in closed form *)

(** One guarded [or] step that stays below the sign bit of every type
    involved: it adds the byte at its place. *)
Lemma or_step_small (prom conv : Z -> Z) (bound t c k : Z) :
  (forall z, 0 <= z < bound -> prom z = z) ->
  (forall z, 0 <= z < bound -> conv z = z) ->
  0 <= k -> 0 <= t < 2 ^ (8 * k) -> 0 <= c < 256 -> 2 ^ (8 * k + 8) <= bound ->
  conv (Z.lor t (prom (Z.shiftl c (8 * k)))) = t + c * 2 ^ (8 * k).
Proof.
  intros Hprom Hconv Hk Ht Hc Hb.
  assert (Hpow : 2 ^ (8 * k + 8) = 256 * 2 ^ (8 * k)).
  { rewrite Z.pow_add_r by lia. change (2 ^ 8) with 256. lia. }
  assert (Hpos : 0 < 2 ^ (8 * k)) by (apply Z.pow_pos_nonneg; lia).
  assert (Hs : Z.shiftl c (8 * k) = c * 2 ^ (8 * k)) by (apply Z.shiftl_mul_pow2; lia).
  rewrite Hprom by (rewrite Hs; nia).
  rewrite lor_shiftl_add by lia.
  apply Hconv. nia.
Qed.

Lemma to_int32_small (z : Z) : 0 <= z < 2 ^ 31 -> to_int32 z = z.
Proof. intros H. apply to_signed_small; [lia | exact H]. Qed.

Lemma to_int16_small (z : Z) : 0 <= z < 2 ^ 15 -> to_int16 z = z.
Proof. intros H. apply to_signed_small; [lia | exact H]. Qed.

Lemma to_int8_small (z : Z) : 0 <= z < 2 ^ 7 -> to_int8 z = z.
Proof. intros H. apply to_signed_small; [lia | exact H]. Qed.

Section ClosedForms.
Variable b : BytesBuffer.
Hypothesis Hok : buffer_ok b.

Let p := _position b.
Let s := _size b.
Let d := _fixed_data b.

Lemma buffer_ok_bounds : 0 <= p <= s /\ s <= 4096 /\ Z.of_nat (List.length d) = 4096.
Proof.
  destruct Hok as (Hp & Hs & Hc & Hl). unfold MAX_BUFFER_SIZE in *.
  subst p s d. lia.
Qed.

Lemma wrap_size_in_store (k : Z) : 0 <= k <= 2 ^ 31 -> wrap_size (p + k) = p + k.
Proof.
  intros Hk. pose proof buffer_ok_bounds. apply to_uint32_small. lia.
Qed.

Lemma available_eq : fst (available b) = s - p.
Proof.
  pose proof buffer_ok_bounds. unfold available. simpl. apply to_uint32_small.
  fold p s. lia.
Qed.

Lemma out_of_bounds_eq (w : Z) :
  0 < w <= 2 ^ 31 -> out_of_bounds b w = negb (p + w <=? s).
Proof.
  intros Hw. pose proof buffer_ok_bounds. unfold out_of_bounds. fold p s.
  rewrite wrap_size_in_store by lia.
  destruct (Z.geb_spec p s), (Z.gtb_spec (p + w) s), (Z.leb_spec (p + w) s);
    simpl; try reflexivity; lia.
Qed.

Lemma or_byte_eq (prom conv : Z -> Z) (k temp : Z) :
  0 <= k <= 3 -> p + k < s ->
  or_byte prom conv b k temp =
  conv (Z.lor temp (prom (Z.shiftl (byte_at b (p + k)) (8 * k)))).
Proof.
  intros Hk Hlt. unfold or_byte. fold p s.
  rewrite wrap_size_in_store by lia.
  destruct (Z.ltb_spec (p + k) s); [reflexivity | lia].
Qed.

(** The bytes the reads look at, as the slice of the store. *)
Lemma slice1 : p + 1 <= s -> le_uint (slice d p 1) = byte_at b p.
Proof.
  intros H. pose proof buffer_ok_bounds.
  rewrite (slice_cons x00) by lia.
  change (slice d (p + 1) (1 - 1)) with (@nil byte).
  cbn [le_uint]. unfold byte_at. fold d. lia.
Qed.

Lemma slice2 :
  p + 2 <= s -> le_uint (slice d p 2) = byte_at b p + byte_at b (p + 1) * 2 ^ 8.
Proof.
  intros H. pose proof buffer_ok_bounds.
  rewrite (slice_cons x00) by lia. rewrite (slice_cons x00) by lia.
  change (slice d (p + 1 + 1) (2 - 1 - 1)) with (@nil byte).
  cbn [le_uint]. unfold byte_at. fold d. lia.
Qed.

Lemma slice4 :
  p + 4 <= s ->
  le_uint (slice d p 4) =
  byte_at b p + byte_at b (p + 1) * 2 ^ 8 + byte_at b (p + 2) * 2 ^ 16
  + byte_at b (p + 3) * 2 ^ 24.
Proof.
  intros H. pose proof buffer_ok_bounds.
  rewrite (slice_cons x00) by lia. rewrite (slice_cons x00) by lia.
  rewrite (slice_cons x00) by lia. rewrite (slice_cons x00) by lia.
  change (slice d (p + 1 + 1 + 1 + 1) (4 - 1 - 1 - 1 - 1)) with (@nil byte).
  cbn [le_uint]. unfold byte_at. fold d.
  replace (p + 1 + 1 + 1) with (p + 3) by lia. replace (p + 1 + 1) with (p + 2) by lia.
  lia.
Qed.

Lemma readUint8_ok :
  p + 1 <= s -> readUint8 b = ((true, le_uint (slice d p 1)), with_position b (p + 1)).
Proof.
  intros H. pose proof buffer_ok_bounds. unfold readUint8, advance. fold p s.
  destruct (Z.geb_spec p s); [lia|].
  rewrite wrap_size_in_store, slice1 by lia. reflexivity.
Qed.

Lemma readUint8_fail : s < p + 1 -> readUint8 b = ((false, 0), b).
Proof.
  intros H. unfold readUint8. fold p s. destruct (Z.geb_spec p s); [reflexivity | lia].
Qed.

Lemma readInt8_ok :
  p + 1 <= s ->
  readInt8 b = ((true, to_int8 (le_uint (slice d p 1))), with_position b (p + 1)).
Proof.
  intros H. pose proof buffer_ok_bounds. unfold readInt8, advance. fold p s.
  destruct (Z.geb_spec p s); [lia|].
  rewrite wrap_size_in_store, slice1 by lia. reflexivity.
Qed.

Lemma readInt8_fail : s < p + 1 -> readInt8 b = ((false, 0), b).
Proof.
  intros H. unfold readInt8. fold p s. destruct (Z.geb_spec p s); [reflexivity | lia].
Qed.

Lemma fail_of_out_of_bounds (w : Z) :
  0 < w <= 2 ^ 31 -> s < p + w -> out_of_bounds b w = true.
Proof.
  intros Hw H. rewrite out_of_bounds_eq by assumption.
  destruct (Z.leb_spec (p + w) s); [lia | reflexivity].
Qed.

Lemma pass_of_in_bounds (w : Z) :
  0 < w <= 2 ^ 31 -> p + w <= s -> out_of_bounds b w = false.
Proof.
  intros Hw H. rewrite out_of_bounds_eq by assumption.
  destruct (Z.leb_spec (p + w) s); [reflexivity | lia].
Qed.

Lemma readUint16_ok :
  p + 2 <= s -> readUint16 b = ((true, le_uint (slice d p 2)), with_position b (p + 2)).
Proof.
  intros H. pose proof (byte_at_range b p). pose proof (byte_at_range b (p + 1)).
  unfold readUint16, advance. rewrite pass_of_in_bounds by lia. fold p.
  rewrite wrap_size_in_store, slice2 by lia.
  rewrite !or_byte_eq by lia. replace (p + 0) with p by lia.
  rewrite (or_step_small to_int32 to_uint16 (2 ^ 15) 0 _ 0);
    try lia; try (intros; first [apply to_int32_small | apply to_uint16_small]; lia).
  rewrite (or_step_small to_int32 to_uint16 (2 ^ 16) _ _ 1);
    try lia; try (intros; first [apply to_uint16_small; lia]).
  - repeat f_equal. lia.
  - (* promotion to [int] *)
    intros z Hz. apply to_int32_small. lia.
Qed.

Lemma readUint16_fail : s < p + 2 -> readUint16 b = ((false, 0), b).
Proof.
  intros H. unfold readUint16. rewrite fail_of_out_of_bounds by lia. reflexivity.
Qed.

Lemma readInt16_ok :
  p + 2 <= s ->
  readInt16 b = ((true, to_int16 (le_uint (slice d p 2))), with_position b (p + 2)).
Proof.
  intros H. pose proof (byte_at_range b p). pose proof (byte_at_range b (p + 1)).
  unfold readInt16, advance. rewrite pass_of_in_bounds by lia. fold p.
  rewrite wrap_size_in_store, slice2 by lia.
  rewrite !or_byte_eq by lia. replace (p + 0) with p by lia.
  rewrite (or_step_small to_int32 to_int16 (2 ^ 15) 0 _ 0);
    try lia; try (intros; first [apply to_int32_small | apply to_int16_small]; lia).
  rewrite (or_step_small to_int32 (fun z => z) (2 ^ 16) _ _ 1); try lia.
  - repeat f_equal. lia.
  - intros z Hz. apply to_int32_small. lia.
Qed.

Lemma readInt16_fail : s < p + 2 -> readInt16 b = ((false, 0), b).
Proof.
  intros H. unfold readInt16. rewrite fail_of_out_of_bounds by lia. reflexivity.
Qed.

Lemma or_chain_uint32 :
  p + 4 <= s ->
  or_byte to_uint32 to_uint32 b 3 (or_byte to_uint32 to_uint32 b 2
    (or_byte to_uint32 to_uint32 b 1 (or_byte to_uint32 to_uint32 b 0 0)))
  = le_uint (slice d p 4).
Proof.
  intros H. pose proof (byte_at_range b p). pose proof (byte_at_range b (p + 1)).
  pose proof (byte_at_range b (p + 2)). pose proof (byte_at_range b (p + 3)).
  rewrite slice4 by lia.
  rewrite !or_byte_eq by lia. replace (p + 0) with p by lia.
  rewrite (or_step_small to_uint32 to_uint32 (2 ^ 32) 0 _ 0);
    try lia; try (intros; apply to_uint32_small; lia).
  rewrite (or_step_small to_uint32 to_uint32 (2 ^ 32) _ _ 1);
    try lia; try (intros; apply to_uint32_small; lia).
  rewrite (or_step_small to_uint32 to_uint32 (2 ^ 32) _ _ 2);
    try lia; try (intros; apply to_uint32_small; lia).
  rewrite (or_step_small to_uint32 to_uint32 (2 ^ 32) _ _ 3);
    try lia; try (intros; apply to_uint32_small; lia).
Qed.

Lemma readUint32_ok :
  p + 4 <= s -> readUint32 b = ((true, le_uint (slice d p 4)), with_position b (p + 4)).
Proof.
  intros H. unfold readUint32, advance. rewrite pass_of_in_bounds by lia. fold p.
  rewrite wrap_size_in_store, or_chain_uint32 by lia. reflexivity.
Qed.

Lemma readUint32_fail : s < p + 4 -> readUint32 b = ((false, 0), b).
Proof.
  intros H. unfold readUint32. rewrite fail_of_out_of_bounds by lia. reflexivity.
Qed.

Lemma readFloat_ok :
  p + 4 <= s ->
  readFloat b = ((true, F32 (le_uint (slice d p 4))), with_position b (p + 4)).
Proof.
  intros H. unfold readFloat, advance. rewrite pass_of_in_bounds by lia. fold p.
  rewrite wrap_size_in_store, or_chain_uint32 by lia. reflexivity.
Qed.

Lemma readFloat_fail : s < p + 4 -> readFloat b = ((false, fzero), b).
Proof.
  intros H. unfold readFloat. rewrite fail_of_out_of_bounds by lia. reflexivity.
Qed.

Lemma readInt32_ok :
  p + 4 <= s ->
  readInt32 b = ((true, to_int32 (le_uint (slice d p 4))), with_position b (p + 4)).
Proof.
  intros H. pose proof (byte_at_range b p). pose proof (byte_at_range b (p + 1)).
  pose proof (byte_at_range b (p + 2)). pose proof (byte_at_range b (p + 3)).
  unfold readInt32, advance. rewrite pass_of_in_bounds by lia. fold p.
  rewrite wrap_size_in_store, slice4 by lia.
  rewrite !or_byte_eq by lia. replace (p + 0) with p by lia.
  rewrite (or_step_small to_int32 to_int32 (2 ^ 31) 0 _ 0);
    try lia; try (intros; apply to_int32_small; lia).
  rewrite (or_step_small to_int32 to_int32 (2 ^ 31) _ _ 1);
    try lia; try (intros; apply to_int32_small; lia).
  rewrite (or_step_small to_int32 to_int32 (2 ^ 31) _ _ 2);
    try lia; try (intros; apply to_int32_small; lia).
  change (8 * 3) with 24. rewrite lor_top_byte_int32 by lia.
  repeat f_equal. lia.
Qed.

Lemma readInt32_fail : s < p + 4 -> readInt32 b = ((false, 0), b).
Proof.
  intros H. unfold readInt32. rewrite fail_of_out_of_bounds by lia. reflexivity.
Qed.
End ClosedForms.

(** ** Typed reads *)

Lemma read_spec_intro {A} (w : Z) (interp : list byte -> A) (zero : A)
    (rd : Cur (bool * A)) (b : BytesBuffer) :
  (_position b + w <= _size b ->
     rd b = ((true, interp (slice (_fixed_data b) (_position b) w)),
             with_position b (_position b + w))) ->
  (_size b < _position b + w -> rd b = ((false, zero), b)) ->
  read_spec w interp zero rd b.
Proof.
  intros Hin Hout. unfold read_spec.
  destruct (Z.le_gt_cases (_position b + w) (_size b)) as [H|H].
  - rewrite (Hin H). cbn [fst snd]. repeat split; auto; intros; try discriminate.
  - rewrite (Hout ltac:(lia)). cbn [fst snd]. repeat split; auto; intros; try discriminate; lia.
Qed.

Lemma readUint8_meets_spec (b : BytesBuffer) :
  buffer_ok b -> read_spec 1 le_uint 0 readUint8 b.
Proof.
  intros Hok. apply read_spec_intro; [apply readUint8_ok | apply readUint8_fail]; assumption.
Qed.

Lemma readUint16_meets_spec (b : BytesBuffer) :
  buffer_ok b -> read_spec 2 le_uint 0 readUint16 b.
Proof.
  intros Hok. apply read_spec_intro; [apply readUint16_ok | apply readUint16_fail]; assumption.
Qed.

Lemma readUint32_meets_spec (b : BytesBuffer) :
  buffer_ok b -> read_spec 4 le_uint 0 readUint32 b.
Proof.
  intros Hok. apply read_spec_intro; [apply readUint32_ok | apply readUint32_fail]; assumption.
Qed.

Lemma readInt8_meets_spec (b : BytesBuffer) :
  buffer_ok b -> read_spec 1 (fun bs => to_int8 (le_uint bs)) 0 readInt8 b.
Proof.
  intros Hok. apply read_spec_intro; [apply readInt8_ok | apply readInt8_fail]; assumption.
Qed.

Lemma readInt16_meets_spec (b : BytesBuffer) :
  buffer_ok b -> read_spec 2 (fun bs => to_int16 (le_uint bs)) 0 readInt16 b.
Proof.
  intros Hok. apply read_spec_intro; [apply readInt16_ok | apply readInt16_fail]; assumption.
Qed.

Lemma readInt32_meets_spec (b : BytesBuffer) :
  buffer_ok b -> read_spec 4 (fun bs => to_int32 (le_uint bs)) 0 readInt32 b.
Proof.
  intros Hok. apply read_spec_intro; [apply readInt32_ok | apply readInt32_fail]; assumption.
Qed.

Lemma readFloat_meets_spec (b : BytesBuffer) :
  buffer_ok b -> read_spec 4 (fun bs => F32 (le_uint bs)) fzero readFloat b.
Proof.
  intros Hok. apply read_spec_intro; [apply readFloat_ok | apply readFloat_fail]; assumption.
Qed.

(** C3 (amended). For every buffer that satisfies the class invariant
    (position <= size <= capacity) and every typed
    read of width [w] at position [p]: the read returns true iff
    [p + w <= size]; when it returns false the buffer (hence the position) is
    unchanged and the output is zero ([0] or [0.0f]); when it returns true the
    output is the little-endian reading of the bytes [[p, p+w)] (unsigned,
    two's complement, or as the bit pattern of a float) and only the position
    changes, to [p + w]. *)
Theorem typed_reads_spec (b : BytesBuffer) :
  buffer_ok b ->
  read_spec 1 le_uint 0 readUint8 b /\
  read_spec 2 le_uint 0 readUint16 b /\
  read_spec 4 le_uint 0 readUint32 b /\
  read_spec 1 (fun bs => to_int8 (le_uint bs)) 0 readInt8 b /\
  read_spec 2 (fun bs => to_int16 (le_uint bs)) 0 readInt16 b /\
  read_spec 4 (fun bs => to_int32 (le_uint bs)) 0 readInt32 b /\
  read_spec 4 (fun bs => F32 (le_uint bs)) fzero readFloat b.
Proof.
  intros Hok. split; [|split; [|split; [|split; [|split; [|split]]]]].
  - apply readUint8_meets_spec, Hok.
  - apply readUint16_meets_spec, Hok.
  - apply readUint32_meets_spec, Hok.
  - apply readInt8_meets_spec, Hok.
  - apply readInt16_meets_spec, Hok.
  - apply readInt32_meets_spec, Hok.
  - apply readFloat_meets_spec, Hok.
Qed.

Lemma typed_reads_spec_witness :
  let b := BytesBuffer_of _shared_buffer0 [x04; x03; x02; x01; xff] in
  read_spec 4 le_uint 0 readUint32 b /\ fst (readUint32 b) = (true, 0x01020304).
Proof.
  intros b. split.
  - apply (typed_reads_spec b). unfold buffer_ok. vm_compute. intuition discriminate.
  - vm_compute. reflexivity.
Defined.

(** C3, counterexample.  Without the class invariant the claim fails:
    [setSize(2^32 - 1)] followed by [setPosition(2^32 - 2)] leaves a cursor
    with two bytes to go, on which [readUint32] finds [position + 4] wrapped
    around to 2, returns true and sets the position to 2. *)
Lemma typed_read_true_beyond_size :
  let b := snd (setPosition (2 ^ 32 - 2)
                  (snd (setSize (2 ^ 32 - 1) (BytesBuffer_new _shared_buffer0)))) in
  _position b = 2 ^ 32 - 2 /\ _size b = 2 ^ 32 - 1 /\
  fst (fst (readUint32 b)) = true /\
  _position (snd (readUint32 b)) = 2 /\
  ~ (_position b + 4 <= _size b) /\
  ~ read_spec 4 le_uint 0 readUint32 b.
Proof.
  intros b.
  assert (Hp : _position b = 2 ^ 32 - 2) by (vm_compute; reflexivity).
  assert (Hs : _size b = 2 ^ 32 - 1) by (vm_compute; reflexivity).
  assert (Hok : fst (fst (readUint32 b)) = true) by (lazy; reflexivity).
  assert (Hafter : _position (snd (readUint32 b)) = 2) by (lazy; reflexivity).
  repeat (split; [assumption|]).
  split; [rewrite Hp, Hs; lia|].
  intros (Hiff & _). apply Hiff in Hok. rewrite Hp, Hs in Hok. lia.
Qed.

(** ** Spectrum interface *)

Lemma Spectrum_apply_bounded (sp : Spectrum) (o : SpectrumOp) :
  0 <= count_size sp <= MAX_CHANNELS -> op_valid o ->
  0 <= count_size (Spectrum_apply sp o) <= MAX_CHANNELS.
Proof.
  intros Hsp Ho. unfold MAX_CHANNELS in *. destruct o as [|v|other]; simpl.
  - lia.
  - unfold Spectrum_push_back. unfold MAX_CHANNELS.
    destruct (Z.ltb_spec (count_size sp) 1024); [|assumption].
    simpl. rewrite to_uint32_small by lia. lia.
  - simpl in Ho. unfold MAX_CHANNELS.
    destruct (Z.gtb_spec (count_size other) 1024); lia.
Qed.

(** C10. The vector-like interface of [Spectrum] is total and bounds-safe:
    [at(i)] is [counts[i]] when [i < count_size] and 0 for every other
    index; [push_back] on a full spectrum leaves it unchanged; a fresh
    spectrum is empty and [count_size <= MAX_CHANNELS] holds after every
    operation. *)
Theorem Spectrum_interface_safe :
  (forall sp i,
     (i < count_size sp -> Spectrum_at sp i = load 0 (counts sp) i) /\
     (count_size sp <= i -> Spectrum_at sp i = 0)) /\
  (forall sp v, count_size sp = MAX_CHANNELS -> Spectrum_push_back sp v = sp) /\
  (forall shared, count_size (Spectrum_new shared) = 0) /\
  (forall sp ops,
     0 <= count_size sp <= MAX_CHANNELS -> Forall op_valid ops ->
     0 <= count_size (fold_left Spectrum_apply ops sp) <= MAX_CHANNELS).
Proof.
  split; [|split; [|split]].
  - intros sp i. unfold Spectrum_at. split; intros H.
    + destruct (Z.ltb_spec i (count_size sp)); [reflexivity | lia].
    + destruct (Z.ltb_spec i (count_size sp)); [lia | reflexivity].
  - intros sp v H. unfold Spectrum_push_back. rewrite H.
    rewrite Z.ltb_irrefl. reflexivity.
  - reflexivity.
  - intros sp ops. revert sp. induction ops as [|o ops IH]; intros sp Hsp Hops.
    + exact Hsp.
    + simpl. inversion Hops as [|? ? Ho Hrest]; subst.
      apply IH; [apply Spectrum_apply_bounded|]; assumption.
Qed.

Lemma Spectrum_interface_safe_witness :
  let full := fold_left Spectrum_apply
                (map OpPushBack (repeat 7 (Z.to_nat MAX_CHANNELS)))
                (Spectrum_new shared_counts0) in
  0 <= count_size (fold_left Spectrum_apply [OpPushBack 9; OpClear; OpPushBack 1] full)
    <= MAX_CHANNELS.
Proof.
  intros full.
  apply (proj2 (proj2 (proj2 Spectrum_interface_safe))).
  - vm_compute. split; discriminate.
  - repeat constructor.
Defined.

(** ** Sequence numbers *)

Lemma execute_connected (link : list (list byte) -> list byte) (rc : RadiaCode)
    (shared : list byte) (reqtype : Z) (sent_before : list (list byte))
    (payload : list byte) :
  _connection rc = Some sent_before -> 0 <= _seq rc < 32 ->
  exists request,
    _connection (fst (execute link rc shared reqtype payload)) = Some (request :: sent_before) /\
    seq_byte_of request = 0x80 + _seq rc /\
    _seq (fst (execute link rc shared reqtype payload)) = (_seq rc + 1) mod 32.
Proof.
  intros Hc Hs. unfold execute. rewrite Hc.
  match goal with
  | |- context [readBytes 4 ?r] => destruct (readBytes 4 r) as [hdr resp]
  end.
  eexists. cbn [fst _connection _seq]. split; [reflexivity|]. split.
  - unfold seq_byte_of, load, full_request_of, le32_bytes.
    change (Z.to_nat 7) with 7%nat. cbn [app nth].
    rewrite u8_byte_of. unfold to_uint8.
    rewrite Z.mod_mod by discriminate. apply Z.mod_small. lia.
  - unfold to_uint8. apply Z.mod_small.
    pose proof (Z.mod_pos_bound (_seq rc + 1) 32 ltac:(lia)). lia.
Qed.

Lemma execute_all_requests (link : list (list byte) -> list byte)
    (cmds : list (Z * list byte)) :
  forall (rc : RadiaCode) (shared : list byte) (sent : list (list byte)),
    _connection rc = Some sent -> 0 <= _seq rc < 32 ->
    exists new,
      requests_of (execute_all link rc shared cmds) = rev sent ++ new /\
      forall k, (k < List.length cmds)%nat ->
        seq_byte_of (nth k new []) = 0x80 + (_seq rc + Z.of_nat k) mod 32.
Proof.
  induction cmds as [|[reqtype args] rest IH]; intros rc shared sent Hc Hs.
  - exists []. split.
    + simpl. unfold requests_of. rewrite Hc, app_nil_r. reflexivity.
    + intros k Hk. simpl in Hk. lia.
  - destruct (execute_connected link rc shared reqtype sent args Hc Hs)
      as (request & Hc' & Hbyte & Hseq).
    cbn [execute_all].
    destruct (execute link rc shared reqtype args) as [rc' r].
    cbn [fst] in Hc', Hseq.
    assert (Hs' : 0 <= _seq rc' < 32).
    { rewrite Hseq. apply Z.mod_pos_bound. lia. }
    destruct (IH rc' (_fixed_data r) (request :: sent) Hc' Hs') as (new & Hreq & Hnew).
    exists (request :: new). split.
    + rewrite Hreq. cbn [rev]. rewrite <- app_assoc. reflexivity.
    + intros [|k] Hk.
      * cbn [nth]. rewrite Hbyte, Z.add_0_r, Z.mod_small by lia. reflexivity.
      * cbn [nth]. cbn [List.length] in Hk. rewrite Hnew by lia.
        rewrite Hseq, Z.add_mod_idemp_l by lia.
        do 2 f_equal. lia.
Qed.

(** C9. On a session with a live connection, the k-th call of [execute]
    (counting from 0 at the construction of the session) puts
    [0x80 + (k mod 32)] in the sequence byte of the request header: the
    bytes run 0x80, 0x81, ..., 0x9F and wrap back to 0x80. *)
Theorem sequence_numbers_cycle (link : list (list byte) -> list byte)
    (shared : list byte) (cmds : list (Z * list byte)) (k : nat) :
  (k < List.length cmds)%nat ->
  seq_byte_of (nth k (requests_of (execute_all link RadiaCode_connected shared cmds)) [])
  = 0x80 + Z.of_nat k mod 32.
Proof.
  intros Hk.
  destruct (execute_all_requests link cmds RadiaCode_connected shared [] eq_refl)
    as (new & Hreq & Hnew).
  { simpl. lia. }
  rewrite Hreq. cbn [rev app]. rewrite Hnew by assumption. reflexivity.
Qed.

Lemma sequence_numbers_cycle_witness :
  let cmds := repeat (RD_VIRT_STRING, [x02; x00; x00; x00]) 34 in
  seq_byte_of (nth 33 (requests_of
     (execute_all (fun _ => []) RadiaCode_connected _shared_buffer0 cmds)) [])
  = 0x81.
Proof.
  intros cmds.
  apply (sequence_numbers_cycle (fun _ => []) _shared_buffer0 cmds 33).
  vm_compute. reflexivity.
Defined.

(** ** Spectrum format 1 *)

(** C6. Decoding the run header [u16 = (3 << 4) | 2] (three entries, code 2:
    int8 delta) followed by the int8 values 5, -2, 10, with the accumulator
    [last] starting at 0, leaves exactly the counts [5; 3; 13] in the
    spectrum, whatever it held before, and consumes the whole run. *)
Theorem decodeCountsV1_delta_run (sp : Spectrum) :
  (3 <= List.length (counts sp))%nat ->
  let br := BytesBuffer_of _shared_buffer0 [x32; x00; x05; xfe; x0a] in
  exists sp' br',
    decodeCountsV1 br sp = Some (sp', br') /\
    Spectrum_contents sp' = [5; 3; 13] /\
    count_size sp' = 3 /\
    fst (available br') = 0.
Proof.
  intros Hlen br.
  destruct sp as [d f0 f1 f2 cs n].
  destruct cs as [|c0 [|c1 [|c2 rest]]]; simpl in Hlen; try lia.
  eexists. eexists. split.
  - vm_compute. reflexivity.
  - vm_compute. repeat split; reflexivity.
Qed.

Lemma decodeCountsV1_delta_run_witness :
  exists sp' br',
    decodeCountsV1 (BytesBuffer_of _shared_buffer0 [x32; x00; x05; xfe; x0a])
                   (Spectrum_new shared_counts0) = Some (sp', br') /\
    Spectrum_contents sp' = [5; 3; 13] /\
    count_size sp' = 3 /\
    fst (available br') = 0.
Proof.
  apply (decodeCountsV1_delta_run (Spectrum_new shared_counts0)).
  vm_compute. lia.
Defined.

(** ** Register batch *)

Lemma expected_flags_small (shift_undefined : Z -> Z) (n : Z) :
  0 <= n <= 30 -> expected_flags shift_undefined n = 2 ^ n - 1.
Proof.
  intros Hn. unfold expected_flags.
  destruct (Z.leb_spec n 30) as [_|Hbad]; [|lia].
  rewrite Z.shiftl_mul_pow2, Z.mul_1_l by lia.
  assert (H1 : 0 < 2 ^ n) by (apply Z.pow_pos_nonneg; lia).
  assert (H2 : 2 ^ n <= 2 ^ 30) by (apply Z.pow_le_mono_r; lia).
  rewrite to_int32_small by lia. apply to_uint32_small. lia.
Qed.

(** C8 (amended). For every request of N register ids with 1 <= N <= 30,
    the range in which [(1 << N) - 1] has a value: when the validity bitmask
    read at the start of the response differs from 2^N - 1,
    [batchReadVSFRs] returns an empty vector, whatever raw values follow it
    in the response.  (The witness is the case of 3 ids answered with the
    bitmask 0b011.) *)
Theorem batchReadVSFRs_rejects_bitmask (link : list (list byte) -> list byte)
    (float_of_uint : Z -> float32) (shift_undefined : Z -> Z) (rc : RadiaCode)
    (shared : list byte) (vsfr_ids : list Z) :
  let N := Z.of_nat (List.length vsfr_ids) in
  let msg := le32_bytes (to_uint32 N) ++ flat_map le32_bytes vsfr_ids in
  let response := snd (execute link rc shared RD_VIRT_SFR_BATCH msg) in
  let valid_flags := snd (fst (readUint32 response)) in
  1 <= N <= 30 ->
  valid_flags <> 2 ^ N - 1 ->
  snd (fst (batchReadVSFRs link float_of_uint shift_undefined rc shared vsfr_ids)) = [].
Proof.
  intros N msg response valid_flags HN Hne.
  unfold batchReadVSFRs. fold N.
  destruct (Z.eqb_spec N 0) as [E|_]; [lia|].
  fold msg. subst valid_flags response.
  destruct (execute link rc shared RD_VIRT_SFR_BATCH msg) as [rc1 r].
  cbn [snd] in Hne.
  destruct (readUint32 r) as [[ok vf] r1]. cbn [fst snd] in Hne.
  rewrite (expected_flags_small shift_undefined N) by lia.
  destruct (Z.eqb_spec vf (2 ^ N - 1)) as [E|_]; [contradiction|].
  reflexivity.
Qed.

Lemma batchReadVSFRs_rejects_bitmask_witness :
  let link := fun _ : list (list byte) =>
    [x2a; x08; x00; x80;  x03; x00; x00; x00;
     x01; x00; x00; x00;  x01; x00; x00; x00;  x00; x00; xc8; x41] in
  snd (fst (batchReadVSFRs link (fun _ => fzero) (fun _ => 0) RadiaCode_connected
              _shared_buffer0 [DS_UNITS; CR_UNITS; TEMP_degC])) = [].
Proof.
  intros link.
  apply (batchReadVSFRs_rejects_bitmask link (fun _ => fzero) (fun _ => 0)
           RadiaCode_connected _shared_buffer0 [DS_UNITS; CR_UNITS; TEMP_degC]).
  - vm_compute. split; discriminate.
  - vm_compute. discriminate.
Defined.

(** C8, counterexample.  The claim fails beyond 30 ids, where
    [(1 << N) - 1] is evaluated outside the range of [int].  With a shift that takes its count modulo
    32, as 32-bit shift instructions commonly do, the expected bitmask for 32
    ids is 0: a device that does not answer at all leaves the bitmask read
    at 0, which is not [(1 << 32) - 1 = 0xFFFFFFFF], and [batchReadVSFRs]
    still returns 32 values instead of an empty vector. *)
Lemma batchReadVSFRs_unanswered_32_ids_not_empty :
  let link := fun _ : list (list byte) => @nil byte in
  let shift_masked := fun n => to_int32 (Z.shiftl 1 (n mod 32)) - 1 in
  let vsfr_ids := repeat DEVICE_CTRL 32 in
  let N := Z.of_nat (List.length vsfr_ids) in
  let msg := le32_bytes (to_uint32 N) ++ flat_map le32_bytes vsfr_ids in
  let response := snd (execute link RadiaCode_connected _shared_buffer0
                               RD_VIRT_SFR_BATCH msg) in
  let valid_flags := snd (fst (readUint32 response)) in
  N = 32 /\ valid_flags <> 2 ^ N - 1 /\
  List.length (snd (fst (batchReadVSFRs link (fun _ => fzero) shift_masked
                           RadiaCode_connected _shared_buffer0 vsfr_ids))) = 32%nat.
Proof.
  vm_compute. split; [reflexivity|]. split; [discriminate | reflexivity].
Qed.

(** ** The store keeps its extent *)

Lemma overwrite_length {A} (src d : list A) :
  List.length (overwrite src d) = List.length d.
Proof.
  revert d. induction src as [|x src IH]; intros [|y d]; simpl; auto.
Qed.

Lemma memcpy_at_length {A} (d : list A) (off : nat) (src : list A) :
  List.length (memcpy_at d off src) = List.length d.
Proof.
  revert d. induction off as [|k IH]; intros d.
  - destruct d; apply overwrite_length.
  - destruct d as [|x d]; simpl; auto.
Qed.

Lemma memcpy_length {A} (d : list A) (off : Z) (src : list A) :
  List.length (memcpy d off src) = List.length d.
Proof. apply memcpy_at_length. Qed.

Lemma memset_zero_length (d : list byte) (n : Z) :
  List.length (memset_zero d n) = List.length d.
Proof. apply memcpy_length. Qed.

Lemma buffer_ok_new (shared : list byte) :
  Z.of_nat (List.length shared) = MAX_BUFFER_SIZE -> buffer_ok (BytesBuffer_new shared).
Proof.
  intros H. unfold buffer_ok, BytesBuffer_new. cbn [_position _size _capacity _fixed_data].
  rewrite memset_zero_length. unfold MAX_BUFFER_SIZE in *. lia.
Qed.

Lemma buffer_ok_of (shared data : list byte) :
  Z.of_nat (List.length shared) = MAX_BUFFER_SIZE -> buffer_ok (BytesBuffer_of shared data).
Proof.
  intros H. unfold BytesBuffer_of.
  destruct (Z.eqb_spec (Z.of_nat (List.length data)) 0).
  - apply buffer_ok_new. assumption.
  - unfold buffer_ok. cbn [_position _size _capacity _fixed_data].
    rewrite memcpy_length, memset_zero_length. unfold MAX_BUFFER_SIZE in *.
    destruct (Z.gtb_spec (Z.of_nat (List.length data)) 4096); lia.
Qed.

Lemma BytesBuffer_of_size (shared data : list byte) :
  _size (BytesBuffer_of shared data) = Z.min (Z.of_nat (List.length data)) MAX_BUFFER_SIZE.
Proof.
  unfold BytesBuffer_of, MAX_BUFFER_SIZE.
  destruct (Z.eqb_spec (Z.of_nat (List.length data)) 0); cbn [_size]; [lia|].
  destruct (Z.gtb_spec (Z.of_nat (List.length data)) 4096); lia.
Qed.

(** [readBytes] moves the position by what it copies and touches nothing
    else. *)
Lemma readBytes_shape (b : BytesBuffer) (n : Z) :
  buffer_ok b -> 0 <= n ->
  snd (readBytes n b) = with_position b (_position b + Z.min n (_size b - _position b)).
Proof.
  intros (Hp & Hs & Hc & Hl) Hn. unfold MAX_BUFFER_SIZE in *. unfold readBytes.
  unfold wrap_size. rewrite (to_uint32_small (_size b - _position b)) by lia.
  destruct (Z.gtb_spec (Z.min n (_size b - _position b)) 0) as [Hgt|Hle]; cbn [snd].
  - rewrite to_uint32_small by lia. reflexivity.
  - replace (Z.min n (_size b - _position b)) with 0 by lia.
    rewrite Z.add_0_r. destruct b; reflexivity.
Qed.

(** What [RadiaCode::execute] hands back: a well-formed cursor standing
    after the (at most four) bytes of the echoed header. *)
Lemma execute_response (link : list (list byte) -> list byte) (rc : RadiaCode)
    (shared : list byte) (reqtype : Z) (args : list byte) :
  Z.of_nat (List.length shared) = MAX_BUFFER_SIZE ->
  let r := snd (execute link rc shared reqtype args) in
  buffer_ok r /\ _position r = Z.min 4 (_size r).
Proof.
  intros Hsh r. subst r. unfold execute.
  destruct (_connection rc) as [sent|]; cbn [snd].
  - match goal with
    | |- context [BytesBuffer_of shared ?pl] =>
      pose proof (buffer_ok_of shared pl Hsh) as Hok;
      set (resp := BytesBuffer_of shared pl) in *
    end.
    pose proof (readBytes_shape resp 4 Hok ltac:(lia)) as Hrd.
    destruct (readBytes 4 resp) as [hdr resp']. cbn [snd] in *. subst resp'.
    destruct Hok as (Hp & Hs & Hc & Hl).
    assert (Hp0 : _position resp = 0).
    { subst resp. unfold BytesBuffer_of.
      destruct (Z.of_nat (List.length _) =? 0); reflexivity. }
    unfold buffer_ok, with_position. cbn [_position _size _capacity _fixed_data].
    rewrite Hp0 in *. unfold MAX_BUFFER_SIZE in *. lia.
  - split; [apply buffer_ok_new; assumption | reflexivity].
Qed.

(** ** Virtual-string reads *)

Lemma buffer_ok_with_position (b : BytesBuffer) (q : Z) :
  buffer_ok b -> 0 <= q <= _size b -> buffer_ok (with_position b q).
Proof.
  intros (Hp & Hs & Hc & Hl) Hq. unfold buffer_ok, with_position.
  cbn [_position _size _capacity _fixed_data]. auto.
Qed.

(** C4 (amended). [readRequest] returns an empty buffer when the response
    holds fewer than 8 bytes or its inner header cannot be read (fewer than
    12 bytes with the echoed command header).  Otherwise, whatever the
    retcode, it returns the response itself: same bytes, the size unchanged
    or shortened by one, and the cursor at offset 12, the start of the data
    (stated for a response that carries data after the inner header or
    declares a length other than 0xFFFFFFFF). *)
Theorem readRequest_header_validation (link : list (list byte) -> list byte)
    (rc : RadiaCode) (shared : list byte) (command_id : Z) (last_byte0 : byte) :
  Z.of_nat (List.length shared) = MAX_BUFFER_SIZE ->
  let r := snd (execute link rc shared RD_VIRT_STRING (le32_bytes command_id)) in
  let out := snd (readRequest link rc shared command_id last_byte0) in
  (_size r < 12 -> out = BytesBuffer_new (_fixed_data r)) /\
  (12 <= _size r ->
     _fixed_data out = _fixed_data r /\
     (_size out = _size r \/ _size out = _size r - 1) /\
     (12 < _size r \/ le_uint (slice (_fixed_data r) 8 4) <> 2 ^ 32 - 1 ->
      _position out = 12)).
Proof.
  intros Hsh r out.
  destruct (execute_response link rc shared RD_VIRT_STRING (le32_bytes command_id) Hsh)
    as (Hok & Hpos).
  fold r in Hok, Hpos. subst out. unfold readRequest.
  destruct (execute link rc shared RD_VIRT_STRING (le32_bytes command_id)) as [rc1 r0].
  cbn [snd] in r. subst r.
  pose proof Hok as (Hp & Hs & Hc & Hl). unfold MAX_BUFFER_SIZE in *.
  destruct (Z.ltb_spec (_size r0) 8) as [Hlt8|Hge8].
  { cbn [snd]. split; [reflexivity | lia]. }
  assert (Hp4 : _position r0 = 4) by lia.
  rewrite (readUint32_ok r0 Hok) by lia. rewrite Hp4.
  assert (Hok1 : buffer_ok (with_position r0 (4 + 4))).
  { apply buffer_ok_with_position; [assumption | lia]. }
  destruct (Z.lt_ge_cases (_size r0) 12) as [Hlt12|Hge12].
  - rewrite (readUint32_fail _ Hok1) by (cbn [_position _size with_position]; lia).
    cbn [andb negb snd]. split; [reflexivity | lia].
  - rewrite (readUint32_ok _ Hok1) by (cbn [_position _size with_position]; lia).
    cbn [andb negb _position _size _fixed_data with_position].
    change (4 + 4 + 4) with 12. change (4 + 4) with 8.
    set (flen := le_uint (slice (_fixed_data r0) 8 4)).
    set (r2 := with_position (with_position r0 8) 12).
    assert (Havail : fst (available r2) = _size r0 - 12).
    { unfold available, r2. cbn [fst _size _position with_position].
      apply to_uint32_small. lia. }
    rewrite Havail. split; [lia|].
    destruct (Z.eqb_spec (_size r0 - 12) (to_uint32 (flen + 1))) as [Hq|Hq].
    2:{ cbn [snd]. unfold r2. cbn [_fixed_data _size _position with_position]. auto. }
    match goal with
    | |- context [if u8 ?lb =? 0 then _ else _] => destruct (u8 lb =? 0)
    end.
    2:{ cbn [snd]. unfold r2. cbn [_fixed_data _size _position with_position]. auto. }
    cbn [snd]. unfold r2 at 1 2 3. cbn [_position with_position].
    unfold wrap_size. rewrite (to_uint32_small (12 + (_size r0 - 12))) by lia.
    rewrite (to_uint32_small (12 + (_size r0 - 12) - 1)) by lia.
    replace (12 + (_size r0 - 12) - 1) with (_size r0 - 1) by lia.
    unfold setSize, r2. cbn [snd _capacity _size _position _fixed_data with_position with_size].
    destruct (Z.gtb_spec (_size r0 - 1) (_capacity r0)) as [Hbad|_]; [lia|].
    cbn [_capacity _size _position _fixed_data with_position with_size].
    destruct (Z.gtb_spec 12 (_size r0 - 1)) as [H12|H12];
      cbn [_capacity _size _position _fixed_data with_position with_size].
    + split; [reflexivity|]. split; [right; reflexivity|].
      intros [Hgt|Hfl]; [lia|].
      exfalso. apply Hfl.
      assert (Hs12 : _size r0 = 12) by lia. rewrite Hs12 in Hq.
      change (12 - 12) with 0 in Hq. unfold to_uint32 in Hq.
      assert (Hfr : 0 <= flen < 2 ^ 32).
      { subst flen. apply (le_uint_slice_range _ 8 4). lia. }
      symmetry in Hq. apply Z.mod_divide in Hq; [|lia].
      destruct Hq as [q Hq]. lia.
    + split; [reflexivity|]. split; [right; reflexivity|]. intros _. reflexivity.
Qed.

Lemma readRequest_header_validation_witness :
  let link := fun _ : list (list byte) =>
    [x26; x08; x00; x80;  x00; x00; x00; x00;  x02; x00; x00; x00;  x41; x42] in
  let r := snd (execute link RadiaCode_connected _shared_buffer0 RD_VIRT_STRING
                        (le32_bytes 2)) in
  let out := snd (readRequest link RadiaCode_connected _shared_buffer0 2 x00) in
  (_size r < 12 -> out = BytesBuffer_new (_fixed_data r)) /\
  (12 <= _size r ->
     _fixed_data out = _fixed_data r /\
     (_size out = _size r \/ _size out = _size r - 1) /\
     (12 < _size r \/ le_uint (slice (_fixed_data r) 8 4) <> 2 ^ 32 - 1 ->
      _position out = 12)).
Proof.
  intros link r out.
  apply (readRequest_header_validation link RadiaCode_connected _shared_buffer0 2 x00).
  vm_compute. reflexivity.
Defined.

(** C4 as stated fails: a response whose retcode is 0, not the success
    sentinel 1, is not answered with an empty buffer; [readRequest] returns
    the 14-byte response with the cursor on its two data bytes. *)
Lemma readRequest_bad_retcode_not_empty :
  let payload :=
    [x26; x08; x00; x80;  x00; x00; x00; x00;  x02; x00; x00; x00;  x41; x42] in
  let out := snd (readRequest (fun _ => payload) RadiaCode_connected _shared_buffer0
                              2 x00) in
  le_uint (slice payload 4 4) <> 1 /\
  _size out = 14 /\ _position out = 12 /\
  slice (_fixed_data out) 12 2 = [x41; x42] /\
  out <> BytesBuffer_new (_fixed_data out).
Proof.
  intros payload out.
  split; [vm_compute; discriminate|].
  split; [vm_compute; reflexivity|].
  split; [vm_compute; reflexivity|].
  split; [vm_compute; reflexivity|].
  intros E. apply (f_equal _size) in E. vm_compute in E. discriminate E.
Qed.

(** C5 (the code departs from it). The trailing-byte correction looks at
    the byte at absolute offset [remaining_size - 1] of the response instead
    of its last byte.
    - Declared length 1, two bytes remaining, the last one 0x00: the byte
      looked at is the high byte 0x08 of the echoed opcode, nothing is
      dropped and 2 bytes stay available.
    - Declared length 2, three bytes remaining, the last one 0x55: the byte
      looked at is the reserved 0x00 of the echoed header, and the non-zero
      last byte is dropped. *)
Theorem readRequest_quirk_checks_wrong_byte :
  let zero_tail :=
    [x26; x08; x00; x80;  x01; x00; x00; x00;  x01; x00; x00; x00;  x41; x00] in
  let nonzero_tail :=
    [x26; x08; x00; x80;  x01; x00; x00; x00;  x02; x00; x00; x00;  x41; x42; x55] in
  let out1 := snd (readRequest (fun _ => zero_tail) RadiaCode_connected
                               _shared_buffer0 2 x00) in
  let out2 := snd (readRequest (fun _ => nonzero_tail) RadiaCode_connected
                               _shared_buffer0 2 x00) in
  (_position out1 = 12 /\ _size out1 = 14 /\ fst (available out1) = 2) /\
  (_position out2 = 12 /\ _size out2 = 14 /\ fst (available out2) = 2 /\
   slice (_fixed_data out2) 12 3 = [x41; x42; x55]).
Proof.
  vm_compute. repeat split; reflexivity.
Qed.

(** ** The class invariant *)

Lemma read_spec_keeps_ok {A} (w : Z) (interp : list byte -> A) (zero : A)
    (rd : Cur (bool * A)) (b : BytesBuffer) :
  0 <= w -> read_spec w interp zero rd b -> buffer_ok b -> buffer_ok (snd (rd b)).
Proof.
  intros Hw (Hiff & Hfail & Hpass) Hok.
  destruct (fst (fst (rd b))) eqn:E.
  - destruct (Hpass eq_refl) as (_ & ->).
    apply buffer_ok_with_position; [assumption|].
    destruct Hok as (Hp & _). pose proof (proj1 Hiff eq_refl). lia.
  - destruct (Hfail eq_refl) as (-> & _). assumption.
Qed.

Lemma ensureCapacity_eq (b : BytesBuffer) (k : Z) :
  buffer_ok b -> 0 <= k -> k + MAX_BUFFER_SIZE < 2 ^ 32 ->
  fst (ensureCapacity k b) = (_position b + k <=? MAX_BUFFER_SIZE).
Proof.
  intros (Hp & Hs & Hc & Hl) Hk Hlt. unfold MAX_BUFFER_SIZE in *.
  unfold ensureCapacity, wrap_size. cbn [fst].
  rewrite to_uint32_small by lia. rewrite Hc. reflexivity.
Qed.

Lemma bump_ok (b : BytesBuffer) (d : list byte) (w : Z) :
  buffer_ok b -> List.length d = List.length (_fixed_data b) ->
  0 <= w -> _position b + w <= MAX_BUFFER_SIZE ->
  buffer_ok (bump (with_data b d) w).
Proof.
  intros (Hp & Hs & Hc & Hl) Hd Hw Hfit. unfold MAX_BUFFER_SIZE in *.
  unfold bump, advance, wrap_size.
  cbn [_position _size _capacity _fixed_data with_data with_position].
  rewrite to_uint32_small by lia.
  destruct (Z.gtb_spec (_position b + w) (_size b));
    unfold buffer_ok;
    cbn [_position _size _capacity _fixed_data with_size with_position with_data];
    rewrite Hd; unfold MAX_BUFFER_SIZE; lia.
Qed.

Lemma writeBytes_ok (buffer : list byte) (b : BytesBuffer) :
  buffer_ok b -> Z.of_nat (List.length buffer) + MAX_BUFFER_SIZE < 2 ^ 32 ->
  buffer_ok (snd (writeBytes buffer b)).
Proof.
  intros Hok Hlen. unfold writeBytes.
  rewrite ensureCapacity_eq by (assumption || lia).
  destruct (Z.leb_spec (_position b + Z.of_nat (List.length buffer)) MAX_BUFFER_SIZE);
    cbn [negb snd]; [|assumption].
  apply bump_ok; [assumption | apply memcpy_length | lia | assumption].
Qed.

Lemma writeUint8_ok (v : Z) (b : BytesBuffer) : buffer_ok b -> buffer_ok (snd (writeUint8 v b)).
Proof.
  intros Hok. unfold writeUint8.
  rewrite ensureCapacity_eq by (assumption || (unfold MAX_BUFFER_SIZE; lia)).
  destruct (Z.leb_spec (_position b + 1) MAX_BUFFER_SIZE); cbn [negb snd]; [|assumption].
  apply bump_ok; [assumption | apply memcpy_length | lia | assumption].
Qed.

Lemma writeUint16_ok (v : Z) (b : BytesBuffer) : buffer_ok b -> buffer_ok (snd (writeUint16 v b)).
Proof.
  intros Hok. unfold writeUint16.
  rewrite ensureCapacity_eq by (assumption || (unfold MAX_BUFFER_SIZE; lia)).
  destruct (Z.leb_spec (_position b + 2) MAX_BUFFER_SIZE); cbn [negb snd]; [|assumption].
  apply bump_ok; [assumption | unfold poke; rewrite !memcpy_length; reflexivity
                 | lia | assumption].
Qed.

Lemma writeUint32_ok (v : Z) (b : BytesBuffer) : buffer_ok b -> buffer_ok (snd (writeUint32 v b)).
Proof.
  intros Hok. unfold writeUint32.
  rewrite ensureCapacity_eq by (assumption || (unfold MAX_BUFFER_SIZE; lia)).
  destruct (Z.leb_spec (_position b + 4) MAX_BUFFER_SIZE); cbn [negb snd]; [|assumption].
  apply bump_ok; [assumption | unfold poke; rewrite !memcpy_length; reflexivity
                 | lia | assumption].
Qed.

Lemma writeFloat_ok (f : float32) (b : BytesBuffer) : buffer_ok b -> buffer_ok (snd (writeFloat f b)).
Proof.
  intros Hok. unfold writeFloat.
  rewrite ensureCapacity_eq by (assumption || (unfold MAX_BUFFER_SIZE; lia)).
  destruct (Z.leb_spec (_position b + 4) MAX_BUFFER_SIZE); cbn [negb snd]; [|assumption].
  apply bump_ok; [assumption | apply memcpy_length | lia | assumption].
Qed.

Lemma writeChars_ok (cs : list byte) :
  forall b, buffer_ok b -> buffer_ok (snd (writeChars cs b)).
Proof.
  induction cs as [|c cs IH]; intros b Hok.
  - exact Hok.
  - cbn [writeChars]. unfold bind.
    pose proof (writeUint8_ok (u8 c) b Hok) as H1.
    destruct (writeUint8 (u8 c) b) as [ok b1]. cbn [snd] in H1.
    destruct ok; [apply IH; assumption | exact H1].
Qed.

Lemma writeString_ok (str : list byte) (b : BytesBuffer) :
  buffer_ok b -> buffer_ok (snd (writeString str b)).
Proof.
  intros Hok. unfold writeString, bind.
  pose proof (writeUint8_ok (to_uint8 (Z.of_nat (List.length str))) b Hok) as H1.
  destruct (writeUint8 (to_uint8 (Z.of_nat (List.length str))) b) as [ok b1].
  cbn [snd] in H1. destruct ok; [apply writeChars_ok; assumption | exact H1].
Qed.

Lemma readString_ok (b : BytesBuffer) : buffer_ok b -> buffer_ok (snd (readString b)).
Proof.
  intros Hok. unfold readString.
  destruct (Z.le_gt_cases (_position b + 1) (_size b)) as [Hin|Hout].
  - rewrite (readUint8_ok b Hok Hin). cbn [negb].
    pose proof (le_uint_slice_range (_fixed_data b) (_position b) 1 ltac:(lia)) as Hr.
    set (len := le_uint (slice (_fixed_data b) (_position b) 1)) in *.
    destruct Hok as (Hp & Hs & Hc & Hl). unfold MAX_BUFFER_SIZE in *.
    cbn [_position _size _fixed_data with_position]. unfold wrap_size.
    rewrite to_uint32_small by lia.
    destruct (Z.gtb_spec (_position b + 1 + len) (_size b)); cbn [snd];
      unfold buffer_ok; cbn [_position _size _capacity _fixed_data with_position];
      unfold MAX_BUFFER_SIZE; lia.
  - rewrite (readUint8_fail b) by lia. cbn [negb snd]. assumption.
Qed.

Lemma setSize_ok (size : Z) (b : BytesBuffer) :
  buffer_ok b -> 0 <= size <= MAX_BUFFER_SIZE -> buffer_ok (snd (setSize size b)).
Proof.
  intros (Hp & Hs & Hc & Hl) Hsz. unfold MAX_BUFFER_SIZE in *. unfold setSize.
  destruct (Z.gtb_spec size (_capacity b)) as [Hbad|_]; [lia|].
  cbn [snd _position _size with_size].
  destruct (Z.gtb_spec (_position b) size);
    unfold buffer_ok; cbn [_position _size _capacity _fixed_data with_size with_position];
    unfold MAX_BUFFER_SIZE; lia.
Qed.

(** Every public operation keeps [position <= size <= capacity], provided
    [setSize] is not asked for more than the capacity. *)
Lemma BufferOp_keeps_invariant (o : BufferOp) (b : BytesBuffer) :
  buffer_ok b -> BufferOp_within_capacity o -> buffer_ok (BufferOp_run o b).
Proof.
  intros Hok Harg.
  destruct o; cbn [BufferOp_run BufferOp_within_capacity] in *.
  - eapply read_spec_keeps_ok; [|exact (readUint8_meets_spec b Hok)|exact Hok]; lia.
  - eapply read_spec_keeps_ok; [|exact (readUint16_meets_spec b Hok)|exact Hok]; lia.
  - eapply read_spec_keeps_ok; [|exact (readUint32_meets_spec b Hok)|exact Hok]; lia.
  - eapply read_spec_keeps_ok; [|exact (readInt8_meets_spec b Hok)|exact Hok]; lia.
  - eapply read_spec_keeps_ok; [|exact (readInt16_meets_spec b Hok)|exact Hok]; lia.
  - eapply read_spec_keeps_ok; [|exact (readInt32_meets_spec b Hok)|exact Hok]; lia.
  - eapply read_spec_keeps_ok; [|exact (readFloat_meets_spec b Hok)|exact Hok]; lia.
  - rewrite readBytes_shape by assumption.
    apply buffer_ok_with_position; [assumption|]. destruct Hok as (Hp & _). lia.
  - unfold peekBytes.
    repeat match goal with |- context [if ?c then _ else _] => destruct c end;
      assumption.
  - apply readString_ok; assumption.
  - apply writeUint8_ok; assumption.
  - apply writeUint16_ok; assumption.
  - apply writeUint32_ok; assumption.
  - apply writeUint8_ok; assumption.
  - apply writeUint16_ok; assumption.
  - apply writeUint32_ok; assumption.
  - apply writeFloat_ok; assumption.
  - apply writeBytes_ok; assumption.
  - apply writeString_ok; assumption.
  - cbn [setPosition snd]. apply buffer_ok_with_position; [assumption|].
    destruct Hok as (Hp & _). lia.
  - cbn [reset snd]. apply buffer_ok_with_position; [assumption|].
    destruct Hok as (Hp & _). lia.
  - apply setSize_ok; assumption.
Qed.

(** C2 (the code departs from it). [setSize] with a size above the capacity
    stores the size all the same: on a fresh buffer, [setSize(5000)] leaves
    [size = 5000 > capacity = 4096], and a read at position 4096, one past
    the end of the store, then reports success. *)
Theorem setSize_exceeds_capacity :
  let b0 := BytesBuffer_new _shared_buffer0 in
  let b := snd (setSize 5000 b0) in
  let b' := snd (setPosition 4096 b) in
  buffer_ok b0 /\
  _size b = 5000 /\ _capacity b = 4096 /\ ~ buffer_ok b /\
  _position b' = 4096 /\ Z.of_nat (List.length (_fixed_data b')) = 4096 /\
  fst (fst (readUint8 b')) = true.
Proof.
  intros b0 b b'.
  split; [apply buffer_ok_new; reflexivity|].
  split; [reflexivity|]. split; [reflexivity|].
  split.
  - intros (_ & Hs & _). vm_compute in Hs. apply Hs. reflexivity.
  - vm_compute. repeat split; reflexivity.
Qed.

(** ** Telemetry stream *)

Lemma byte_at_with_position (b : BytesBuffer) (q i : Z) :
  byte_at (with_position b q) i = byte_at b i.
Proof. reflexivity. Qed.

(** The value of a read when it is in bounds, with the flag dropped. *)
Lemma value_of_readUint8 (b : BytesBuffer) :
  buffer_ok b -> _position b + 1 <= _size b ->
  value_of readUint8 b = (byte_at b (_position b), with_position b (_position b + 1)).
Proof.
  intros Hok Hin. unfold value_of, bind, Cur_ret.
  rewrite (readUint8_ok b Hok Hin), (slice1 b Hok Hin). reflexivity.
Qed.

Lemma value_of_readInt32 (b : BytesBuffer) :
  buffer_ok b -> _position b + 4 <= _size b ->
  value_of readInt32 b =
  (to_int32 (le_uint (slice (_fixed_data b) (_position b) 4)),
   with_position b (_position b + 4)).
Proof.
  intros Hok Hin. unfold value_of, bind, Cur_ret.
  rewrite (readInt32_ok b Hok Hin). reflexivity.
Qed.

(** With 7 bytes available the header is the three bytes at the position
    and the signed 32-bit value after them. *)
Lemma read_header_ok (b : BytesBuffer) :
  buffer_ok b -> _position b + 7 <= _size b ->
  read_header b =
  ((byte_at b (_position b), byte_at b (_position b + 1), byte_at b (_position b + 2),
    to_int32 (le_uint (slice (_fixed_data b) (_position b + 3) 4))),
   with_position b (_position b + 7)).
Proof.
  intros Hok Hin. pose proof Hok as (Hp & Hs & Hc & Hl).
  unfold read_header, bind.
  rewrite (value_of_readUint8 b Hok) by lia.
  assert (Hok1 : buffer_ok (with_position b (_position b + 1)))
    by (apply buffer_ok_with_position; [assumption | lia]).
  rewrite (value_of_readUint8 _ Hok1) by (cbn [_position _size with_position]; lia).
  cbn [_position with_position].
  assert (Hok2 : buffer_ok (with_position (with_position b (_position b + 1))
                                          (_position b + 1 + 1)))
    by (apply buffer_ok_with_position; [assumption | cbn [_size with_position]; lia]).
  rewrite (value_of_readUint8 _ Hok2) by (cbn [_position _size with_position]; lia).
  cbn [_position with_position].
  match goal with
  | |- context [value_of readInt32 ?b3] =>
    assert (Hok3 : buffer_ok b3)
      by (apply buffer_ok_with_position; [assumption | cbn [_size with_position]; lia]);
    rewrite (value_of_readInt32 b3 Hok3) by (cbn [_position _size with_position]; lia)
  end.
  cbn [_position _fixed_data with_position]. unfold Cur_ret, with_position.
  cbn [_position _size _capacity _fixed_data]. unfold byte_at.
  cbn [_fixed_data].
  replace (_position b + 1 + 1 + 1 + 4) with (_position b + 7) by lia.
  replace (_position b + 1 + 1 + 1) with (_position b + 3) by lia.
  replace (_position b + 1 + 1) with (_position b + 2) by lia.
  reflexivity.
Qed.

(** A pair outside the known ones falls through the whole dispatch without
    touching the cursor. *)
Lemma decode_record_unknown (float_of_int : Z -> float32)
    (fdiv : float32 -> float32 -> float32) (eid gid timestamp : Z) (b : BytesBuffer) :
  known_pair eid gid = false ->
  decode_record float_of_int fdiv eid gid timestamp b = (UnknownType, b).
Proof.
  intros H. unfold known_pair in H. cbn [existsb] in H.
  repeat (apply orb_false_elim in H; destruct H as [? H]).
  unfold decode_record.
  repeat match goal with
         | E : (?x =? ?e) && (?y =? ?g) = false |- _ => rewrite E; clear E
         end.
  reflexivity.
Qed.

(** C7. At any loop head of [decodeDataBuf] with a whole header available,
    if the [(eid, gid)] pair of that header is none of the pairs the decoder
    decodes or skips, decoding stops there: the function returns exactly the
    records decoded up to that point and the cursor stays right after the
    7-byte header, the rest of the stream unconsumed. *)
Theorem decodeDataBuf_stops_on_unknown (float_of_int : Z -> float32)
    (fdiv : float32 -> float32 -> float32) (offset_undefined : Z -> Z) (fuel : nat)
    (base_time_sec next_seq : Z) (first_packet : bool)
    (ret : list DataItem) (br : BytesBuffer) :
  buffer_ok br -> _position br + 7 <= _size br ->
  known_pair (byte_at br (_position br + 1)) (byte_at br (_position br + 2)) = false ->
  decodeDataBuf_loop float_of_int fdiv offset_undefined (S fuel)
      base_time_sec next_seq first_packet ret br
  = Some (ret, with_position br (_position br + 7)).
Proof.
  intros Hok Hin Hunk. cbn [decodeDataBuf_loop].
  rewrite (available_eq br Hok).
  destruct (Z.geb_spec (_size br - _position br) 7) as [_|Hlt]; [|lia].
  rewrite (read_header_ok br Hok Hin).
  rewrite (decode_record_unknown _ _ _ _ _ _ Hunk). reflexivity.
Qed.

Lemma decodeDataBuf_stops_on_unknown_witness :
  let record0 := [x00; x00; x01; x00; x00; x00; x00;
                  x00; x00; x80; x3f;  x00; x00; x00; x40] in
  let br := BytesBuffer_of _shared_buffer0
              (record0 ++ [x01; x02; x09; x00; x00; x00; x00; xaa; xbb]) in
  let br1 := with_position br 15 in
  let item := RawData 0 (F32 0x3f800000) (F32 0x40000000) in
  decodeDataBuf_loop (fun _ => fzero) (fun x _ => x) (fun _ => 0) 1 0 1 false [item] br1
  = Some ([item], with_position br1 22) /\
  decodeDataBuf (fun _ => fzero) (fun x _ => x) (fun _ => 0) br 0
  = Some ([item], with_position br 22).
Proof.
  intros record0 br br1 item. split.
  - apply (decodeDataBuf_stops_on_unknown (fun _ => fzero) (fun x _ => x) (fun _ => 0) 0 0 1 false
             [item] br1).
    + unfold buffer_ok. vm_compute. intuition discriminate.
    + vm_compute. discriminate.
    + vm_compute. reflexivity.
  - vm_compute. reflexivity.
Defined.

(** ** Frame reassembly *)

Lemma overwrite_zeros (src : list byte) (k : nat) :
  (List.length src <= k)%nat ->
  overwrite src (repeat x00 k) = src ++ repeat x00 (k - List.length src).
Proof.
  revert k. induction src as [|x src IH]; intros k Hk.
  - simpl. rewrite Nat.sub_0_r. reflexivity.
  - destruct k as [|k]; simpl in Hk; [lia|].
    simpl. f_equal. apply IH. lia.
Qed.

Lemma overwrite_with_zeros (d : list byte) :
  overwrite (repeat x00 (List.length d)) d = repeat x00 (List.length d).
Proof.
  induction d as [|x d IH]; simpl; [reflexivity | f_equal; exact IH].
Qed.

Lemma memcpy_at_app {A} (pre rest src : list A) :
  memcpy_at (pre ++ rest) (List.length pre) src = pre ++ overwrite src rest.
Proof.
  induction pre as [|x pre IH]; simpl.
  - destruct src, rest; reflexivity.
  - f_equal. exact IH.
Qed.

Lemma memcpy_at_0 {A} (d src : list A) : memcpy_at d 0 src = overwrite src d.
Proof. destruct d; reflexivity. Qed.

Lemma slice_all {A} (x : list A) : slice x 0 (Z.of_nat (List.length x)) = x.
Proof.
  unfold slice. rewrite Nat2Z.id. simpl. apply firstn_all.
Qed.

Lemma memset_zero_all (d : list byte) :
  memset_zero d (Z.of_nat (List.length d)) = repeat x00 (List.length d).
Proof.
  unfold memset_zero, memcpy. rewrite Nat2Z.id. simpl.
  destruct d; [reflexivity|]. apply (overwrite_with_zeros (b :: d)).
Qed.

(** Reading back the four bytes of a 32-bit length. *)
Lemma le32_bytes_decode (n : Z) :
  0 <= n < 2 ^ 32 ->
  match le32_bytes n with
  | [c0; c1; c2; c3] =>
    Z.lor (Z.lor (Z.lor (u8 c0) (to_uint32 (Z.shiftl (u8 c1) 8)))
                 (to_uint32 (Z.shiftl (u8 c2) 16)))
          (to_uint32 (Z.shiftl (u8 c3) 24)) = n
  | _ => False
  end.
Proof.
  intros Hn. unfold le32_bytes. rewrite !u8_byte_of.
  rewrite !Z.shiftr_div_pow2 by lia.
  change (2 ^ 8) with 256. change (2 ^ 16) with 65536. change (2 ^ 24) with 16777216.
  change (2 ^ 32) with 4294967296 in Hn.
  set (c0 := n mod 256). set (c1 := (n / 256) mod 256).
  set (c2 := (n / 65536) mod 256). set (c3 := (n / 16777216) mod 256).
  assert (H0 : 0 <= c0 < 256) by (apply Z.mod_pos_bound; lia).
  assert (H1 : 0 <= c1 < 256) by (apply Z.mod_pos_bound; lia).
  assert (H2 : 0 <= c2 < 256) by (apply Z.mod_pos_bound; lia).
  assert (H3 : 0 <= c3 < 256) by (apply Z.mod_pos_bound; lia).
  assert (Hsum : n = c0 + c1 * 2 ^ 8 + c2 * 2 ^ 16 + c3 * 2 ^ 24).
  { subst c0 c1 c2 c3.
    change (2 ^ 8) with 256. change (2 ^ 16) with 65536. change (2 ^ 24) with 16777216.
    pose proof (Z.div_mod n 256 ltac:(lia)).
    pose proof (Z.div_mod (n / 256) 256 ltac:(lia)).
    pose proof (Z.div_mod (n / 65536) 256 ltac:(lia)).
    assert (n / 65536 = n / 256 / 256) by (rewrite Z.div_div by lia; reflexivity).
    assert (n / 16777216 = n / 65536 / 256) by (rewrite Z.div_div by lia; reflexivity).
    assert (n / 16777216 < 256) by (apply Z.div_lt_upper_bound; lia).
    assert (0 <= n / 16777216) by (apply Z.div_pos; lia).
    rewrite (Z.mod_small (n / 16777216) 256) by lia.
    lia. }
  rewrite (to_uint32_small (Z.shiftl c1 8)) by (rewrite Z.shiftl_mul_pow2; lia).
  rewrite (to_uint32_small (Z.shiftl c2 16)) by (rewrite Z.shiftl_mul_pow2; lia).
  rewrite (to_uint32_small (Z.shiftl c3 24)) by (rewrite Z.shiftl_mul_pow2; lia).
  rewrite (lor_shiftl_add c0 c1 8) by lia.
  rewrite (lor_shiftl_add _ c2 16) by lia.
  rewrite (lor_shiftl_add _ c3 24) by lia.
  lia.
Qed.

Lemma onNotify_append (pre x : list byte) (total : Z) :
  0 < total <= MAX_RESP_SIZE ->
  Z.of_nat (List.length pre + List.length x) <= total ->
  onNotify (mkBluetoothTransport (padded pre) (Z.of_nat (List.length pre)) total
              (Z.of_nat (List.length pre) >=? total)) x
  = mkBluetoothTransport (padded (pre ++ x)) (Z.of_nat (List.length (pre ++ x))) total
      (Z.of_nat (List.length (pre ++ x)) >=? total).
Proof.
  intros Htot Hfit. unfold MAX_RESP_SIZE in *. unfold onNotify.
  cbn [_resp_size _resp_received _resp_buffer _response_ready].
  destruct (Z.eqb_spec total 0) as [E|_]; [lia|]. cbn [andb].
  unfold wrap_size, MAX_RESP_SIZE.
  rewrite (to_uint32_small (Z.of_nat (List.length pre) + Z.of_nat (List.length x))) by lia.
  destruct (Z.leb_spec (Z.of_nat (List.length pre) + Z.of_nat (List.length x)) 4096)
    as [_|Hbad]; [|lia].
  destruct (Z.gtb_spec (Z.of_nat (List.length pre) + Z.of_nat (List.length x)) 4096)
    as [Hbad|_]; [lia|].
  rewrite length_app, Nat2Z.inj_add.
  destruct (Z.gtb_spec (Z.of_nat (List.length x)) 0) as [Hpos|Hzero].
  - cbn [_resp_size _resp_received _resp_buffer _response_ready].
    rewrite (to_uint32_small (Z.of_nat (List.length pre) + Z.of_nat (List.length x))) by lia.
    rewrite slice_all. unfold memcpy, padded. rewrite Nat2Z.id, memcpy_at_app.
    rewrite overwrite_zeros by (unfold MAX_RESP_SIZE; lia).
    rewrite app_assoc, length_app, Nat.sub_add_distr.
    destruct (Z.geb_spec (Z.of_nat (List.length pre) + Z.of_nat (List.length x)) total);
      [reflexivity|].
    destruct (Z.geb_spec (Z.of_nat (List.length pre)) total); [lia | reflexivity].
  - assert (Hx : x = []) by (destruct x; [reflexivity | simpl in Hzero; lia]).
    subst x. cbn [List.length] in *. rewrite app_nil_r.
    cbn [_resp_size _resp_received _resp_buffer _response_ready].
    change (Z.of_nat 0) with 0. rewrite Z.add_0_r.
    destruct (Z.geb_spec (Z.of_nat (List.length pre)) total); reflexivity.
Qed.

Lemma deliver_rest (total : Z) (chunks : list (list byte)) :
  forall pre : list byte,
    0 < total <= MAX_RESP_SIZE ->
    Z.of_nat (List.length (pre ++ concat chunks)) = total ->
    deliver (mkBluetoothTransport (padded pre) (Z.of_nat (List.length pre)) total
               (Z.of_nat (List.length pre) >=? total)) chunks
    = mkBluetoothTransport (padded (pre ++ concat chunks)) total total true.
Proof.
  induction chunks as [|x chunks IH]; intros pre Htot Hlen.
  - cbn [concat] in *. rewrite app_nil_r in *. cbn [deliver fold_left].
    rewrite Hlen. destruct (Z.geb_spec total total); [reflexivity | lia].
  - cbn [concat] in Hlen. cbn [deliver fold_left].
    rewrite onNotify_append.
    + rewrite app_assoc in Hlen. cbn [concat]. rewrite app_assoc.
      apply (IH (pre ++ x) Htot Hlen).
    + assumption.
    + rewrite !length_app in Hlen. lia.
Qed.

Lemma onNotify_first (t : BluetoothTransport) (c rest body : list byte) :
  Z.of_nat (List.length (_resp_buffer t)) = MAX_RESP_SIZE ->
  Z.of_nat (List.length body) + 4 <= MAX_RESP_SIZE ->
  (4 <= List.length c)%nat ->
  c ++ rest = frame_of body ->
  onNotify (reset_tracking t) c
  = mkBluetoothTransport (padded c) (Z.of_nat (List.length c))
      (Z.of_nat (List.length body) + 4)
      (Z.of_nat (List.length c) >=? Z.of_nat (List.length body) + 4).
Proof.
  intros Hbuf Hfit Hc Hframe. unfold MAX_RESP_SIZE in *.
  set (N := Z.of_nat (List.length body)) in *.
  assert (HN : 0 <= N < 2 ^ 32) by lia.
  pose proof (le32_bytes_decode N HN) as Hdec.
  assert (Hlen : (List.length c + List.length rest = 4 + List.length body)%nat).
  { rewrite <- length_app, Hframe. unfold frame_of. rewrite length_app. reflexivity. }
  unfold frame_of in Hframe. fold N in Hframe.
  destruct c as [|a0 [|a1 [|a2 [|a3 c']]]]; simpl in Hc; try lia.
  destruct (le32_bytes N) as [|c0 [|c1 [|c2 [|c3 [|c4 l]]]]]; try contradiction.
  cbn [app] in Hframe. injection Hframe as -> -> -> -> Hrest.
  unfold onNotify, reset_tracking.
  cbn [_resp_size _resp_received _resp_buffer _response_ready].
  change (0 =? 0) with true. cbn [andb].
  destruct (Z.geb_spec (Z.of_nat (List.length (c0 :: c1 :: c2 :: c3 :: c'))) 4)
    as [_|Hbad]; [|cbn [List.length] in Hbad; lia].
  unfold load. change (Z.to_nat 0) with 0%nat. change (Z.to_nat 1) with 1%nat.
  change (Z.to_nat 2) with 2%nat. change (Z.to_nat 3) with 3%nat. cbn [nth].
  rewrite Hdec. unfold wrap_size. rewrite (to_uint32_small (N + 4)) by lia.
  unfold MAX_RESP_SIZE.
  destruct (Z.gtb_spec (N + 4) 4096) as [Hbad|_]; [lia|].
  cbn [_resp_size _resp_received _resp_buffer _response_ready].
  assert (Hms : memset_zero (_resp_buffer t) 4096
                = repeat x00 (List.length (_resp_buffer t))).
  { rewrite <- Hbuf. apply memset_zero_all. }
  rewrite Hms.
  unfold memcpy. change (Z.to_nat 0) with 0%nat.
  assert (Hover : memcpy_at (repeat x00 (List.length (_resp_buffer t))) 0
                    (c0 :: c1 :: c2 :: c3 :: c')
                  = padded (c0 :: c1 :: c2 :: c3 :: c')).
  { unfold padded, MAX_RESP_SIZE.
    replace (List.length (_resp_buffer t)) with (Z.to_nat 4096) by lia.
    rewrite memcpy_at_0. apply overwrite_zeros. cbn [List.length] in *. lia. }
  rewrite Hover.
  destruct (Z.geb_spec (Z.of_nat (List.length (c0 :: c1 :: c2 :: c3 :: c'))) (N + 4));
    reflexivity.
Qed.

Lemma frame_of_length (body : list byte) :
  Z.of_nat (List.length (frame_of body)) = Z.of_nat (List.length body) + 4.
Proof.
  unfold frame_of. rewrite length_app. cbn [le32_bytes List.length]. lia.
Qed.

(** C1 (amended). A frame is a 4-byte little-endian length N followed by N
    body bytes: the handler adds the 4 bytes of the length field to the
    decoded value.  For every such frame that fits the response buffer,
    delivered to a handler whose tracking was reset (as [execute] does) in
    any partition into chunks whose first chunk carries at least the 4 bytes
    of the length, the response is marked ready with N + 4 bytes received
    and the buffer holding the frame followed by zeros: the same state as
    when the frame arrives in one piece. *)
Theorem frame_reassembly_chunking (t : BluetoothTransport) (body c : list byte)
    (chunks : list (list byte)) :
  Z.of_nat (List.length (_resp_buffer t)) = MAX_RESP_SIZE ->
  Z.of_nat (List.length body) + 4 <= MAX_RESP_SIZE ->
  (4 <= List.length c)%nat ->
  concat (c :: chunks) = frame_of body ->
  let N := Z.of_nat (List.length body) in
  let final := deliver (reset_tracking t) (c :: chunks) in
  final = mkBluetoothTransport (padded (frame_of body)) (N + 4) (N + 4) true /\
  final = deliver (reset_tracking t) [frame_of body].
Proof.
  intros Hbuf Hfit Hc Hframe N final.
  assert (Hclosed : forall c' chunks',
            (4 <= List.length c')%nat -> concat (c' :: chunks') = frame_of body ->
            deliver (reset_tracking t) (c' :: chunks')
            = mkBluetoothTransport (padded (frame_of body)) (N + 4) (N + 4) true).
  { intros c' chunks' Hc' Hframe'. cbn [concat] in Hframe'.
    cbn [deliver fold_left].
    rewrite (onNotify_first t c' (concat chunks') body Hbuf Hfit Hc' Hframe').
    fold N. fold (deliver (mkBluetoothTransport (padded c') (Z.of_nat (List.length c'))
                            (N + 4) (Z.of_nat (List.length c') >=? N + 4)) chunks').
    rewrite deliver_rest.
    - rewrite Hframe'. reflexivity.
    - subst N. lia.
    - rewrite Hframe'. apply frame_of_length. }
  split.
  - apply Hclosed; assumption.
  - subst final. rewrite (Hclosed c chunks Hc Hframe).
    symmetry. apply Hclosed.
    + pose proof (frame_of_length body). lia.
    + cbn [concat]. apply app_nil_r.
Qed.

Lemma frame_reassembly_chunking_witness :
  let t := BluetoothTransport_new (repeat xff (Z.to_nat MAX_RESP_SIZE)) in
  let body := [x26; x08; x00; x80; x01] in
  let final := deliver (reset_tracking t)
                 [[x05; x00; x00; x00; x26]; [x08]; []; [x00; x80; x01]] in
  final = mkBluetoothTransport (padded (frame_of body)) 9 9 true /\
  final = deliver (reset_tracking t) [frame_of body].
Proof.
  intros t body final.
  apply (frame_reassembly_chunking t body [x05; x00; x00; x00; x26]
           [[x08]; []; [x00; x80; x01]]).
  - vm_compute. reflexivity.
  - vm_compute. discriminate.
  - simpl. lia.
  - vm_compute. reflexivity.
Defined.

(** C1 as stated fails.  The frame with length prefix 8 followed by 8 - 4
    body bytes, delivered in one piece, is never marked ready (the handler
    waits for 8 + 4 bytes); delivered one byte at a time it is marked ready
    after the first byte, with the length never decoded; the two deliveries
    end in different states. *)
Lemma frame_reassembly_not_chunking_invariant :
  let t0 := reset_tracking (BluetoothTransport_new (repeat x00 (Z.to_nat MAX_RESP_SIZE))) in
  let frame := [x08; x00; x00; x00; x01; x02; x03; x04] in
  let bytewise := map (fun c => [c]) frame in
  _response_ready (deliver t0 [frame]) = false /\
  _resp_size (deliver t0 [frame]) = 12 /\
  _response_ready (deliver t0 [[x08]]) = true /\
  _response_ready (deliver t0 bytewise) = true /\
  _resp_size (deliver t0 bytewise) = 0 /\
  deliver t0 bytewise <> deliver t0 [frame].
Proof.
  intros t0 frame bytewise.
  split; [vm_compute; reflexivity|].
  split; [vm_compute; reflexivity|].
  split; [vm_compute; reflexivity|].
  split; [vm_compute; reflexivity|].
  split; [vm_compute; reflexivity|].
  intros E. apply (f_equal _response_ready) in E. vm_compute in E. discriminate E.
Qed.

(** ** The decoders terminate *)

Lemma post_ret {A} (P : A -> Prop) (a : A) : P a -> cur_post P (Cur_ret a).
Proof.
  intros Ha b Hok. unfold Cur_ret. cbn [fst snd].
  split; [assumption|]. split; [assumption|]. split; [lia | reflexivity].
Qed.

Lemma post_bind {A B} (P : A -> Prop) (Q : B -> Prop) (m : Cur A) (k : A -> Cur B) :
  cur_post P m -> (forall a, P a -> cur_post Q (k a)) -> cur_post Q (bind m k).
Proof.
  intros Hm Hk b Hok. unfold bind.
  destruct (Hm b Hok) as (Ha & Hok1 & Hpos1 & Hsz1).
  destruct (m b) as [a b1]. cbn [fst snd] in *.
  destruct (Hk a Ha b1 Hok1) as (Hb & Hok2 & Hpos2 & Hsz2).
  split; [assumption|]. split; [assumption|]. split; lia.
Qed.

Lemma post_weaken {A} (P Q : A -> Prop) (m : Cur A) :
  (forall a, P a -> Q a) -> cur_post P m -> cur_post Q m.
Proof.
  intros HPQ Hm b Hok. destruct (Hm b Hok) as (Ha & H). split; auto.
Qed.

(** Every typed read is such an action; its value is the zero default or
    the reading of the bytes. *)
Lemma post_of_read_spec {A} (w : Z) (interp : list byte -> A) (zero : A)
    (rd : Cur (bool * A)) (P : A -> Prop) :
  0 <= w ->
  (forall b, buffer_ok b -> read_spec w interp zero rd b) ->
  P zero -> (forall d off, P (interp (slice d off w))) ->
  cur_post (fun r => P (snd r)) rd.
Proof.
  intros Hw Hspec Hzero Hinterp b Hok.
  destruct (Hspec b Hok) as (Hiff & Hfail & Hpass).
  destruct (fst (fst (rd b))) eqn:E.
  - destruct (Hpass eq_refl) as (Hv & Hb). rewrite Hv, Hb.
    pose proof (proj1 Hiff eq_refl) as Hin. pose proof Hok as (Hp & Hrest).
    split; [apply Hinterp|].
    split; [apply buffer_ok_with_position; [assumption | lia]|].
    cbn [_position _size with_position]. split; [lia | reflexivity].
  - destruct (Hfail eq_refl) as (Hb & Hv). rewrite Hv, Hb.
    split; [assumption|]. split; [assumption|]. split; [lia | reflexivity].
Qed.

Lemma post_value_of {A} (P : A -> Prop) (rd : Cur (bool * A)) :
  cur_post (fun r => P (snd r)) rd -> cur_post P (value_of rd).
Proof.
  intros Hrd. unfold value_of.
  eapply post_bind; [exact Hrd|]. intros [ok v] Hv. apply post_ret. exact Hv.
Qed.

Lemma post_readUint8 : cur_post (fun r => 0 <= snd r < 2 ^ 8) readUint8.
Proof.
  apply (post_of_read_spec 1 le_uint 0 readUint8 (fun v => 0 <= v < 2 ^ 8));
    [lia | | lia |].
  - intros b Hok. apply (readUint8_meets_spec b Hok).
  - intros d off. apply (le_uint_slice_range d off 1). lia.
Qed.

Lemma post_readUint16 : cur_post (fun r => 0 <= snd r < 2 ^ 16) readUint16.
Proof.
  apply (post_of_read_spec 2 le_uint 0 readUint16 (fun v => 0 <= v < 2 ^ 16));
    [lia | | lia |].
  - intros b Hok. apply (readUint16_meets_spec b Hok).
  - intros d off. apply (le_uint_slice_range d off 2). lia.
Qed.

Lemma post_readUint32 : cur_post (fun _ => True) readUint32.
Proof.
  apply (post_of_read_spec 4 le_uint 0 readUint32 (fun _ => True)); auto; [lia|].
  intros b Hok. apply (readUint32_meets_spec b Hok).
Qed.

Lemma post_readInt8 : cur_post (fun _ => True) readInt8.
Proof.
  apply (post_of_read_spec 1 (fun bs => to_int8 (le_uint bs)) 0 readInt8 (fun _ => True));
    auto; [lia|].
  intros b Hok. apply (readInt8_meets_spec b Hok).
Qed.

Lemma post_readInt16 : cur_post (fun _ => True) readInt16.
Proof.
  apply (post_of_read_spec 2 (fun bs => to_int16 (le_uint bs)) 0 readInt16 (fun _ => True));
    auto; [lia|].
  intros b Hok. apply (readInt16_meets_spec b Hok).
Qed.

Lemma post_readInt32 : cur_post (fun _ => True) readInt32.
Proof.
  apply (post_of_read_spec 4 (fun bs => to_int32 (le_uint bs)) 0 readInt32 (fun _ => True));
    auto; [lia|].
  intros b Hok. apply (readInt32_meets_spec b Hok).
Qed.

Lemma post_readFloat : cur_post (fun _ => True) readFloat.
Proof.
  apply (post_of_read_spec 4 (fun bs => F32 (le_uint bs)) fzero readFloat (fun _ => True));
    auto; [lia|].
  intros b Hok. apply (readFloat_meets_spec b Hok).
Qed.

Lemma post_available : cur_post (fun _ => True) available.
Proof.
  intros b Hok. unfold available. cbn [fst snd].
  split; [exact I|]. split; [assumption|]. split; [lia | reflexivity].
Qed.

(** [setPosition(getPosition() + delta)] for a forward [int] skip. *)
Lemma post_skip {B} (Q : B -> Prop) (delta : Z) (k : unit -> Cur B) :
  0 <= delta < 2 ^ 31 - MAX_BUFFER_SIZE ->
  cur_post Q (k tt) ->
  cur_post Q (bind getPosition
                (fun pos => bind (setPosition (wrap_size (pos + to_int32 delta))) k)).
Proof.
  intros Hd Hk b Hok. unfold bind, getPosition, setPosition.
  pose proof Hok as (Hp & Hs & Hc & Hl). unfold MAX_BUFFER_SIZE in *.
  rewrite to_int32_small by lia. unfold wrap_size.
  rewrite to_uint32_small by lia.
  assert (Hok1 : buffer_ok (with_position b (Z.min (_position b + delta) (_size b)))).
  { apply buffer_ok_with_position; [assumption | lia]. }
  destruct (Hk _ Hok1) as (HQ & Hok2 & Hpos2 & Hsz2).
  cbn [_position _size with_position] in *.
  split; [assumption|]. split; [assumption|]. split; [lia | assumption].
Qed.

Lemma post_value_readUint8 : cur_post (fun v => 0 <= v < 2 ^ 8) (value_of readUint8).
Proof. apply (post_value_of (fun v => 0 <= v < 2 ^ 8)). exact post_readUint8. Qed.

Lemma post_value_readUint16 : cur_post (fun v => 0 <= v < 2 ^ 16) (value_of readUint16).
Proof. apply (post_value_of (fun v => 0 <= v < 2 ^ 16)). exact post_readUint16. Qed.

Lemma post_value_readUint32 : cur_post (fun _ => True) (value_of readUint32).
Proof. apply (post_value_of (fun _ => True)). exact post_readUint32. Qed.

Lemma post_value_readInt32 : cur_post (fun _ => True) (value_of readInt32).
Proof. apply (post_value_of (fun _ => True)). exact post_readInt32. Qed.

Lemma post_value_readFloat : cur_post (fun _ => True) (value_of readFloat).
Proof. apply (post_value_of (fun _ => True)). exact post_readFloat. Qed.

Ltac post_step :=
  first
    [ apply post_ret; exact I
    | apply post_skip; [unfold MAX_BUFFER_SIZE; cbv beta in *; lia | cbv beta]
    | eapply post_bind;
      [ first [ apply post_value_readUint8 | apply post_value_readUint16
              | apply post_value_readUint32 | apply post_value_readInt32
              | apply post_value_readFloat ]
      | intros ? ? ] ].

Lemma post_decode_record (float_of_int : Z -> float32)
    (fdiv : float32 -> float32 -> float32) (eid gid timestamp : Z) :
  cur_post (fun _ => True) (decode_record float_of_int fdiv eid gid timestamp).
Proof.
  unfold decode_record.
  repeat match goal with
         | |- cur_post _ (if ?c then _ else _) => destruct c
         end;
    repeat post_step.
Qed.

Lemma post_read_header : cur_post (fun _ => True) read_header.
Proof. unfold read_header. repeat post_step. Qed.

(** With fuel for one iteration per 7 available bytes, the telemetry loop
    leaves through one of its exits. *)
Lemma decodeDataBuf_loop_total (float_of_int : Z -> float32)
    (fdiv : float32 -> float32 -> float32) (offset_undefined : Z -> Z)
    (base_time_sec : Z) (fuel : nat) :
  forall (next_seq : Z) (first_packet : bool) (ret : list DataItem) (br : BytesBuffer),
    buffer_ok br -> _size br - _position br < 7 * Z.of_nat fuel ->
    exists res,
      decodeDataBuf_loop float_of_int fdiv offset_undefined fuel
          base_time_sec next_seq first_packet ret br
      = Some res.
Proof.
  induction fuel as [|fuel IH]; intros next_seq first_packet ret br Hok Hfuel.
  - destruct Hok as (Hp & _). simpl in Hfuel. lia.
  - cbn [decodeDataBuf_loop]. rewrite (available_eq br Hok).
    destruct (Z.geb_spec (_size br - _position br) 7) as [Hge|Hlt];
      [|eexists; reflexivity].
    rewrite (read_header_ok br Hok) by lia.
    assert (Hok1 : buffer_ok (with_position br (_position br + 7))).
    { apply buffer_ok_with_position; [assumption|]. destruct Hok as (Hp & _). lia. }
    match goal with
    | |- context [decode_record _ _ ?e ?g ?t ?b1] =>
      destruct (post_decode_record float_of_int fdiv e g t b1 Hok1)
        as (_ & Hok2 & Hpos2 & Hsz2);
      destruct (decode_record float_of_int fdiv e g t b1) as [[item| |] br2]
    end; cbn [fst snd _position _size with_position] in *.
    + apply IH; [assumption | lia].
    + apply IH; [assumption | lia].
    + eexists; reflexivity.
Qed.

(** [decodeDataBuf] returns on every well-formed buffer. *)
Lemma decodeDataBuf_total (float_of_int : Z -> float32)
    (fdiv : float32 -> float32 -> float32) (offset_undefined : Z -> Z)
    (br : BytesBuffer) (base_time_sec : Z) :
  buffer_ok br ->
  exists res, decodeDataBuf float_of_int fdiv offset_undefined br base_time_sec = Some res.
Proof.
  intros Hok. unfold decodeDataBuf. apply decodeDataBuf_loop_total; [assumption|].
  rewrite (available_eq br Hok). destruct Hok as (Hp & _). lia.
Qed.

Lemma post_decode_entry (vlen last : Z) : cur_post (fun _ => True) (decode_entry vlen last).
Proof.
  unfold decode_entry.
  repeat match goal with
         | |- cur_post _ (if ?c then _ else _) => destruct c
         end;
    try (apply post_ret; exact I).
  - eapply post_bind; [apply post_readUint8|].
    intros [[|] v] _; cbn [negb]; apply post_ret; exact I.
  - eapply post_bind; [apply post_readInt8|].
    intros [[|] v] _; cbn [negb]; apply post_ret; exact I.
  - eapply post_bind; [apply post_readInt16|].
    intros [[|] v] _; cbn [negb]; apply post_ret; exact I.
  - eapply post_bind; [apply post_available|].
    intros avail _. destruct (avail <? 3); [apply post_ret; exact I|].
    eapply post_bind; [apply post_readUint8|].
    intros [[|] a] _; cbn [negb]; [|apply post_ret; exact I].
    eapply post_bind; [apply post_readUint8|].
    intros [[|] b] _; cbn [negb]; [|apply post_ret; exact I].
    eapply post_bind; [apply post_readInt8|].
    intros [[|] c] _; cbn [negb]; apply post_ret; exact I.
  - eapply post_bind; [apply post_readInt32|].
    intros [[|] v] _; cbn [negb]; apply post_ret; exact I.
Qed.

Lemma decode_run_forward (n : nat) (vlen : Z) :
  forall (last : Z) (sp : Spectrum) (br : BytesBuffer),
    buffer_ok br ->
    let br' := snd (decode_run n vlen last sp br) in
    buffer_ok br' /\ _position br <= _position br' /\ _size br' = _size br.
Proof.
  induction n as [|n IH]; intros last sp br Hok.
  - cbn [decode_run snd]. split; [assumption|]. split; [lia | reflexivity].
  - cbn [decode_run].
    destruct (count_size sp <? MAX_CHANNELS);
      [|cbn [snd]; split; [assumption|]; split; [lia | reflexivity]].
    destruct (post_decode_entry vlen last br Hok) as (_ & Hok1 & Hpos1 & Hsz1).
    destruct (decode_entry vlen last br) as [[v| |] br1]; cbn [snd] in *.
    + destruct (IH v (append_count sp v) br1 Hok1) as (Hok2 & Hpos2 & Hsz2).
      split; [assumption|]. split; lia.
    + split; [assumption|]. split; lia.
    + split; [assumption|]. split; lia.
Qed.

(** With fuel for one iteration per 2 available bytes, the run loop of
    format 1 leaves through one of its exits. *)
Lemma decodeCountsV1_loop_total (fuel : nat) :
  forall (last : Z) (sp : Spectrum) (br : BytesBuffer),
    buffer_ok br -> _size br - _position br < 2 * Z.of_nat fuel ->
    exists res, decodeCountsV1_loop fuel last sp br = Some res.
Proof.
  induction fuel as [|fuel IH]; intros last sp br Hok Hfuel.
  - destruct Hok as (Hp & _). simpl in Hfuel. lia.
  - cbn [decodeCountsV1_loop]. rewrite (available_eq br Hok).
    destruct (Z.geb_spec (_size br - _position br) 2) as [Hge|Hlt];
      [|eexists; reflexivity].
    destruct (count_size sp <? MAX_CHANNELS); cbn [andb]; [|eexists; reflexivity].
    rewrite (readUint16_ok br Hok) by lia. cbn [negb].
    assert (Hok1 : buffer_ok (with_position br (_position br + 2))).
    { apply buffer_ok_with_position; [assumption|]. destruct Hok as (Hp & _). lia. }
    match goal with
    | |- context [decode_run ?n ?vl last sp ?b1] =>
      destruct (decode_run_forward n vl last sp b1 Hok1) as (Hok2 & Hpos2 & Hsz2);
      destruct (decode_run n vl last sp b1) as [[[go_on last'] sp'] br2]
    end.
    cbn [snd _position _size with_position] in *.
    destruct go_on; [|eexists; reflexivity].
    apply IH; [assumption | lia].
Qed.

Lemma decodeCountsV1_total (br : BytesBuffer) (sp : Spectrum) :
  buffer_ok br -> exists res, decodeCountsV1 br sp = Some res.
Proof.
  intros Hok. unfold decodeCountsV1.
  destruct (fst (available br) <? 2); [eexists; reflexivity|].
  apply decodeCountsV1_loop_total; [assumption|].
  rewrite (available_eq br Hok). destruct Hok as (Hp & _). lia.
Qed.

Lemma decodeCountsV0_loop_total (fuel : nat) :
  forall (sp : Spectrum) (br : BytesBuffer),
    buffer_ok br -> _size br - _position br < 4 * Z.of_nat fuel ->
    exists res, decodeCountsV0_loop fuel sp br = Some res.
Proof.
  induction fuel as [|fuel IH]; intros sp br Hok Hfuel.
  - destruct Hok as (Hp & _). simpl in Hfuel. lia.
  - cbn [decodeCountsV0_loop]. rewrite (available_eq br Hok).
    destruct (_size br - _position br >? 0); cbn [andb]; [|eexists; reflexivity].
    destruct (Z.geb_spec (_size br - _position br) 4) as [Hge|Hlt]; cbn [andb];
      [|eexists; reflexivity].
    destruct (count_size sp <? MAX_CHANNELS) eqn:Hroom; [|eexists; reflexivity].
    unfold decodeCountsV0_step, bind. rewrite (readUint32_ok br Hok) by lia.
    rewrite Hroom. unfold Cur_ret.
    apply IH.
    + apply buffer_ok_with_position; [assumption|]. destruct Hok as (Hp & _). lia.
    + cbn [_position _size with_position]. lia.
Qed.

Lemma decodeCountsV0_total (br : BytesBuffer) (sp : Spectrum) :
  buffer_ok br -> exists res, decodeCountsV0 br sp = Some res.
Proof.
  intros Hok. unfold decodeCountsV0.
  destruct (fst (available br) <? 4); [eexists; reflexivity|].
  apply decodeCountsV0_loop_total; [assumption|].
  rewrite (available_eq br Hok). destruct Hok as (Hp & _). lia.
Qed.

(** [decodeSpectrum] returns on every well-formed buffer. *)
Lemma decodeSpectrum_total (br : BytesBuffer) (format_version : Z) (sp : Spectrum) :
  buffer_ok br -> exists res, decodeSpectrum br format_version sp = Some res.
Proof.
  intros Hok. unfold decodeSpectrum.
  destruct (fst (available br) <? 4 + 3 * 4); [eexists; reflexivity|].
  destruct (post_readUint32 br Hok) as (_ & Hok1 & _).
  destruct (readUint32 br) as [[[|] duration] br1]; cbn [negb snd] in *;
    [|eexists; reflexivity].
  destruct (post_readFloat br1 Hok1) as (_ & Hok2 & _).
  destruct (readFloat br1) as [[[|] f0] br2]; cbn [negb snd] in *;
    [|eexists; reflexivity].
  destruct (post_readFloat br2 Hok2) as (_ & Hok3 & _).
  destruct (readFloat br2) as [[[|] f1] br3]; cbn [negb snd] in *;
    [|eexists; reflexivity].
  destruct (post_readFloat br3 Hok3) as (_ & Hok4 & _).
  destruct (readFloat br3) as [[[|] f2] br4]; cbn [negb snd] in *;
    [|eexists; reflexivity].
  match goal with
  | |- context [decodeCountsV0 br4 ?sp1] =>
    destruct (decodeCountsV0_total br4 sp1 Hok4) as ([sp0 b0] & E0);
    destruct (decodeCountsV1_total br4 sp1 Hok4) as ([sp1' b1] & E1);
    rewrite E0, E1
  end.
  destruct (format_version =? 0).
  - destruct (count_size sp0 >? MAX_CHANNELS); eexists; reflexivity.
  - destruct (format_version =? 1).
    + destruct (count_size sp1' >? MAX_CHANNELS); eexists; reflexivity.
    + match goal with
      | |- context [if ?c then _ else _] => destruct c
      end; eexists; reflexivity.
Qed.

(** ** The response as the transport delivered it *)

Lemma overwrite_prefix {A} (src d : list A) :
  (List.length src <= List.length d)%nat ->
  overwrite src d = src ++ skipn (List.length src) d.
Proof.
  revert d. induction src as [|x src IH]; intros d Hlen.
  - reflexivity.
  - destruct d as [|y d]; simpl in Hlen; [lia|].
    simpl. f_equal. apply IH. lia.
Qed.

Lemma BytesBuffer_of_data (shared payload : list byte) :
  Z.of_nat (List.length shared) = MAX_BUFFER_SIZE ->
  Z.of_nat (List.length payload) <= MAX_BUFFER_SIZE ->
  firstn (List.length payload) (_fixed_data (BytesBuffer_of shared payload)) = payload.
Proof.
  intros Hsh Hlen. unfold MAX_BUFFER_SIZE in *. unfold BytesBuffer_of.
  destruct (Z.eqb_spec (Z.of_nat (List.length payload)) 0) as [E|_].
  - destruct payload; [reflexivity | simpl in E; lia].
  - unfold MAX_BUFFER_SIZE.
    destruct (Z.gtb_spec (Z.of_nat (List.length payload)) 4096) as [Hbad|_]; [lia|].
    cbn [_fixed_data]. rewrite slice_all. unfold memcpy. change (Z.to_nat 0) with 0%nat.
    rewrite memcpy_at_0, overwrite_prefix by (rewrite memset_zero_length; lia).
    rewrite firstn_app, firstn_all, Nat.sub_diag. cbn [firstn]. apply app_nil_r.
Qed.

Lemma slice_of_prefix {A} (d payload : list A) (off n : Z) :
  firstn (List.length payload) d = payload ->
  0 <= off -> 0 <= n -> off + n <= Z.of_nat (List.length payload) ->
  slice d off n = slice payload off n.
Proof.
  intros Hpre Hoff Hn Hfit. unfold slice.
  rewrite <- (firstn_skipn (List.length payload) d) at 1. rewrite Hpre.
  rewrite skipn_app.
  replace (Z.to_nat off - List.length payload)%nat with 0%nat by lia.
  cbn [skipn]. rewrite firstn_app.
  replace (Z.to_nat n - List.length (skipn (Z.to_nat off) payload))%nat with 0%nat
    by (rewrite length_skipn; lia).
  cbn [firstn]. apply app_nil_r.
Qed.

(** On a live connection the cursor [execute] returns spans the bytes the
    transport delivered for this request, and stands after the echoed
    header. *)
Lemma execute_payload (link : list (list byte) -> list byte) (rc : RadiaCode)
    (sent : list (list byte)) (shared : list byte) (reqtype : Z) (args : list byte) :
  _connection rc = Some sent ->
  Z.of_nat (List.length shared) = MAX_BUFFER_SIZE ->
  let payload := link (full_request_of (_seq rc) reqtype args :: sent) in
  let r := snd (execute link rc shared reqtype args) in
  Z.of_nat (List.length payload) <= MAX_BUFFER_SIZE ->
  _size r = Z.of_nat (List.length payload) /\
  firstn (List.length payload) (_fixed_data r) = payload.
Proof.
  intros Hc Hsh payload r Hlen. subst r. unfold execute. rewrite Hc. fold payload.
  pose proof (buffer_ok_of shared payload Hsh) as Hok.
  pose proof (readBytes_shape (BytesBuffer_of shared payload) 4 Hok ltac:(lia)) as Hrd.
  destruct (readBytes 4 (BytesBuffer_of shared payload)) as [hdr resp].
  cbn [snd] in *. subst resp. cbn [_size _fixed_data with_position].
  rewrite BytesBuffer_of_size. split; [lia|].
  apply BytesBuffer_of_data; assumption.
Qed.

(** The validity bitmask [batchReadVSFRs] compares is the little-endian
    value of bytes 4 to 7 of the response, right after the echoed header. *)
Lemma batch_valid_flags_bytes (link : list (list byte) -> list byte) (rc : RadiaCode)
    (sent : list (list byte)) (shared : list byte) (args : list byte) :
  _connection rc = Some sent ->
  Z.of_nat (List.length shared) = MAX_BUFFER_SIZE ->
  let payload := link (full_request_of (_seq rc) RD_VIRT_SFR_BATCH args :: sent) in
  let r := snd (execute link rc shared RD_VIRT_SFR_BATCH args) in
  8 <= Z.of_nat (List.length payload) <= MAX_BUFFER_SIZE ->
  snd (fst (readUint32 r)) = le_uint (slice payload 4 4).
Proof.
  intros Hc Hsh payload r Hlen.
  destruct (execute_response link rc shared RD_VIRT_SFR_BATCH args Hsh) as (Hok & Hpos).
  destruct (execute_payload link rc sent shared RD_VIRT_SFR_BATCH args Hc Hsh
              ltac:(fold payload; lia)) as (Hsz & Hdata).
  fold r in Hok, Hpos, Hsz, Hdata. fold payload in Hsz, Hdata.
  assert (Hp4 : _position r = 4) by lia.
  rewrite (readUint32_ok r Hok) by lia. cbn [fst snd]. rewrite Hp4.
  f_equal. apply slice_of_prefix; [assumption | lia | lia | lia].
Qed.

(** ** From the reassembled frame to the response cursor *)

Lemma slice_padded_body (body : list byte) :
  slice (padded (frame_of body)) 4 (Z.of_nat (List.length body)) = body.
Proof.
  unfold slice, padded, frame_of. rewrite Nat2Z.id.
  change (Z.to_nat 4) with 4%nat.
  rewrite <- !app_assoc. cbn [le32_bytes app skipn].
  rewrite firstn_app, firstn_all, Nat.sub_diag. cbn [firstn]. apply app_nil_r.
Qed.

(** Once a frame that fits has been reassembled, [BluetoothTransport::execute]
    hands back a cursor over exactly its body. *)
Lemma response_of_reassembled (shared body : list byte) :
  Z.of_nat (List.length shared) = MAX_BUFFER_SIZE ->
  Z.of_nat (List.length body) + 4 <= MAX_RESP_SIZE ->
  let N := Z.of_nat (List.length body) in
  let r := response_of shared
             (mkBluetoothTransport (padded (frame_of body)) (N + 4) (N + 4) true) in
  buffer_ok r /\ _size r = N /\ _position r = 0 /\
  firstn (List.length body) (_fixed_data r) = body.
Proof.
  intros Hsh Hfit N r. unfold MAX_RESP_SIZE, MAX_BUFFER_SIZE in *.
  subst r. unfold response_of.
  cbn [_response_ready _resp_received _resp_buffer negb].
  destruct (Z.geb_spec (N + 4) 4) as [_|Hbad]; [|subst N; lia].
  unfold wrap_size, MAX_RESP_SIZE, MAX_BUFFER_SIZE.
  replace (N + 4 - 4) with N by lia.
  rewrite (to_uint32_small N) by (subst N; lia).
  destruct (Z.gtb_spec N (4096 - 4)) as [Hbad|_]; [lia|].
  destruct (Z.gtb_spec N 4096) as [Hbad|_]; [lia|].
  subst N. rewrite slice_padded_body.
  assert (Hst : Z.of_nat (List.length (_fixed_data (BytesBuffer_new shared)))
                = MAX_BUFFER_SIZE).
  { cbn [_fixed_data BytesBuffer_new]. rewrite memset_zero_length. exact Hsh. }
  pose proof (buffer_ok_of _ body Hst) as Hok.
  pose proof (BytesBuffer_of_size (_fixed_data (BytesBuffer_new shared)) body) as Hsz.
  pose proof (BytesBuffer_of_data _ body Hst ltac:(unfold MAX_BUFFER_SIZE; lia)) as Hdata.
  set (tmp := BytesBuffer_of (_fixed_data (BytesBuffer_new shared)) body) in *.
  assert (Hp0 : _position tmp = 0).
  { subst tmp. unfold BytesBuffer_of.
    destruct (Z.of_nat (List.length body) =? 0); reflexivity. }
  destruct Hok as (Hp & Hs & Hc & Hl).
  unfold BytesBuffer_copy, buffer_ok. cbn [_position _size _capacity _fixed_data].
  unfold MAX_BUFFER_SIZE in *.
  split; [repeat split; lia|]. split; [lia|]. split; assumption.
Qed.

(* ================================================================== *)
(** * Part III: further properties of the code                         *)
(* ================================================================== *)

(** ** Arrays: reading back what was written *)

Lemma nth_memcpy_at_single {A} (dflt : A) (d : list A) (i j : nat) (v : A) :
  (i < List.length d)%nat ->
  nth j (memcpy_at d i [v]) dflt = if Nat.eqb j i then v else nth j d dflt.
Proof.
  revert d j. induction i as [|i IH]; intros d j Hi.
  - destruct d as [|x d]; simpl in Hi; [lia|].
    destruct j; reflexivity.
  - destruct d as [|x d]; simpl in Hi; [lia|].
    destruct j as [|j]; [reflexivity|].
    cbn [memcpy_at nth]. rewrite IH by lia. reflexivity.
Qed.

Lemma load_poke {A} (dflt : A) (d : list A) (i j : Z) (v : A) :
  0 <= i < Z.of_nat (List.length d) -> 0 <= j ->
  load dflt (poke d i v) j = if j =? i then v else load dflt d j.
Proof.
  intros Hi Hj. unfold load, poke, memcpy.
  rewrite nth_memcpy_at_single by lia.
  destruct (Nat.eqb_spec (Z.to_nat j) (Z.to_nat i)), (Z.eqb_spec j i);
    try reflexivity; lia.
Qed.

Lemma poke_length {A} (d : list A) (i : Z) (v : A) :
  List.length (poke d i v) = List.length d.
Proof. apply memcpy_length. Qed.

Lemma firstn_skipn_memcpy_at {A} (d : list A) (off : nat) (src : list A) :
  (off + List.length src <= List.length d)%nat ->
  firstn (List.length src) (skipn off (memcpy_at d off src)) = src.
Proof.
  revert d. induction off as [|k IH]; intros d Hfit.
  - rewrite memcpy_at_0, overwrite_prefix by lia. cbn [skipn].
    rewrite firstn_app, firstn_all, Nat.sub_diag. cbn [firstn]. apply app_nil_r.
  - destruct d as [|x d]; simpl in Hfit; [lia|].
    cbn [memcpy_at skipn]. apply IH. lia.
Qed.

Lemma slice_memcpy {A} (d : list A) (off : Z) (src : list A) :
  0 <= off -> off + Z.of_nat (List.length src) <= Z.of_nat (List.length d) ->
  slice (memcpy d off src) off (Z.of_nat (List.length src)) = src.
Proof.
  intros Hoff Hfit. unfold slice, memcpy. rewrite Nat2Z.id.
  apply firstn_skipn_memcpy_at. lia.
Qed.

Lemma memcpy_at_cons {A} (d : list A) (i : nat) (c : A) (cs : list A) :
  (i < List.length d)%nat ->
  memcpy_at (memcpy_at d i [c]) (S i) cs = memcpy_at d i (c :: cs).
Proof.
  revert d. induction i as [|i IH]; intros d Hi.
  - destruct d as [|x d]; simpl in Hi; [lia|].
    cbn [memcpy_at overwrite]. destruct cs; rewrite ?memcpy_at_0; reflexivity.
  - destruct d as [|x d]; simpl in Hi; [lia|].
    cbn [memcpy_at]. f_equal. apply IH. lia.
Qed.

Lemma slice_length {A} (d : list A) (off n : Z) :
  0 <= off -> 0 <= n -> off + n <= Z.of_nat (List.length d) ->
  Z.of_nat (List.length (slice d off n)) = n.
Proof.
  intros Hoff Hn Hfit. unfold slice. rewrite length_firstn, length_skipn. lia.
Qed.

Lemma byte_of_land_255 (x : Z) : byte_of (Z.land x 255) = byte_of x.
Proof.
  unfold byte_of. change 255 with (Z.ones 8). rewrite Z.land_ones by lia.
  rewrite Z.mod_mod by discriminate. reflexivity.
Qed.

Lemma le_uint_le32_bytes (n : Z) : 0 <= n < 2 ^ 32 -> le_uint (le32_bytes n) = n.
Proof.
  intros Hn. unfold le32_bytes. cbn [le_uint]. rewrite !u8_byte_of.
  rewrite !Z.shiftr_div_pow2 by lia.
  change (2 ^ 8) with 256. change (2 ^ 16) with 65536. change (2 ^ 24) with 16777216.
  change (2 ^ 32) with 4294967296 in Hn.
  pose proof (Z.div_mod n 256 ltac:(lia)).
  pose proof (Z.div_mod (n / 256) 256 ltac:(lia)).
  pose proof (Z.div_mod (n / 65536) 256 ltac:(lia)).
  assert (n / 65536 = n / 256 / 256) by (rewrite Z.div_div by lia; reflexivity).
  assert (n / 16777216 = n / 65536 / 256) by (rewrite Z.div_div by lia; reflexivity).
  assert (n / 16777216 < 256) by (apply Z.div_lt_upper_bound; lia).
  assert (0 <= n / 16777216) by (apply Z.div_pos; lia).
  rewrite (Z.mod_small (n / 16777216) 256) by lia.
  lia.
Qed.

(** ** BytesBuffer: the invariant along any run of calls *)

(** X1. A buffer made by either constructor satisfies
    [position <= size <= capacity], and the invariant survives every
    sequence of public calls in which [setSize] is not asked for more than
    the capacity. *)
Theorem BytesBuffer_invariant_along_calls (shared data : list byte)
    (ops : list BufferOp) :
  Z.of_nat (List.length shared) = MAX_BUFFER_SIZE ->
  Forall BufferOp_within_capacity ops ->
  buffer_ok (fold_left (fun b o => BufferOp_run o b) ops (BytesBuffer_new shared)) /\
  buffer_ok (fold_left (fun b o => BufferOp_run o b) ops (BytesBuffer_of shared data)).
Proof.
  intros Hsh Hops.
  assert (Hrun : forall b, buffer_ok b ->
            buffer_ok (fold_left (fun b o => BufferOp_run o b) ops b)).
  { induction Hops as [|o ops Ho Hrest IH]; intros b Hb.
    - exact Hb.
    - cbn [fold_left]. apply IH. apply BufferOp_keeps_invariant; assumption. }
  split; apply Hrun; [apply buffer_ok_new | apply buffer_ok_of]; assumption.
Qed.

Lemma BytesBuffer_invariant_along_calls_witness :
  let ops := [CallWriteUint32 0x01020304; CallWriteString [x41; x42]; CallReset;
              CallReadUint16; CallSetSize 3; CallReadUint32; CallSetPosition 9] in
  buffer_ok (fold_left (fun b o => BufferOp_run o b) ops (BytesBuffer_new _shared_buffer0)) /\
  buffer_ok (fold_left (fun b o => BufferOp_run o b) ops
               (BytesBuffer_of _shared_buffer0 [x01; x02])).
Proof.
  intros ops.
  apply (BytesBuffer_invariant_along_calls _shared_buffer0 [x01; x02] ops).
  - vm_compute. reflexivity.
  - repeat constructor; vm_compute; intuition discriminate.
Defined.

(** ** BytesBuffer: write, then read back *)

Lemma bump_eq (b : BytesBuffer) (d : list byte) (w : Z) :
  buffer_ok b -> 0 <= w -> _position b + w <= MAX_BUFFER_SIZE ->
  bump (with_data b d) w
  = mkBytesBuffer d (Z.max (_size b) (_position b + w)) (_capacity b) (_position b + w).
Proof.
  intros (Hp & Hs & Hc & Hl) Hw Hfit. unfold MAX_BUFFER_SIZE in *.
  unfold bump, advance, wrap_size.
  cbn [_position _size _capacity _fixed_data with_data with_position].
  rewrite to_uint32_small by lia.
  destruct (Z.gtb_spec (_position b + w) (_size b));
    unfold with_size, with_position, with_data;
    cbn [_position _size _capacity _fixed_data]; f_equal; lia.
Qed.

(** Rewinding to where a write of [w] bytes started. *)
Lemma rewind_after_write (b : BytesBuffer) (d : list byte) (w : Z) :
  buffer_ok b -> List.length d = List.length (_fixed_data b) ->
  0 <= w -> _position b + w <= MAX_BUFFER_SIZE ->
  let b' := snd (setPosition (_position b) (bump (with_data b d) w)) in
  buffer_ok b' /\ _position b' = _position b /\ _position b' + w <= _size b' /\
  _fixed_data b' = d.
Proof.
  intros Hok Hd Hw Hfit b'. subst b'. rewrite bump_eq by assumption.
  destruct Hok as (Hp & Hs & Hc & Hl). unfold MAX_BUFFER_SIZE in *.
  unfold setPosition, buffer_ok.
  cbn [snd _position _size _capacity _fixed_data with_position].
  rewrite Hd. unfold MAX_BUFFER_SIZE. repeat split; lia.
Qed.

Lemma slice_4_pokes (d : list byte) (p : Z) (c0 c1 c2 c3 : byte) :
  0 <= p -> p + 4 <= Z.of_nat (List.length d) ->
  slice (poke (poke (poke (poke d p c0) (p + 1) c1) (p + 2) c2) (p + 3) c3) p 4
  = [c0; c1; c2; c3].
Proof.
  intros Hp Hfit.
  set (d4 := poke (poke (poke (poke d p c0) (p + 1) c1) (p + 2) c2) (p + 3) c3).
  assert (Hlen : List.length d4 = List.length d)
    by (unfold d4; rewrite !poke_length; reflexivity).
  rewrite (slice_cons x00) by lia. rewrite (slice_cons x00) by lia.
  rewrite (slice_cons x00) by lia. rewrite (slice_cons x00) by lia.
  change (slice d4 (p + 1 + 1 + 1 + 1) (4 - 1 - 1 - 1 - 1)) with (@nil byte).
  replace (p + 1 + 1 + 1) with (p + 3) by lia. replace (p + 1 + 1) with (p + 2) by lia.
  unfold d4.
  repeat (rewrite load_poke by (rewrite ?poke_length; lia)).
  repeat match goal with
         | |- context [?a =? ?b] => destruct (Z.eqb_spec a b); try lia
         end.
  reflexivity.
Qed.

Lemma slice_2_pokes (d : list byte) (p : Z) (c0 c1 : byte) :
  0 <= p -> p + 2 <= Z.of_nat (List.length d) ->
  slice (poke (poke d p c0) (p + 1) c1) p 2 = [c0; c1].
Proof.
  intros Hp Hfit.
  set (d2 := poke (poke d p c0) (p + 1) c1).
  assert (Hlen : List.length d2 = List.length d)
    by (unfold d2; rewrite !poke_length; reflexivity).
  rewrite (slice_cons x00) by lia. rewrite (slice_cons x00) by lia.
  change (slice d2 (p + 1 + 1) (2 - 1 - 1)) with (@nil byte).
  unfold d2.
  repeat (rewrite load_poke by (rewrite ?poke_length; lia)).
  repeat match goal with
         | |- context [?a =? ?b] => destruct (Z.eqb_spec a b); try lia
         end.
  reflexivity.
Qed.

Lemma writeUint32_bytes (b : BytesBuffer) (v : Z) :
  buffer_ok b -> _position b + 4 <= MAX_BUFFER_SIZE ->
  exists d,
    writeUint32 v b = (true, bump (with_data b d) 4) /\
    List.length d = List.length (_fixed_data b) /\
    slice d (_position b) 4 = le32_bytes v.
Proof.
  intros Hok Hfit. pose proof Hok as (Hp & Hs & Hc & Hl). unfold MAX_BUFFER_SIZE in *.
  unfold writeUint32. rewrite ensureCapacity_eq by (assumption || (unfold MAX_BUFFER_SIZE; lia)).
  unfold MAX_BUFFER_SIZE.
  destruct (Z.leb_spec (_position b + 4) 4096) as [_|Hbad]; [|lia]. cbn [negb].
  eexists. split; [reflexivity|]. split.
  - rewrite !poke_length. reflexivity.
  - rewrite slice_4_pokes by lia. unfold le32_bytes.
    rewrite !byte_of_land_255. reflexivity.
Qed.

Lemma writeUint16_bytes (b : BytesBuffer) (v : Z) :
  buffer_ok b -> _position b + 2 <= MAX_BUFFER_SIZE ->
  exists d,
    writeUint16 v b = (true, bump (with_data b d) 2) /\
    List.length d = List.length (_fixed_data b) /\
    slice d (_position b) 2 = [byte_of v; byte_of (Z.shiftr v 8)].
Proof.
  intros Hok Hfit. pose proof Hok as (Hp & Hs & Hc & Hl). unfold MAX_BUFFER_SIZE in *.
  unfold writeUint16. rewrite ensureCapacity_eq by (assumption || (unfold MAX_BUFFER_SIZE; lia)).
  unfold MAX_BUFFER_SIZE.
  destruct (Z.leb_spec (_position b + 2) 4096) as [_|Hbad]; [|lia]. cbn [negb].
  eexists. split; [reflexivity|]. split.
  - rewrite !poke_length. reflexivity.
  - rewrite slice_2_pokes by lia. rewrite !byte_of_land_255. reflexivity.
Qed.

Lemma writeUint8_bytes (b : BytesBuffer) (v : Z) :
  buffer_ok b -> _position b + 1 <= MAX_BUFFER_SIZE ->
  exists d,
    writeUint8 v b = (true, bump (with_data b d) 1) /\
    List.length d = List.length (_fixed_data b) /\
    slice d (_position b) 1 = [byte_of v].
Proof.
  intros Hok Hfit. pose proof Hok as (Hp & Hs & Hc & Hl). unfold MAX_BUFFER_SIZE in *.
  unfold writeUint8. rewrite ensureCapacity_eq by (assumption || (unfold MAX_BUFFER_SIZE; lia)).
  unfold MAX_BUFFER_SIZE.
  destruct (Z.leb_spec (_position b + 1) 4096) as [_|Hbad]; [|lia]. cbn [negb].
  eexists. split; [reflexivity|]. split.
  - rewrite poke_length. reflexivity.
  - unfold poke. apply (slice_memcpy (_fixed_data b) (_position b) [byte_of v]);
      cbn [List.length]; lia.
Qed.

Lemma le_uint_2_bytes (v : Z) :
  0 <= v < 2 ^ 16 -> le_uint [byte_of v; byte_of (Z.shiftr v 8)] = v.
Proof.
  intros Hv. cbn [le_uint]. rewrite !u8_byte_of, Z.shiftr_div_pow2 by lia.
  change (2 ^ 8) with 256. change (2 ^ 16) with 65536 in Hv.
  pose proof (Z.div_mod v 256 ltac:(lia)).
  assert (v / 256 < 256) by (apply Z.div_lt_upper_bound; lia).
  assert (0 <= v / 256) by (apply Z.div_pos; lia).
  rewrite (Z.mod_small (v / 256) 256) by lia. lia.
Qed.

(** X2. Little-endian symmetry of the unsigned accessors: a [writeUintN]
    that fits the capacity succeeds, puts the value's bytes on the wire
    least significant first, and after [setPosition] back to where the write
    started [readUintN] returns the value written. *)
Theorem write_read_unsigned_roundtrip (b : BytesBuffer) (v : Z) :
  buffer_ok b ->
  let p := _position b in
  (0 <= v < 2 ^ 32 -> p + 4 <= MAX_BUFFER_SIZE ->
     let w := writeUint32 v b in
     fst w = true /\ slice (_fixed_data (snd w)) p 4 = le32_bytes v /\
     fst (readUint32 (snd (setPosition p (snd w)))) = (true, v)) /\
  (0 <= v < 2 ^ 16 -> p + 2 <= MAX_BUFFER_SIZE ->
     let w := writeUint16 v b in
     fst w = true /\
     slice (_fixed_data (snd w)) p 2 = [byte_of v; byte_of (Z.shiftr v 8)] /\
     fst (readUint16 (snd (setPosition p (snd w)))) = (true, v)) /\
  (0 <= v < 2 ^ 8 -> p + 1 <= MAX_BUFFER_SIZE ->
     let w := writeUint8 v b in
     fst w = true /\ slice (_fixed_data (snd w)) p 1 = [byte_of v] /\
     fst (readUint8 (snd (setPosition p (snd w)))) = (true, v)).
Proof.
  intros Hok p. split; [|split]; intros Hv Hfit w; subst w p.
  - destruct (writeUint32_bytes b v Hok Hfit) as (d & -> & Hd & Hsl). cbn [fst snd].
    destruct (rewind_after_write b d 4 Hok Hd ltac:(lia) Hfit) as (Hok' & Hp' & Hin & Hdata).
    split; [reflexivity|]. split.
    + rewrite bump_eq by (assumption || lia). exact Hsl.
    + rewrite (readUint32_ok _ Hok' Hin). cbn [fst].
      rewrite Hdata, Hp', Hsl, le_uint_le32_bytes by assumption. reflexivity.
  - destruct (writeUint16_bytes b v Hok Hfit) as (d & -> & Hd & Hsl). cbn [fst snd].
    destruct (rewind_after_write b d 2 Hok Hd ltac:(lia) Hfit) as (Hok' & Hp' & Hin & Hdata).
    split; [reflexivity|]. split.
    + rewrite bump_eq by (assumption || lia). exact Hsl.
    + rewrite (readUint16_ok _ Hok' Hin). cbn [fst].
      rewrite Hdata, Hp', Hsl, le_uint_2_bytes by assumption. reflexivity.
  - destruct (writeUint8_bytes b v Hok Hfit) as (d & -> & Hd & Hsl). cbn [fst snd].
    destruct (rewind_after_write b d 1 Hok Hd ltac:(lia) Hfit) as (Hok' & Hp' & Hin & Hdata).
    split; [reflexivity|]. split.
    + rewrite bump_eq by (assumption || lia). exact Hsl.
    + rewrite (readUint8_ok _ Hok' Hin). cbn [fst].
      rewrite Hdata, Hp', Hsl. cbn [le_uint]. rewrite u8_byte_of.
      rewrite Z.mod_small by lia. f_equal. lia.
Qed.

Lemma write_read_unsigned_roundtrip_witness :
  let b := BytesBuffer_new _shared_buffer0 in
  let w := writeUint32 0x01020304 b in
  fst w = true /\
  slice (_fixed_data (snd w)) 0 4 = [x04; x03; x02; x01] /\
  fst (readUint32 (snd (setPosition 0 (snd w)))) = (true, 0x01020304).
Proof.
  intros b w.
  apply (proj1 (write_read_unsigned_roundtrip b 0x01020304
                  ltac:(unfold buffer_ok; vm_compute; intuition discriminate))).
  - vm_compute. intuition discriminate.
  - vm_compute. discriminate.
Defined.

Lemma to_signed_of_wrapped (w v : Z) :
  0 < w -> - 2 ^ (w - 1) <= v < 2 ^ (w - 1) -> to_signed w (v mod 2 ^ w) = v.
Proof.
  intros Hw Hv. rewrite to_signed_mod by lia. unfold to_signed.
  assert (Hp : 2 ^ w = 2 * 2 ^ (w - 1)).
  { replace w with (Z.succ (w - 1)) at 1 by lia. apply Z.pow_succ_r. lia. }
  assert (Hpos : 0 < 2 ^ (w - 1)) by (apply Z.pow_pos_nonneg; lia).
  destruct (Z.lt_ge_cases v 0) as [Hneg|Hnn].
  - assert (E : v mod 2 ^ w = v + 2 ^ w).
    { symmetry. apply (Z.mod_unique v (2 ^ w) (-1)); lia. }
    rewrite E. destruct (Z.ltb_spec (v + 2 ^ w) (2 ^ (w - 1))); lia.
  - rewrite Z.mod_small by lia.
    destruct (Z.ltb_spec v (2 ^ (w - 1))); lia.
Qed.

Lemma writeFloat_bytes (b : BytesBuffer) (f : float32) :
  buffer_ok b -> _position b + 4 <= MAX_BUFFER_SIZE ->
  exists d,
    writeFloat f b = (true, bump (with_data b d) 4) /\
    List.length d = List.length (_fixed_data b) /\
    slice d (_position b) 4 = le32_bytes (float_bits f).
Proof.
  intros Hok Hfit. pose proof Hok as (Hp & Hs & Hc & Hl). unfold MAX_BUFFER_SIZE in *.
  unfold writeFloat. rewrite ensureCapacity_eq by (assumption || (unfold MAX_BUFFER_SIZE; lia)).
  unfold MAX_BUFFER_SIZE.
  destruct (Z.leb_spec (_position b + 4) 4096) as [_|Hbad]; [|lia]. cbn [negb].
  eexists. split; [reflexivity|]. split.
  - apply memcpy_length.
  - apply (slice_memcpy (_fixed_data b) (_position b) (le32_bytes (float_bits f)));
      cbn [le32_bytes List.length]; lia.
Qed.

(** X3. The signed and float accessors are symmetric too: a value of the
    type's range written with [writeIntN] is read back unchanged by
    [readIntN] (two's complement on the wire), and [readFloat] returns the
    bit pattern [writeFloat] stored. *)
Theorem write_read_signed_float_roundtrip (b : BytesBuffer) (v : Z) :
  buffer_ok b ->
  let p := _position b in
  (- 2 ^ 31 <= v < 2 ^ 31 -> p + 4 <= MAX_BUFFER_SIZE ->
     fst (readInt32 (snd (setPosition p (snd (writeInt32 v b))))) = (true, v)) /\
  (- 2 ^ 15 <= v < 2 ^ 15 -> p + 2 <= MAX_BUFFER_SIZE ->
     fst (readInt16 (snd (setPosition p (snd (writeInt16 v b))))) = (true, v)) /\
  (- 2 ^ 7 <= v < 2 ^ 7 -> p + 1 <= MAX_BUFFER_SIZE ->
     fst (readInt8 (snd (setPosition p (snd (writeInt8 v b))))) = (true, v)) /\
  (0 <= v < 2 ^ 32 -> p + 4 <= MAX_BUFFER_SIZE ->
     fst (readFloat (snd (setPosition p (snd (writeFloat (F32 v) b))))) = (true, F32 v)).
Proof.
  intros Hok p. split; [|split; [|split]]; intros Hv Hfit; subst p.
  - unfold writeInt32.
    assert (Hu : 0 <= to_uint32 v < 2 ^ 32) by (apply Z.mod_pos_bound; lia).
    destruct (writeUint32_bytes b (to_uint32 v) Hok Hfit) as (d & -> & Hd & Hsl).
    cbn [snd].
    destruct (rewind_after_write b d 4 Hok Hd ltac:(lia) Hfit) as (Hok' & Hp' & Hin & Hdata).
    rewrite (readInt32_ok _ Hok' Hin). cbn [fst].
    rewrite Hdata, Hp', Hsl, le_uint_le32_bytes by assumption.
    f_equal. apply (to_signed_of_wrapped 32); [lia | exact Hv].
  - unfold writeInt16.
    assert (Hu : 0 <= to_uint16 v < 2 ^ 16) by (apply Z.mod_pos_bound; lia).
    destruct (writeUint16_bytes b (to_uint16 v) Hok Hfit) as (d & -> & Hd & Hsl).
    cbn [snd].
    destruct (rewind_after_write b d 2 Hok Hd ltac:(lia) Hfit) as (Hok' & Hp' & Hin & Hdata).
    rewrite (readInt16_ok _ Hok' Hin). cbn [fst].
    rewrite Hdata, Hp', Hsl, le_uint_2_bytes by assumption.
    f_equal. apply (to_signed_of_wrapped 16); [lia | exact Hv].
  - unfold writeInt8.
    assert (Hu : 0 <= to_uint8 v < 2 ^ 8) by (apply Z.mod_pos_bound; lia).
    destruct (writeUint8_bytes b (to_uint8 v) Hok Hfit) as (d & -> & Hd & Hsl).
    cbn [snd].
    destruct (rewind_after_write b d 1 Hok Hd ltac:(lia) Hfit) as (Hok' & Hp' & Hin & Hdata).
    rewrite (readInt8_ok _ Hok' Hin). cbn [fst].
    rewrite Hdata, Hp', Hsl. cbn [le_uint]. rewrite u8_byte_of.
    rewrite Z.mod_small by lia. rewrite Z.mul_0_r, Z.add_0_r.
    f_equal. apply (to_signed_of_wrapped 8); [lia | exact Hv].
  - destruct (writeFloat_bytes b (F32 v) Hok Hfit) as (d & -> & Hd & Hsl).
    cbn [snd].
    destruct (rewind_after_write b d 4 Hok Hd ltac:(lia) Hfit) as (Hok' & Hp' & Hin & Hdata).
    rewrite (readFloat_ok _ Hok' Hin). cbn [fst].
    rewrite Hdata, Hp', Hsl. cbn [float_bits].
    rewrite le_uint_le32_bytes by assumption. reflexivity.
Qed.

Lemma write_read_signed_float_roundtrip_witness :
  let b := BytesBuffer_of _shared_buffer0 [x01; x02; x03] in
  fst (readInt32 (snd (setPosition 0 (snd (writeInt32 (-2) b))))) = (true, -2).
Proof.
  intros b.
  apply (proj1 (write_read_signed_float_roundtrip b (-2)
                  ltac:(unfold buffer_ok; vm_compute; intuition discriminate))).
  - vm_compute. intuition discriminate.
  - vm_compute. discriminate.
Defined.

(** ** BytesBuffer: writes that do not fit *)

(** X4. A write that would pass the fixed capacity fails without any
    effect, as long as position plus length stays below 2^32: the typed
    writers and [writeFloat] return false, [writeBytes] returns 0, and the
    buffer (bytes, size and position) is what it was.  For the typed writers
    the sum is always below 2^32; for [writeBytes] it is a condition, since
    [ensureCapacity] adds position and length as [size_t]: when the sum
    reaches 2^32 it wraps around and the check returns true. *)
Theorem write_beyond_capacity_has_no_effect (b : BytesBuffer) (v : Z) (f : float32)
    (buffer : list byte) :
  buffer_ok b ->
  let p := _position b in
  let length := Z.of_nat (List.length buffer) in
  (MAX_BUFFER_SIZE < p + 1 -> writeUint8 v b = (false, b) /\ writeInt8 v b = (false, b)) /\
  (MAX_BUFFER_SIZE < p + 2 -> writeUint16 v b = (false, b) /\ writeInt16 v b = (false, b)) /\
  (MAX_BUFFER_SIZE < p + 4 ->
     writeUint32 v b = (false, b) /\ writeInt32 v b = (false, b) /\
     writeFloat f b = (false, b)) /\
  (MAX_BUFFER_SIZE < p + length < 2 ^ 32 -> writeBytes buffer b = (0, b)) /\
  (forall additionalBytes, 0 <= additionalBytes < 2 ^ 32 -> 2 ^ 32 <= p + additionalBytes ->
     ensureCapacity additionalBytes b = (true, b)).
Proof.
  intros Hok p length. subst p length.
  assert (Hno : forall k, 0 <= k -> MAX_BUFFER_SIZE < _position b + k < 2 ^ 32 ->
            negb (fst (ensureCapacity k b)) = true).
  { intros k Hk Hover. unfold ensureCapacity, wrap_size, to_uint32. cbn [fst].
    destruct Hok as (Hp & Hs & Hc & _). rewrite Hc.
    rewrite Z.mod_small by lia.
    destruct (Z.leb_spec (_position b + k) MAX_BUFFER_SIZE); [lia | reflexivity]. }
  assert (Hp : 0 <= _position b <= MAX_BUFFER_SIZE)
    by (destruct Hok as (Hp & Hs & Hc & _); lia).
  split; [|split; [|split; [|split]]].
  - intros H. unfold writeInt8, writeUint8.
    rewrite (Hno 1) by (unfold MAX_BUFFER_SIZE in *; lia). split; reflexivity.
  - intros H. unfold writeInt16, writeUint16.
    rewrite (Hno 2) by (unfold MAX_BUFFER_SIZE in *; lia). split; reflexivity.
  - intros H. unfold writeInt32, writeUint32, writeFloat.
    rewrite (Hno 4) by (unfold MAX_BUFFER_SIZE in *; lia). repeat split; reflexivity.
  - intros H. unfold writeBytes.
    rewrite (Hno (Z.of_nat (List.length buffer))) by lia. reflexivity.
  - intros n Hn Hwrap. unfold ensureCapacity, wrap_size, to_uint32.
    destruct Hok as (_ & _ & Hc & _). rewrite Hc.
    replace ((_position b + n) mod 2 ^ 32) with (_position b + n - 2 ^ 32).
    + destruct (Z.leb_spec (_position b + n - 2 ^ 32) MAX_BUFFER_SIZE);
        [reflexivity | unfold MAX_BUFFER_SIZE in *; lia].
    + apply (Z.mod_unique _ _ 1); unfold MAX_BUFFER_SIZE in *; lia.
Qed.

Lemma write_beyond_capacity_has_no_effect_witness :
  let b := snd (setPosition 4094 (snd (setSize 4096 (BytesBuffer_new _shared_buffer0)))) in
  (writeUint32 7 b = (false, b) /\ writeInt32 7 b = (false, b) /\
   writeFloat fzero b = (false, b)) /\
  writeBytes [x01; x02; x03] b = (0, b) /\
  ensureCapacity (2 ^ 32 - 1) b = (true, b).
Proof.
  intros b.
  pose proof (write_beyond_capacity_has_no_effect b 7 fzero [x01; x02; x03]
                ltac:(unfold buffer_ok; vm_compute; intuition discriminate))
    as (_ & _ & H4 & Hbytes & Hwrap).
  split; [apply H4; vm_compute; reflexivity|].
  split; [apply Hbytes; vm_compute; split; reflexivity|].
  apply (Hwrap (2 ^ 32 - 1)).
  - vm_compute. split; [discriminate | reflexivity].
  - vm_compute. discriminate.
Defined.

(** ** BytesBuffer: bulk reads *)

Lemma readBytes_value (b : BytesBuffer) (length : Z) :
  buffer_ok b -> 0 <= length ->
  fst (readBytes length b)
  = slice (_fixed_data b) (_position b) (Z.min length (_size b - _position b)).
Proof.
  intros (Hp & Hs & Hc & Hl) Hlen. unfold MAX_BUFFER_SIZE in *.
  unfold readBytes, wrap_size.
  rewrite (to_uint32_small (_size b - _position b)) by lia.
  destruct (Z.gtb_spec (Z.min length (_size b - _position b)) 0) as [Hgt|Hle];
    cbn [fst]; [reflexivity|].
  replace (Z.min length (_size b - _position b)) with 0 by lia. reflexivity.
Qed.

(** X5. [readBytes] never copies more than [min(requested, available)]: it
    returns exactly that many bytes, the ones at the cursor, and advances by
    that amount; asked for at least what is available it leaves the cursor at
    [size]. *)
Theorem readBytes_copies_min (b : BytesBuffer) (length : Z) :
  buffer_ok b -> 0 <= length ->
  let avail := _size b - _position b in
  let r := readBytes length b in
  fst r = slice (_fixed_data b) (_position b) (Z.min length avail) /\
  Z.of_nat (List.length (fst r)) = Z.min length avail /\
  snd r = with_position b (_position b + Z.min length avail) /\
  (avail <= length -> _position (snd r) = _size b).
Proof.
  intros Hok Hlen avail r. pose proof Hok as (Hp & Hs & Hc & Hl).
  unfold MAX_BUFFER_SIZE in *.
  assert (Hfst : fst r = slice (_fixed_data b) (_position b) (Z.min length avail)).
  { subst r avail. apply readBytes_value; assumption. }
  assert (Hsnd : snd r = with_position b (_position b + Z.min length avail)).
  { subst r avail. apply readBytes_shape; assumption. }
  split; [exact Hfst|]. split; [|split; [exact Hsnd|]].
  - rewrite Hfst. apply slice_length; subst avail; lia.
  - intros Hall. rewrite Hsnd. cbn [_position with_position]. subst avail. lia.
Qed.

Lemma readBytes_copies_min_witness :
  let b := snd (setPosition 3 (BytesBuffer_of _shared_buffer0 [x01; x02; x03; x04; x05])) in
  let r := readBytes 10 b in
  fst r = slice (_fixed_data b) (_position b) (Z.min 10 (_size b - _position b)) /\
  Z.of_nat (List.length (fst r)) = Z.min 10 (_size b - _position b) /\
  snd r = with_position b (_position b + Z.min 10 (_size b - _position b)) /\
  (_size b - _position b <= 10 -> _position (snd r) = _size b).
Proof.
  intros b r.
  apply (readBytes_copies_min b 10).
  - unfold buffer_ok. vm_compute. intuition discriminate.
  - lia.
Defined.

(** X6. [peekBytes] never moves the cursor or changes the buffer.  It
    succeeds exactly when the offset lies inside the data and at least one
    byte is asked for, and then copies the bytes from the absolute [offset],
    clamped to what the buffer holds from there. *)
Theorem peekBytes_is_non_advancing (b : BytesBuffer) (offset length : Z) :
  buffer_ok b -> 0 <= offset -> 0 <= length -> offset + length < 2 ^ 32 ->
  let r := peekBytes offset length b in
  snd r = b /\
  (fst (fst r) = true <-> offset < _size b /\ 0 < length) /\
  (fst (fst r) = true ->
   snd (fst r) = slice (_fixed_data b) offset (Z.min length (_size b - offset))).
Proof.
  intros Hok Hoff Hlen Hsum r. pose proof Hok as (Hp & Hs & Hc & Hl).
  unfold MAX_BUFFER_SIZE in *. subst r. unfold peekBytes, wrap_size.
  destruct (Z.geb_spec offset (_size b)) as [Hout|Hin]; cbn [fst snd].
  - split; [reflexivity|]. split; [|discriminate]. split; [discriminate | lia].
  - rewrite (to_uint32_small (offset + length)) by lia.
    rewrite (to_uint32_small (_size b - offset)) by lia.
    destruct (Z.gtb_spec (offset + length) (_size b)) as [Hclamp|Hfit].
    + destruct (Z.gtb_spec (_size b - offset) 0) as [_|Hbad]; [|lia]. cbn [fst snd].
      split; [reflexivity|]. split; [split; [lia | reflexivity]|].
      intros _. f_equal. lia.
    + destruct (Z.gtb_spec length 0) as [Hpos|Hzero]; cbn [fst snd].
      * split; [reflexivity|]. split; [split; [lia | reflexivity]|].
        intros _. f_equal. lia.
      * split; [reflexivity|]. split; [|discriminate]. split; [discriminate | lia].
Qed.

Lemma peekBytes_is_non_advancing_witness :
  let b := snd (setPosition 2 (BytesBuffer_of _shared_buffer0 [x01; x02; x03; x04; x05])) in
  let r := peekBytes 3 8 b in
  snd r = b /\
  (fst (fst r) = true <-> 3 < _size b /\ 0 < 8) /\
  (fst (fst r) = true ->
   snd (fst r) = slice (_fixed_data b) 3 (Z.min 8 (_size b - 3))).
Proof.
  intros b r.
  apply (peekBytes_is_non_advancing b 3 8).
  - unfold buffer_ok. vm_compute. intuition discriminate.
  - lia.
  - lia.
  - vm_compute. reflexivity.
Defined.

(** X7. [writeBytes] followed by [readBytes]: a block that fits the
    capacity is written whole (the return value is its length), and after
    [setPosition] back to the start of the write [readBytes] of that length
    returns the block. *)
Theorem writeBytes_readBytes_roundtrip (b : BytesBuffer) (buffer : list byte) :
  buffer_ok b ->
  let n := Z.of_nat (List.length buffer) in
  _position b + n <= MAX_BUFFER_SIZE ->
  let w := writeBytes buffer b in
  fst w = n /\
  _position (snd w) = _position b + n /\
  fst (readBytes n (snd (setPosition (_position b) (snd w)))) = buffer.
Proof.
  intros Hok n Hfit w. pose proof Hok as (Hp & Hs & Hc & Hl).
  unfold MAX_BUFFER_SIZE in *. subst w. unfold writeBytes. fold n.
  rewrite ensureCapacity_eq by (assumption || (unfold MAX_BUFFER_SIZE; lia)).
  unfold MAX_BUFFER_SIZE.
  destruct (Z.leb_spec (_position b + n) 4096) as [_|Hbad]; [|lia]. cbn [negb fst snd].
  set (d := memcpy (_fixed_data b) (_position b) buffer).
  assert (Hd : List.length d = List.length (_fixed_data b)) by apply memcpy_length.
  destruct (rewind_after_write b d n Hok Hd ltac:(lia) ltac:(unfold MAX_BUFFER_SIZE; lia))
    as (Hok' & Hp' & Hin & Hdata).
  split; [reflexivity|]. split.
  - rewrite bump_eq by (assumption || unfold MAX_BUFFER_SIZE; lia). reflexivity.
  - rewrite (readBytes_value _ n Hok') by lia.
    rewrite Hdata, Hp'. rewrite Z.min_l by lia.
    subst d n. apply slice_memcpy; lia.
Qed.

Lemma writeBytes_readBytes_roundtrip_witness :
  let b := snd (setPosition 1 (BytesBuffer_of _shared_buffer0 [x01; x02])) in
  let w := writeBytes [xaa; xbb; xcc] b in
  fst w = 3 /\ _position (snd w) = _position b + 3 /\
  fst (readBytes 3 (snd (setPosition (_position b) (snd w)))) = [xaa; xbb; xcc].
Proof.
  intros b w.
  apply (writeBytes_readBytes_roundtrip b [xaa; xbb; xcc]).
  - unfold buffer_ok. vm_compute. intuition discriminate.
  - vm_compute. discriminate.
Defined.

(** ** BytesBuffer: strings *)

Lemma memcpy_at_nil {A} (d : list A) (i : nat) : memcpy_at d i [] = d.
Proof.
  revert d. induction i as [|i IH]; intros d.
  - destruct d; reflexivity.
  - destruct d as [|x d]; [reflexivity|]. cbn [memcpy_at]. f_equal. apply IH.
Qed.

Lemma writeUint8_char (b : BytesBuffer) (c : byte) :
  buffer_ok b -> _position b + 1 <= MAX_BUFFER_SIZE ->
  writeUint8 (u8 c) b = (true, bump (with_data b (poke (_fixed_data b) (_position b) c)) 1).
Proof.
  intros Hok Hfit. unfold writeUint8.
  rewrite ensureCapacity_eq by (assumption || (unfold MAX_BUFFER_SIZE; lia)).
  destruct (Z.leb_spec (_position b + 1) MAX_BUFFER_SIZE) as [_|Hbad]; [|lia].
  cbn [negb]. rewrite byte_of_u8. reflexivity.
Qed.

Lemma writeChars_bytes (cs : list byte) :
  forall b, buffer_ok b ->
    _position b + Z.of_nat (List.length cs) <= MAX_BUFFER_SIZE ->
    writeChars cs b
    = (true, bump (with_data b (memcpy (_fixed_data b) (_position b) cs))
                  (Z.of_nat (List.length cs))).
Proof.
  induction cs as [|c cs IH]; intros b Hok Hfit.
  - cbn [writeChars List.length]. unfold Cur_ret, memcpy. rewrite memcpy_at_nil.
    rewrite bump_eq by (assumption || lia).
    destruct Hok as (Hp & _). destruct b as [d s cap p].
    cbn [_position _size _capacity _fixed_data] in *.
    rewrite Z.add_0_r, Z.max_l by lia. reflexivity.
  - cbn [List.length] in Hfit. cbn [writeChars]. unfold bind.
    rewrite writeUint8_char by (assumption || lia).
    pose proof Hok as (Hp & Hs & Hc & Hl).
    set (d1 := poke (_fixed_data b) (_position b) c).
    assert (Hd1 : List.length d1 = List.length (_fixed_data b)) by apply poke_length.
    assert (Hok1 : buffer_ok (bump (with_data b d1) 1))
      by (apply bump_ok; [assumption | assumption | lia | lia]).
    rewrite (IH _ Hok1) by (rewrite bump_eq by (assumption || lia);
                            cbn [_position]; lia).
    f_equal.
    rewrite (bump_eq b d1 1) by (assumption || lia).
    cbn [_position _size _capacity _fixed_data with_data].
    unfold bump, advance, wrap_size, with_data, with_position, with_size.
    cbn [_position _size _capacity _fixed_data].
    unfold MAX_BUFFER_SIZE in *. cbn [List.length].
    rewrite !to_uint32_small by lia.
    assert (Hdata : memcpy d1 (_position b + 1) cs
                    = memcpy (_fixed_data b) (_position b) (c :: cs)).
    { unfold d1, poke, memcpy.
      replace (Z.to_nat (_position b + 1)) with (S (Z.to_nat (_position b))) by lia.
      apply memcpy_at_cons. lia. }
    rewrite Hdata.
    cbn [List.length].
    repeat match goal with
           | |- context [?x >? ?y] => destruct (Z.gtb_spec x y)
           end;
      cbn [_position _size _capacity _fixed_data]; f_equal; lia.
Qed.

(** X8. [writeString] followed by [readString]: a string of at most 255
    characters that fits the capacity with its length byte is written
    successfully, and after [setPosition] back to the start of the write
    [readString] returns the same characters. *)
Theorem writeString_readString_roundtrip (b : BytesBuffer) (str : list byte) :
  buffer_ok b ->
  let n := Z.of_nat (List.length str) in
  n <= 255 -> _position b + 1 + n <= MAX_BUFFER_SIZE ->
  let w := writeString str b in
  fst w = true /\
  _position (snd w) = _position b + 1 + n /\
  fst (readString (snd (setPosition (_position b) (snd w)))) = str.
Proof.
  intros Hok n Hn Hfit w. pose proof Hok as (Hp & Hs & Hc & Hl).
  assert (Hwhole : writeChars (byte_of n :: str) b = w).
  { subst w. unfold writeString. cbn [writeChars].
    rewrite u8_byte_of. fold (to_uint8 (Z.of_nat (List.length str))). fold n.
    unfold to_uint8. rewrite Z.mod_small by lia.
    unfold n at 3. rewrite Nat2Z.id, firstn_all. reflexivity. }
  rewrite writeChars_bytes in Hwhole
    by (assumption || (cbn [List.length]; unfold MAX_BUFFER_SIZE in *; lia)).
  rewrite <- Hwhole. cbn [fst snd].
  set (d := memcpy (_fixed_data b) (_position b) (byte_of n :: str)).
  assert (Hd : List.length d = List.length (_fixed_data b)) by apply memcpy_length.
  replace (Z.of_nat (List.length (byte_of n :: str))) with (1 + n)
    by (cbn [List.length]; lia).
  destruct (rewind_after_write b d (1 + n) Hok Hd ltac:(lia) ltac:(lia))
    as (Hok' & Hp' & Hin & Hdata).
  split; [reflexivity|]. split.
  - rewrite bump_eq by (assumption || lia). cbn [_position]. lia.
  - set (b' := snd (setPosition (_position b) (bump (with_data b d) (1 + n)))) in *.
    assert (Hsl : slice d (_position b) (1 + n) = byte_of n :: str).
    { replace (1 + n) with (Z.of_nat (List.length (byte_of n :: str)))
        by (cbn [List.length]; lia).
      apply slice_memcpy; cbn [List.length]; unfold MAX_BUFFER_SIZE in *; lia. }
    rewrite (slice_cons x00) in Hsl by (unfold MAX_BUFFER_SIZE in *; lia).
    replace (1 + n - 1) with n in Hsl by lia.
    injection Hsl as Hhead Htail.
    unfold readString. rewrite (readUint8_ok b' Hok') by lia. cbn [negb].
    rewrite Hdata, Hp'.
    rewrite (slice_cons x00) by (unfold MAX_BUFFER_SIZE in *; lia).
    change (slice d (_position b + 1) (1 - 1)) with (@nil byte).
    cbn [le_uint]. rewrite Hhead, u8_byte_of, Z.mod_small by lia.
    rewrite Z.mul_0_r, Z.add_0_r.
    cbn [_position _size _fixed_data with_position]. unfold wrap_size.
    unfold MAX_BUFFER_SIZE in *. rewrite to_uint32_small by lia.
    destruct (Z.gtb_spec (_position b + 1 + n) (_size b')) as [Hbad|_]; [lia|].
    cbn [fst]. rewrite Hdata. exact Htail.
Qed.

Lemma writeString_readString_roundtrip_witness :
  let b := BytesBuffer_new _shared_buffer0 in
  let w := writeString [x65; x6e] b in
  fst w = true /\ _position (snd w) = _position b + 1 + 2 /\
  fst (readString (snd (setPosition (_position b) (snd w)))) = [x65; x6e].
Proof.
  intros b w.
  apply (writeString_readString_roundtrip b [x65; x6e]).
  - unfold buffer_ok. vm_compute. intuition discriminate.
  - vm_compute. discriminate.
  - vm_compute. discriminate.
Defined.

(** ** Transport: sending a request in chunks *)

Lemma send_loop_chunks (request : list byte) (fuel : nat) :
  forall pos : Z,
    0 <= pos -> Z.of_nat (List.length request) + chunkSize < 2 ^ 32 ->
    Z.max 0 (Z.of_nat (List.length request) - pos) < Z.of_nat fuel ->
    exists chunks,
      send_loop fuel request pos = Some chunks /\
      concat chunks = skipn (Z.to_nat pos) request /\
      Forall (fun c => 1 <= Z.of_nat (List.length c) <= chunkSize) chunks.
Proof.
  unfold chunkSize.
  induction fuel as [|fuel IH]; intros pos Hpos Hlen Hfuel.
  - simpl in Hfuel. lia.
  - cbn [send_loop].
    destruct (Z.ltb_spec pos (Z.of_nat (List.length request))) as [Hin|Hout].
    + unfold wrap_size, chunkSize.
      rewrite (to_uint32_small (pos + 18)) by lia.
      rewrite (to_uint32_small (Z.of_nat (List.length request) - pos)) by lia.
      destruct (IH (pos + 18) ltac:(lia) Hlen ltac:(lia)) as (rest & -> & Hcat & Hall).
      eexists. split; [reflexivity|]. cbn [concat]. rewrite Hcat.
      destruct (Z.gtb_spec (Z.of_nat (List.length request) - pos) 18) as [Hbig|Hsmall].
      * split.
        -- unfold slice. replace (Z.to_nat (pos + 18)) with (Z.to_nat 18 + Z.to_nat pos)%nat
             by lia.
           rewrite <- skipn_skipn. apply firstn_skipn.
        -- constructor; [|exact Hall].
           rewrite slice_length by lia. lia.
      * split.
        -- unfold slice.
           rewrite (@skipn_all2 _ (Z.to_nat (pos + 18)) request) by lia.
           rewrite app_nil_r.
           apply firstn_all2. rewrite length_skipn. lia.
        -- constructor; [|exact Hall].
           rewrite slice_length by lia. lia.
    + exists []. split; [reflexivity|]. split; [|constructor].
      cbn [concat]. symmetry. apply skipn_all2. lia.
Qed.

(** X9. The write loop of [BluetoothTransport::execute] hands the request
    to the characteristic in order and without loss: the chunks put
    together are the request, every chunk carries between 1 and 18 bytes,
    and a request of at least 18 bytes starts with a full chunk. *)
Theorem request_is_sent_in_chunks (request : list byte) :
  Z.of_nat (List.length request) + chunkSize < 2 ^ 32 ->
  exists chunks,
    written_chunks request = Some chunks /\
    concat chunks = request /\
    Forall (fun c => 1 <= Z.of_nat (List.length c) <= chunkSize) chunks /\
    (chunkSize <= Z.of_nat (List.length request) ->
     Z.of_nat (List.length (hd [] chunks)) = chunkSize).
Proof.
  intros Hlen. unfold written_chunks.
  destruct (send_loop_chunks request (S (List.length request)) 0 ltac:(lia) Hlen)
    as (chunks & Hrun & Hcat & Hall).
  { lia. }
  exists chunks. split; [exact Hrun|]. split; [exact Hcat|]. split; [exact Hall|].
  intros Hbig. unfold chunkSize in *. cbn [send_loop] in Hrun.
  destruct (Z.ltb_spec 0 (Z.of_nat (List.length request))) as [_|Hbad]; [|lia].
  destruct (send_loop (List.length request) request (wrap_size (0 + chunkSize)))
    as [rest|]; [|discriminate].
  injection Hrun as <-. cbn [hd]. unfold wrap_size, chunkSize.
  rewrite to_uint32_small by lia.
  destruct (Z.gtb_spec (Z.of_nat (List.length request) - 0) 18);
    rewrite slice_length by lia; lia.
Qed.

Lemma request_is_sent_in_chunks_witness :
  exists chunks,
    written_chunks (repeat x55 40) = Some chunks /\
    concat chunks = repeat x55 40 /\
    Forall (fun c => 1 <= Z.of_nat (List.length c) <= chunkSize) chunks /\
    (chunkSize <= Z.of_nat (List.length (repeat x55 40)) ->
     Z.of_nat (List.length (hd [] chunks)) = chunkSize).
Proof.
  apply (request_is_sent_in_chunks (repeat x55 40)).
  vm_compute. reflexivity.
Defined.

(** ** Transport: the response buffer is never overrun *)

Lemma onNotify_bounded (t : BluetoothTransport) (data : list byte) :
  Z.of_nat (List.length data) <= MAX_RESP_SIZE ->
  0 <= _resp_received t <= MAX_RESP_SIZE ->
  let t' := onNotify t data in
  0 <= _resp_received t' <= MAX_RESP_SIZE /\
  List.length (_resp_buffer t') = List.length (_resp_buffer t) /\
  (_response_ready t = true -> _response_ready t' = true) /\
  (_resp_size t <= MAX_RESP_SIZE -> _resp_size t' <= MAX_RESP_SIZE).
Proof.
  intros Hdata Hrecv t'. subst t'. unfold MAX_RESP_SIZE in *. unfold onNotify.
  assert (Hw : forall z, 0 <= wrap_size z) by (intros z; apply Z.mod_pos_bound; lia).
  destruct ((_resp_size t =? 0) && (Z.of_nat (List.length data) >=? 4)).
  - match goal with
    | |- context [wrap_size ?z >? MAX_RESP_SIZE] =>
      destruct (Z.gtb_spec (wrap_size z) MAX_RESP_SIZE)
    end;
    match goal with
    | |- context [if ?c then _ else _] => destruct c
    end;
    cbn [_resp_size _resp_received _resp_buffer _response_ready];
    rewrite memcpy_length, memset_zero_length; unfold MAX_RESP_SIZE in *;
    repeat split; auto; lia.
  - unfold MAX_RESP_SIZE.
    destruct (Z.leb_spec (wrap_size (_resp_received t + Z.of_nat (List.length data))) 4096)
      as [Hfit|Hover].
    + destruct (Z.gtb_spec (wrap_size (_resp_received t + Z.of_nat (List.length data))) 4096)
        as [Hbad|_]; [lia|].
      destruct (Z.of_nat (List.length data) >? 0);
        match goal with
        | |- context [if ?c then _ else _] => destruct c
        end;
        cbn [_resp_size _resp_received _resp_buffer _response_ready];
        rewrite ?memcpy_length;
        repeat split; auto; try lia; apply Hw.
    + match goal with
      | |- context [if ?c then _ else _] => destruct c
      end;
      cbn [_resp_size _resp_received _resp_buffer _response_ready];
      repeat split; auto; lia.
Qed.

(** X10. Whatever the device sends in notifications of at most
    MAX_RESP_SIZE bytes each, the handler never counts more than
    MAX_RESP_SIZE received bytes, keeps the declared size clamped to
    MAX_RESP_SIZE, keeps the response buffer at its extent, and never takes
    back a ready flag it has set. *)
Theorem reassembly_stays_in_buffer (chunks : list (list byte)) :
  forall t : BluetoothTransport,
    Forall (fun c => Z.of_nat (List.length c) <= MAX_RESP_SIZE) chunks ->
    0 <= _resp_received t <= MAX_RESP_SIZE ->
    let t' := deliver t chunks in
    0 <= _resp_received t' <= MAX_RESP_SIZE /\
    List.length (_resp_buffer t') = List.length (_resp_buffer t) /\
    (_response_ready t = true -> _response_ready t' = true) /\
    (_resp_size t <= MAX_RESP_SIZE -> _resp_size t' <= MAX_RESP_SIZE).
Proof.
  induction chunks as [|c chunks IH]; intros t Hall Hrecv t'; subst t'.
  - cbn [deliver fold_left]. repeat split; auto; lia.
  - inversion Hall as [|? ? Hc Hrest]; subst.
    destruct (onNotify_bounded t c Hc Hrecv) as (H1 & H2 & H3 & H4).
    cbn [deliver fold_left].
    destruct (IH (onNotify t c) Hrest H1) as (K1 & K2 & K3 & K4).
    unfold deliver in *.
    split; [exact K1|]. split; [congruence|]. split; auto.
Qed.

Lemma reassembly_stays_in_buffer_witness :
  let t := reset_tracking (BluetoothTransport_new (repeat x00 (Z.to_nat MAX_RESP_SIZE))) in
  let t' := deliver t [[xff; xff; xff; x7f; x01]; repeat xaa 4000; repeat xbb 200] in
  0 <= _resp_received t' <= MAX_RESP_SIZE /\
  List.length (_resp_buffer t') = List.length (_resp_buffer t) /\
  (_response_ready t = true -> _response_ready t' = true) /\
  (_resp_size t <= MAX_RESP_SIZE -> _resp_size t' <= MAX_RESP_SIZE).
Proof.
  intros t t'.
  apply (reassembly_stays_in_buffer
           [[xff; xff; xff; x7f; x01]; repeat xaa 4000; repeat xbb 200] t).
  - repeat constructor; vm_compute; discriminate.
  - vm_compute. split; discriminate.
Defined.


(** ** Transport: from the notifications to the returned cursor *)

Lemma deliver_partition (t : BluetoothTransport) (body c : list byte)
    (chunks : list (list byte)) :
  Z.of_nat (List.length (_resp_buffer t)) = MAX_RESP_SIZE ->
  Z.of_nat (List.length body) + 4 <= MAX_RESP_SIZE ->
  (4 <= List.length c)%nat ->
  concat (c :: chunks) = frame_of body ->
  deliver (reset_tracking t) (c :: chunks)
  = mkBluetoothTransport (padded (frame_of body))
      (Z.of_nat (List.length body) + 4) (Z.of_nat (List.length body) + 4) true.
Proof.
  intros Hbuf Hfit Hc Hframe. cbn [concat] in Hframe. cbn [deliver fold_left].
  rewrite (onNotify_first t c (concat chunks) body Hbuf Hfit Hc Hframe).
  set (N := Z.of_nat (List.length body)).
  fold (deliver (mkBluetoothTransport (padded c) (Z.of_nat (List.length c))
                   (N + 4) (Z.of_nat (List.length c) >=? N + 4)) chunks).
  rewrite deliver_rest.
  - rewrite Hframe. reflexivity.
  - subst N. lia.
  - rewrite Hframe. apply frame_of_length.
Qed.

(** X11. The end of [BluetoothTransport::execute]: once the notifications
    of an exchange have delivered a frame (length prefix N, then N body
    bytes, first notification of at least 4 bytes, N + 4 within the response
    buffer), the cursor handed back is well formed, stands at position 0,
    has size N and holds exactly the body: the length prefix is stripped. *)
Theorem execute_returns_frame_body (t : BluetoothTransport) (shared body c : list byte)
    (chunks : list (list byte)) :
  Z.of_nat (List.length (_resp_buffer t)) = MAX_RESP_SIZE ->
  Z.of_nat (List.length shared) = MAX_BUFFER_SIZE ->
  Z.of_nat (List.length body) + 4 <= MAX_RESP_SIZE ->
  (4 <= List.length c)%nat ->
  concat (c :: chunks) = frame_of body ->
  let r := response_of shared (deliver (reset_tracking t) (c :: chunks)) in
  buffer_ok r /\ _size r = Z.of_nat (List.length body) /\ _position r = 0 /\
  firstn (List.length body) (_fixed_data r) = body.
Proof.
  intros Hbuf Hsh Hfit Hc Hframe r. subst r.
  rewrite (deliver_partition t body c chunks Hbuf Hfit Hc Hframe).
  apply response_of_reassembled; assumption.
Qed.

Lemma execute_returns_frame_body_witness :
  let t := BluetoothTransport_new (repeat xff (Z.to_nat MAX_RESP_SIZE)) in
  let body := [x26; x08; x00; x80; x01] in
  let r := response_of _shared_buffer0
             (deliver (reset_tracking t)
                [[x05; x00; x00; x00; x26]; [x08]; [x00; x80; x01]]) in
  buffer_ok r /\ _size r = Z.of_nat (List.length body) /\ _position r = 0 /\
  firstn (List.length body) (_fixed_data r) = body.
Proof.
  intros t body r.
  apply (execute_returns_frame_body t _shared_buffer0 body [x05; x00; x00; x00; x26]
           [[x08]; [x00; x80; x01]]).
  - vm_compute. reflexivity.
  - vm_compute. reflexivity.
  - vm_compute. discriminate.
  - simpl. lia.
  - vm_compute. reflexivity.
Defined.

(** ** Command channel: the request on the wire *)




(** ** Command channel: one exchange, and the calls built on it *)

Lemma execute_exchange (link : list (list byte) -> list byte) (rc : RadiaCode)
    (sent : list (list byte)) (shared : list byte) (reqtype : Z) (args : list byte) :
  _connection rc = Some sent ->
  Z.of_nat (List.length shared) = MAX_BUFFER_SIZE ->
  let request := full_request_of (_seq rc) reqtype args in
  let payload := link (request :: sent) in
  Z.of_nat (List.length payload) <= MAX_BUFFER_SIZE ->
  exists rc' r,
    execute link rc shared reqtype args = (rc', r) /\
    _connection rc' = Some (request :: sent) /\
    _base_time_sec rc' = _base_time_sec rc /\
    _spectrum_format_version rc' = _spectrum_format_version rc /\
    buffer_ok r /\ _size r = Z.of_nat (List.length payload) /\
    _position r = Z.min 4 (Z.of_nat (List.length payload)) /\
    firstn (List.length payload) (_fixed_data r) = payload.
Proof.
  intros Hc Hsh request payload Hlen.
  destruct (execute_response link rc shared reqtype args Hsh) as (Hok & Hpos).
  destruct (execute_payload link rc sent shared reqtype args Hc Hsh Hlen) as (Hsz & Hdata).
  destruct (execute link rc shared reqtype args) as [rc' r] eqn:E.
  cbn [snd] in Hok, Hpos, Hsz, Hdata.
  exists rc', r. split; [reflexivity|].
  unfold execute in E. rewrite Hc in E.
  destruct (readBytes 4 (BytesBuffer_of shared
              (link (full_request_of (_seq rc) reqtype args :: sent)))) as [hdr r0].
  injection E as <- <-. cbn [_connection _base_time_sec _spectrum_format_version].
  fold payload in Hsz, Hdata.
  split; [reflexivity|]. split; [reflexivity|]. split; [reflexivity|].
  split; [exact Hok|]. split; [exact Hsz|]. split; [rewrite Hpos, Hsz; reflexivity|].
  exact Hdata.
Qed.

Lemma readVSFR_closed_form (link : list (list byte) -> list byte) (rc : RadiaCode)
    (sent : list (list byte)) (shared : list byte) (vsfr_id : Z) :
  _connection rc = Some sent ->
  Z.of_nat (List.length shared) = MAX_BUFFER_SIZE ->
  let request := full_request_of (_seq rc) RD_VIRT_SFR_BATCH
                   (le32_bytes 1 ++ le32_bytes vsfr_id) in
  let payload := link (request :: sent) in
  Z.of_nat (List.length payload) <= MAX_BUFFER_SIZE ->
  let '(value, rc', _) := readVSFR link rc shared vsfr_id in
  rc' = fst (execute link rc shared RD_VIRT_SFR_BATCH (le32_bytes 1 ++ le32_bytes vsfr_id)) /\
  _connection rc' = Some (request :: sent) /\
  value = if (12 <=? Z.of_nat (List.length payload))
             && (le_uint (slice payload 4 4) =? 1)
          then le_uint (slice payload 8 4) else 0.
Proof.
  intros Hc Hsh request payload Hlen. unfold readVSFR.
  destruct (execute_exchange link rc sent shared RD_VIRT_SFR_BATCH
              (le32_bytes 1 ++ le32_bytes vsfr_id) Hc Hsh Hlen)
    as (rc' & r & -> & Hconn & _ & _ & Hok & Hsz & Hpos & Hdata).
  change (link (full_request_of (_seq rc) RD_VIRT_SFR_BATCH
                  (le32_bytes 1 ++ le32_bytes vsfr_id) :: sent))
    with payload in Hsz, Hpos, Hdata.
  change (full_request_of (_seq rc) RD_VIRT_SFR_BATCH
            (le32_bytes 1 ++ le32_bytes vsfr_id)) with request in Hconn.
  unfold MAX_BUFFER_SIZE in *.
  destruct (Z.lt_ge_cases (Z.of_nat (List.length payload)) 8) as [Hshort|Hlong].
  - rewrite (readUint32_fail r Hok) by lia. cbn [negb Z.eqb].
    split; [reflexivity|]. split; [exact Hconn|].
    destruct (Z.leb_spec 12 (Z.of_nat (List.length payload))); [lia | reflexivity].
  - assert (Hp4 : _position r = 4) by lia.
    rewrite (readUint32_ok r Hok) by lia. rewrite Hp4.
    rewrite (slice_of_prefix (_fixed_data r) payload 4 4 Hdata) by lia.
    assert (Hok1 : buffer_ok (with_position r (4 + 4))).
    { apply buffer_ok_with_position; [exact Hok | lia]. }
    destruct (le_uint (slice payload 4 4) =? 1) eqn:Eflags; cbn [negb].
    + rewrite andb_true_r.
      destruct (Z.leb_spec 12 (Z.of_nat (List.length payload))) as [Hfull|Hpart].
      * rewrite (readUint32_ok _ Hok1) by (cbn [_position _size with_position]; lia).
        cbn [_position _fixed_data with_position].
        rewrite (slice_of_prefix (_fixed_data r) payload (4 + 4) 4 Hdata) by lia.
        split; [reflexivity|]. split; [exact Hconn | reflexivity].
      * rewrite (readUint32_fail _ Hok1) by (cbn [_position _size with_position]; lia).
        split; [reflexivity|]. split; [exact Hconn | reflexivity].
    + rewrite andb_false_r. split; [reflexivity|]. split; [exact Hconn | reflexivity].
Qed.

(** X13. [RadiaCode::readVSFR] sends one batch request for one register
    (count 1, then the register id) and returns the second word of the
    response body when the body holds it and the validity word before it is
    1; in every other case, a short response included, it returns 0. *)
Theorem readVSFR_value (link : list (list byte) -> list byte) (rc : RadiaCode)
    (sent : list (list byte)) (shared : list byte) (vsfr_id : Z) :
  _connection rc = Some sent ->
  Z.of_nat (List.length shared) = MAX_BUFFER_SIZE ->
  let request := full_request_of (_seq rc) RD_VIRT_SFR_BATCH
                   (le32_bytes 1 ++ le32_bytes vsfr_id) in
  let payload := link (request :: sent) in
  Z.of_nat (List.length payload) <= MAX_BUFFER_SIZE ->
  let '(value, rc', _) := readVSFR link rc shared vsfr_id in
  _connection rc' = Some (request :: sent) /\
  value = if (12 <=? Z.of_nat (List.length payload))
             && (le_uint (slice payload 4 4) =? 1)
          then le_uint (slice payload 8 4) else 0.
Proof.
  intros Hc Hsh request payload Hlen.
  pose proof (readVSFR_closed_form link rc sent shared vsfr_id Hc Hsh Hlen) as H.
  cbv zeta in H.
  destruct (readVSFR link rc shared vsfr_id) as [[value rc'] store].
  destruct H as (_ & Hconn & Hvalue). split; [exact Hconn | exact Hvalue].
Qed.

Lemma readVSFR_value_witness :
  let link := fun _ : list (list byte) =>
    [x2a; x08; x00; x80; x01; x00; x00; x00; x2a; x01; x00; x00] in
  let '(value, rc', _) := readVSFR link RadiaCode_connected _shared_buffer0 DEVICE_CTRL in
  _connection rc'
  = Some [full_request_of 0 RD_VIRT_SFR_BATCH (le32_bytes 1 ++ le32_bytes DEVICE_CTRL)] /\
  value = 298.
Proof.
  intros link.
  apply (readVSFR_value link RadiaCode_connected [] _shared_buffer0 DEVICE_CTRL).
  - reflexivity.
  - vm_compute. reflexivity.
  - vm_compute. discriminate.
Defined.

Lemma read_values_nth (float_of_uint : Z -> float32) (vsfr_ids : list Z) :
  forall (ret : list float32) (r : BytesBuffer),
    buffer_ok r ->
    let res := fst (read_values float_of_uint vsfr_ids ret r) in
    List.length res = (List.length ret + List.length vsfr_ids)%nat /\
    firstn (List.length ret) res = ret /\
    forall i, (i < List.length vsfr_ids)%nat ->
      nth (List.length ret + i) res fzero
      = vsfr_value float_of_uint (nth i vsfr_ids 0)
          (word_or_zero (_fixed_data r) (_size r) (_position r + 4 * Z.of_nat i)).
Proof.
  induction vsfr_ids as [|vsfr_id rest IH]; intros ret r Hok res.
  - subst res. cbn [read_values Cur_ret fst List.length].
    split; [lia|]. split; [apply firstn_all|]. intros i Hi. lia.
  - subst res. cbn [read_values].
    pose proof (buffer_ok_bounds r Hok) as Hb.
    assert (Hstep : exists raw r1,
              readUint32 r = ((_position r + 4 <=? _size r, raw), r1) /\
              raw = word_or_zero (_fixed_data r) (_size r) (_position r) /\
              buffer_ok r1 /\ _fixed_data r1 = _fixed_data r /\ _size r1 = _size r /\
              _position r1 = (if _position r + 4 <=? _size r then _position r + 4
                              else _position r)).
    { unfold word_or_zero.
      destruct (Z.leb_spec (_position r + 4) (_size r)) as [Hin|Hout].
      - rewrite (readUint32_ok r Hok Hin). eexists _, _. split; [reflexivity|].
        split; [reflexivity|]. split; [apply buffer_ok_with_position; [exact Hok|lia]|].
        split; [reflexivity|]. split; reflexivity.
      - rewrite (readUint32_fail r Hok) by lia. eexists _, _. split; [reflexivity|].
        split; [reflexivity|]. split; [exact Hok|]. split; [reflexivity|].
        split; reflexivity. }
    destruct Hstep as (raw & r1 & -> & Hraw & Hok1 & Hd1 & Hs1 & Hp1).
    fold (vsfr_value float_of_uint vsfr_id raw).
    destruct (IH (ret ++ [vsfr_value float_of_uint vsfr_id raw]) r1 Hok1)
      as (Hlen & Hpre & Hnth).
    rewrite length_app in Hlen, Hpre, Hnth. cbn [List.length] in Hlen, Hpre, Hnth.
    split; [cbn [List.length]; lia|]. split.
    + apply (f_equal (firstn (List.length ret))) in Hpre.
      rewrite firstn_firstn in Hpre.
      replace (Init.Nat.min (List.length ret) (List.length ret + 1)) with (List.length ret)
        in Hpre by lia.
      rewrite Hpre. rewrite firstn_app, firstn_all, Nat.sub_diag. cbn [firstn].
      apply app_nil_r.
    + intros [|i] Hi.
      * rewrite Nat.add_0_r. cbn [nth Z.of_nat]. rewrite Z.mul_0_r, Z.add_0_r.
        rewrite <- Hraw.
        rewrite <- (firstn_skipn (List.length ret + 1)
                      (fst (read_values float_of_uint rest
                              (ret ++ [vsfr_value float_of_uint vsfr_id raw]) r1))).
        rewrite Hpre. rewrite app_nth1 by (rewrite length_app; cbn [List.length]; lia).
        rewrite app_nth2 by lia. rewrite Nat.sub_diag. reflexivity.
      * cbn [List.length] in Hi. cbn [nth].
        replace (List.length ret + S i)%nat with (List.length ret + 1 + i)%nat by lia.
        rewrite (Hnth i ltac:(lia)). f_equal.
        rewrite Hd1, Hs1, Hp1. unfold word_or_zero.
        destruct (Z.leb_spec (_position r + 4) (_size r)) as [Hin|Hout].
        -- replace (_position r + 4 + 4 * Z.of_nat i)
             with (_position r + 4 * Z.of_nat (S i)) by lia.
           reflexivity.
        -- destruct (Z.leb_spec (_position r + 4 * Z.of_nat i + 4) (_size r)); [lia|].
           destruct (Z.leb_spec (_position r + 4 * Z.of_nat (S i) + 4) (_size r)); [lia|].
           reflexivity.
Qed.

(** X14. The accepting half of [RadiaCode::batchReadVSFRs].  For 1 to 30
    register ids, when the validity word of the response is [(1 << N) - 1]
    the call returns exactly N values, in the order of the ids: value i is
    the conversion of the word at offset 8 + 4 i of the response body, and
    of 0 when the response ends before that word.  The function never
    returns fewer or more values than it was asked for. *)
Theorem batchReadVSFRs_values (link : list (list byte) -> list byte)
    (float_of_uint : Z -> float32) (shift_undefined : Z -> Z) (rc : RadiaCode)
    (sent : list (list byte)) (shared : list byte) (vsfr_ids : list Z) :
  _connection rc = Some sent ->
  Z.of_nat (List.length shared) = MAX_BUFFER_SIZE ->
  let N := Z.of_nat (List.length vsfr_ids) in
  1 <= N <= 30 ->
  let request := full_request_of (_seq rc) RD_VIRT_SFR_BATCH
                   (le32_bytes N ++ flat_map le32_bytes vsfr_ids) in
  let payload := link (request :: sent) in
  8 <= Z.of_nat (List.length payload) <= MAX_BUFFER_SIZE ->
  le_uint (slice payload 4 4) = 2 ^ N - 1 ->
  let values :=
    snd (fst (batchReadVSFRs link float_of_uint shift_undefined rc shared vsfr_ids)) in
  List.length values = List.length vsfr_ids /\
  forall i, (i < List.length vsfr_ids)%nat ->
    nth i values fzero
    = vsfr_value float_of_uint (nth i vsfr_ids 0)
        (word_or_zero payload (Z.of_nat (List.length payload)) (8 + 4 * Z.of_nat i)).
Proof.
  intros Hc Hsh N HN request payload Hlen Hflags values.
  subst values. unfold batchReadVSFRs. fold N.
  destruct (Z.eqb_spec N 0) as [E|_]; [lia|].
  rewrite (to_uint32_small N) by lia.
  destruct (execute_exchange link rc sent shared RD_VIRT_SFR_BATCH
              (le32_bytes N ++ flat_map le32_bytes vsfr_ids) Hc Hsh
              ltac:(apply (proj2 Hlen)))
    as (rc' & r & -> & _ & _ & _ & Hok & Hsz & Hpos & Hdata).
  change (link (full_request_of (_seq rc) RD_VIRT_SFR_BATCH
                  (le32_bytes N ++ flat_map le32_bytes vsfr_ids) :: sent))
    with payload in Hsz, Hpos, Hdata.
  unfold MAX_BUFFER_SIZE in *.
  assert (Hp4 : _position r = 4) by lia.
  rewrite (readUint32_ok r Hok) by lia. rewrite Hp4.
  rewrite (slice_of_prefix (_fixed_data r) payload 4 4 Hdata) by lia.
  rewrite Hflags, expected_flags_small by lia. rewrite Z.eqb_refl. cbn [negb].
  assert (Hok1 : buffer_ok (with_position r (4 + 4))).
  { apply buffer_ok_with_position; [exact Hok | lia]. }
  destruct (read_values_nth float_of_uint vsfr_ids [] _ Hok1) as (Hn & _ & Hnth).
  destruct (read_values float_of_uint vsfr_ids [] (with_position r (4 + 4)))
    as [ret r2]. cbn [fst snd List.length Nat.add] in *.
  split; [exact Hn|]. intros i Hi. rewrite (Hnth i Hi). f_equal.
  unfold word_or_zero. cbn [_fixed_data _size _position with_position]. rewrite Hsz.
  replace (4 + 4 + 4 * Z.of_nat i) with (8 + 4 * Z.of_nat i) by lia.
  destruct (Z.leb_spec (8 + 4 * Z.of_nat i + 4) (Z.of_nat (List.length payload)));
    [|reflexivity].
  f_equal. apply slice_of_prefix; [exact Hdata | lia | lia | lia].
Qed.

Lemma batchReadVSFRs_values_witness :
  let link := fun _ : list (list byte) =>
    [x2a; x08; x00; x80;  x07; x00; x00; x00;
     x03; x00; x00; x00;  x00; x00; xc8; x41;  x2a; x00] in
  let ids := [DS_UNITS; TEMP_degC; DEVICE_CTRL] in
  let payload := link [] in
  let values := snd (fst (batchReadVSFRs link (fun z => F32 (z + 1000)) (fun _ => 0)
                            RadiaCode_connected _shared_buffer0 ids)) in
  List.length values = List.length ids /\
  forall i, (i < List.length ids)%nat ->
    nth i values fzero
    = vsfr_value (fun z => F32 (z + 1000)) (nth i ids 0)
        (word_or_zero payload (Z.of_nat (List.length payload)) (8 + 4 * Z.of_nat i)).
Proof.
  intros link ids payload values.
  apply (batchReadVSFRs_values link (fun z => F32 (z + 1000)) (fun _ => 0)
           RadiaCode_connected []
           _shared_buffer0 ids).
  - reflexivity.
  - vm_compute. reflexivity.
  - vm_compute. split; discriminate.
  - vm_compute. split; discriminate.
  - vm_compute. reflexivity.
Defined.

(** ** Device settings: what the guarded setters put on the wire *)

Lemma writeRequest_sends (link : list (list byte) -> list byte) (rc : RadiaCode)
    (sent : list (list byte)) (shared : list byte) (command_id : Z) (data : list byte) :
  _connection rc = Some sent ->
  _connection (fst (writeRequest link rc shared command_id data))
  = Some (full_request_of (_seq rc) WR_VIRT_SFR (le32_bytes command_id ++ data) :: sent).
Proof.
  intros Hc. unfold writeRequest, execute. rewrite Hc.
  destruct (readBytes 4 _) as [hdr r]. destruct (readUint32 r) as [[ok retcode] r1].
  reflexivity.
Qed.

Lemma str_equal_eq (a : list byte) : forall b, str_equal a b = true <-> a = b.
Proof.
  induction a as [|x a IH]; intros [|y b]; cbn [str_equal];
    try (split; [discriminate | discriminate]).
  - split; reflexivity.
  - rewrite andb_true_iff, IH. split.
    + intros [Hxy ->]. apply Byte.byte_dec_bl in Hxy. congruence.
    + intros E. injection E as -> ->. split; [apply Byte.byte_dec_lb|]; reflexivity.
Qed.

(** X15. The display setters validate before they send.
    [setDisplayOffTime] accepts 5, 10, 15 and 30 seconds only and sends the
    codes 0, 1, 2 and 3 for them; [setDisplayBrightness] accepts 0 to 9 and
    sends the value itself.  Each accepted call writes one WR_VIRT_SFR
    request for its register; a rejected call sends nothing and leaves the
    session and the buffer store as they were. *)
Theorem display_setters_validate (link : list (list byte) -> list byte)
    (rc : RadiaCode) (sent : list (list byte)) (shared : list byte)
    (seconds brightness : Z) :
  _connection rc = Some sent ->
  let wr := fun id value =>
    full_request_of (_seq rc) WR_VIRT_SFR (le32_bytes id ++ le32_bytes value) in
  (forall code, In (seconds, code) [(5, 0); (10, 1); (15, 2); (30, 3)] ->
     _connection (fst (setDisplayOffTime link rc shared seconds))
     = Some (wr DISP_OFF_TIME code :: sent)) /\
  (~ In seconds [5; 10; 15; 30] ->
     setDisplayOffTime link rc shared seconds = (rc, shared)) /\
  (brightness <= 9 ->
     _connection (fst (setDisplayBrightness link rc shared brightness))
     = Some (wr DISP_BRT brightness :: sent)) /\
  (9 < brightness -> setDisplayBrightness link rc shared brightness = (rc, shared)).
Proof.
  intros Hc wr. split; [|split; [|split]].
  - intros code Hin. cbn [In] in Hin.
    destruct Hin as [E|[E|[E|[E|[]]]]]; injection E as <- <-;
      unfold setDisplayOffTime; cbn [Z.eqb negb andb Pos.eqb];
      rewrite (writeRequest_sends link rc sent shared _ _ Hc); reflexivity.
  - intros Hnot. unfold setDisplayOffTime. cbn [In] in Hnot.
    destruct (Z.eqb_spec seconds 5); [exfalso; apply Hnot; auto|].
    destruct (Z.eqb_spec seconds 10); [exfalso; apply Hnot; auto|].
    destruct (Z.eqb_spec seconds 15); [exfalso; apply Hnot; auto|].
    destruct (Z.eqb_spec seconds 30); [exfalso; apply Hnot; auto|]. reflexivity.
  - intros Hle. unfold setDisplayBrightness.
    destruct (Z.gtb_spec brightness 9); [lia|].
    apply writeRequest_sends. exact Hc.
  - intros Hgt. unfold setDisplayBrightness.
    destruct (Z.gtb_spec brightness 9); [reflexivity | lia].
Qed.

Lemma display_setters_validate_witness :
  let link := fun _ : list (list byte) => [x25; x08; x00; x80; x01; x00; x00; x00] in
  let wr := fun id value =>
    full_request_of 0 WR_VIRT_SFR (le32_bytes id ++ le32_bytes value) in
  (forall code, In (15, code) [(5, 0); (10, 1); (15, 2); (30, 3)] ->
     _connection (fst (setDisplayOffTime link RadiaCode_connected _shared_buffer0 15))
     = Some [wr DISP_OFF_TIME code]) /\
  (~ In 15 [5; 10; 15; 30] ->
     setDisplayOffTime link RadiaCode_connected _shared_buffer0 15
     = (RadiaCode_connected, _shared_buffer0)) /\
  (12 <= 9 ->
     _connection (fst (setDisplayBrightness link RadiaCode_connected _shared_buffer0 12))
     = Some [wr DISP_BRT 12]) /\
  (9 < 12 -> setDisplayBrightness link RadiaCode_connected _shared_buffer0 12
             = (RadiaCode_connected, _shared_buffer0)).
Proof.
  intros link wr.
  apply (display_setters_validate link RadiaCode_connected [] _shared_buffer0 15 12).
  reflexivity.
Defined.





(** X17. [setVibroCtrl] sends the flags unchanged when none of CLICKS,
    CONNECTION and POWER is among them, and nothing at all when one is;
    [setLanguage] sends 0 for the string "ru", 1 for "en", and nothing for
    any other string.  A rejected call leaves the session and the buffer
    store as they were. *)
Theorem vibro_and_language_setters_validate (link : list (list byte) -> list byte)
    (rc : RadiaCode) (sent : list (list byte)) (shared : list byte)
    (ctrl_flags : Z) (lang : list byte) :
  _connection rc = Some sent ->
  0 <= ctrl_flags < 2 ^ 32 ->
  let wr := fun id value =>
    full_request_of (_seq rc) WR_VIRT_SFR (le32_bytes id ++ le32_bytes value) in
  let unsupported := Z.lor CLICKS (Z.lor CONNECTION POWER) in
  (Z.land ctrl_flags unsupported = 0 ->
     _connection (fst (setVibroCtrl link rc shared ctrl_flags))
     = Some (wr VIBRO_CTRL ctrl_flags :: sent)) /\
  (Z.land ctrl_flags unsupported <> 0 ->
     setVibroCtrl link rc shared ctrl_flags = (rc, shared)) /\
  (lang = lang_ru ->
     _connection (fst (setLanguage link rc shared lang))
     = Some (wr DEVICE_LANG 0 :: sent)) /\
  (lang = lang_en ->
     _connection (fst (setLanguage link rc shared lang))
     = Some (wr DEVICE_LANG 1 :: sent)) /\
  (lang <> lang_ru -> lang <> lang_en -> setLanguage link rc shared lang = (rc, shared)).
Proof.
  intros Hc Hrange wr unsupported.
  assert (Hmask : Z.land ctrl_flags unsupported = 0 <->
                  Z.land ctrl_flags CLICKS = 0 /\ Z.land ctrl_flags CONNECTION = 0 /\
                  Z.land ctrl_flags POWER = 0).
  { subst unsupported. rewrite !Z.land_lor_distr_r, !Z.lor_eq_0_iff. reflexivity. }
  split; [|split; [|split; [|split]]].
  - intros Hnone. apply Hmask in Hnone. destruct Hnone as (H1 & H2 & H3).
    unfold setVibroCtrl. rewrite H1, H2, H3. cbn [Z.eqb negb].
    rewrite to_uint32_small by exact Hrange. apply writeRequest_sends. exact Hc.
  - intros Hsome. unfold setVibroCtrl.
    destruct (Z.eqb_spec (Z.land ctrl_flags CLICKS) 0) as [H1|]; [|reflexivity].
    destruct (Z.eqb_spec (Z.land ctrl_flags CONNECTION) 0) as [H2|]; [|reflexivity].
    destruct (Z.eqb_spec (Z.land ctrl_flags POWER) 0) as [H3|]; [|reflexivity].
    exfalso. apply Hsome. apply Hmask. auto.
  - intros ->. unfold setLanguage. cbn [str_equal lang_ru lang_en Byte.eqb negb andb].
    apply writeRequest_sends. exact Hc.
  - intros ->. unfold setLanguage. cbn [str_equal lang_ru lang_en Byte.eqb negb andb].
    apply writeRequest_sends. exact Hc.
  - intros Hru Hen. unfold setLanguage.
    destruct (str_equal lang lang_ru) eqn:Eru; [apply str_equal_eq in Eru; contradiction|].
    destruct (str_equal lang lang_en) eqn:Een; [apply str_equal_eq in Een; contradiction|].
    reflexivity.
Qed.

Lemma vibro_and_language_setters_validate_witness :
  let link := fun _ : list (list byte) => [x25; x08; x00; x80; x01; x00; x00; x00] in
  let wr := fun id value =>
    full_request_of 0 WR_VIRT_SFR (le32_bytes id ++ le32_bytes value) in
  let unsupported := Z.lor CLICKS (Z.lor CONNECTION POWER) in
  let lang := [x64; x65] in
  (Z.land 0x0d unsupported = 0 ->
     _connection (fst (setVibroCtrl link RadiaCode_connected _shared_buffer0 0x0d))
     = Some [wr VIBRO_CTRL 0x0d]) /\
  (Z.land 0x0d unsupported <> 0 ->
     setVibroCtrl link RadiaCode_connected _shared_buffer0 0x0d
     = (RadiaCode_connected, _shared_buffer0)) /\
  (lang = lang_ru ->
     _connection (fst (setLanguage link RadiaCode_connected _shared_buffer0 lang))
     = Some [wr DEVICE_LANG 0]) /\
  (lang = lang_en ->
     _connection (fst (setLanguage link RadiaCode_connected _shared_buffer0 lang))
     = Some [wr DEVICE_LANG 1]) /\
  (lang <> lang_ru -> lang <> lang_en ->
     setLanguage link RadiaCode_connected _shared_buffer0 lang
     = (RadiaCode_connected, _shared_buffer0)).
Proof.
  intros link wr unsupported lang.
  apply (vibro_and_language_setters_validate link RadiaCode_connected []
           _shared_buffer0 0x0d lang).
  - reflexivity.
  - lia.
Defined.

(** ** Telemetry: every record costs at least its header *)

Lemma decodeDataBuf_loop_consumes (float_of_int : Z -> float32)
    (fdiv : float32 -> float32 -> float32) (offset_undefined : Z -> Z)
    (base_time_sec : Z) (fuel : nat) :
  forall (next_seq : Z) (first_packet : bool) (ret : list DataItem) (br : BytesBuffer),
    buffer_ok br -> _size br - _position br < 7 * Z.of_nat fuel ->
    exists items br',
      decodeDataBuf_loop float_of_int fdiv offset_undefined fuel
          base_time_sec next_seq first_packet ret br
      = Some (items, br') /\
      buffer_ok br' /\ _size br' = _size br /\
      firstn (List.length ret) items = ret /\
      7 * (Z.of_nat (List.length items) - Z.of_nat (List.length ret))
      <= _position br' - _position br.
Proof.
  induction fuel as [|fuel IH]; intros next_seq first_packet ret br Hok Hfuel.
  - destruct Hok as (Hp & _). simpl in Hfuel. lia.
  - cbn [decodeDataBuf_loop]. rewrite (available_eq br Hok).
    destruct (Z.geb_spec (_size br - _position br) 7) as [Hge|Hlt].
    2:{ exists ret, br. split; [reflexivity|]. split; [exact Hok|].
        split; [reflexivity|]. split; [apply firstn_all | lia]. }
    rewrite (read_header_ok br Hok) by lia.
    assert (Hok1 : buffer_ok (with_position br (_position br + 7))).
    { apply buffer_ok_with_position; [assumption|]. destruct Hok as (Hp & _). lia. }
    match goal with
    | |- context [decode_record _ _ ?e ?g ?t ?b1] =>
      destruct (post_decode_record float_of_int fdiv e g t b1 Hok1)
        as (_ & Hok2 & Hpos2 & Hsz2);
      destruct (decode_record float_of_int fdiv e g t b1) as [[item| |] br2]
    end; cbn [fst snd _position _size with_position] in *.
    + match goal with
      | |- context [decodeDataBuf_loop _ _ _ fuel _ ?ns ?fp (ret ++ [item]) br2] =>
        destruct (IH ns fp (ret ++ [item]) br2 Hok2 ltac:(lia))
          as (items & br' & E & Hok' & Hsz' & Hpre & Hcost)
      end.
      exists items, br'. split; [exact E|]. split; [exact Hok'|]. split; [lia|].
      rewrite length_app in Hpre, Hcost. cbn [List.length] in Hpre, Hcost.
      split; [|lia].
      apply (f_equal (firstn (List.length ret))) in Hpre.
      rewrite firstn_firstn in Hpre.
      replace (Init.Nat.min (List.length ret) (List.length ret + 1)) with (List.length ret)
        in Hpre by lia.
      rewrite Hpre, firstn_app, firstn_all, Nat.sub_diag. cbn [firstn].
      apply app_nil_r.
    + match goal with
      | |- context [decodeDataBuf_loop _ _ _ fuel _ ?ns ?fp ret br2] =>
        destruct (IH ns fp ret br2 Hok2 ltac:(lia))
          as (items & br' & E & Hok' & Hsz' & Hpre & Hcost)
      end.
      exists items, br'. split; [exact E|]. split; [exact Hok'|]. split; [lia|].
      split; [exact Hpre | lia].
    + exists ret, br2. split; [reflexivity|]. split; [exact Hok2|]. split; [lia|].
      split; [apply firstn_all | lia].
Qed.

(** X18. [decodeDataBuf] returns on every well-formed cursor, whatever
    bytes it holds, and every record it returns has cost at least the 7
    bytes of a header: seven times the number of records is at most the
    distance the cursor was moved, which is at most what was available.
    The cursor stays well formed and the data size is not changed. *)
Theorem decodeDataBuf_consumes_header_per_record (float_of_int : Z -> float32)
    (fdiv : float32 -> float32 -> float32) (offset_undefined : Z -> Z)
    (br : BytesBuffer) (base_time_sec : Z) :
  buffer_ok br ->
  exists items br',
    decodeDataBuf float_of_int fdiv offset_undefined br base_time_sec = Some (items, br') /\
    buffer_ok br' /\ _size br' = _size br /\
    7 * Z.of_nat (List.length items) <= _position br' - _position br /\
    _position br' - _position br <= fst (available br).
Proof.
  intros Hok. unfold decodeDataBuf.
  destruct (decodeDataBuf_loop_consumes float_of_int fdiv offset_undefined base_time_sec
              (S (Z.to_nat (fst (available br)))) 0 true [] br Hok)
    as (items & br' & E & Hok' & Hsz & _ & Hcost).
  { rewrite (available_eq br Hok). destruct Hok as (Hp & _). lia. }
  exists items, br'. split; [exact E|]. split; [exact Hok'|]. split; [exact Hsz|].
  cbn [List.length Z.of_nat] in Hcost. split; [lia|].
  rewrite (available_eq br Hok). destruct Hok' as (Hp' & _). lia.
Qed.

Lemma decodeDataBuf_consumes_header_per_record_witness :
  let br := with_position
              (BytesBuffer_of _shared_buffer0
                 [x26; x08; x00; x80;  x01; x00; x00; x00;  x0b; x00; x00; x00;
                  x07; x00; x07; xe8; x03; x00; x00;  x02; x05; x01; x00]) 12 in
  exists items br',
    decodeDataBuf (fun z => F32 z) (fun a _ => a) (fun _ => 0) br 1000 = Some (items, br') /\
    buffer_ok br' /\ _size br' = _size br /\
    7 * Z.of_nat (List.length items) <= _position br' - _position br /\
    _position br' - _position br <= fst (available br).
Proof.
  intros br.
  apply (decodeDataBuf_consumes_header_per_record (fun z => F32 z) (fun a _ => a)
           (fun _ => 0) br 1000).
  unfold buffer_ok. vm_compute. intuition discriminate.
Defined.

(** ** Device calls on an arbitrary transport *)

Lemma execute_keeps_fields (link : list (list byte) -> list byte) (rc : RadiaCode)
    (shared : list byte) (reqtype : Z) (args : list byte) :
  _base_time_sec (fst (execute link rc shared reqtype args)) = _base_time_sec rc /\
  _spectrum_format_version (fst (execute link rc shared reqtype args))
  = _spectrum_format_version rc.
Proof.
  unfold execute. destruct (_connection rc) as [sent|]; [|split; reflexivity].
  destruct (readBytes 4 _) as [hdr r]. split; reflexivity.
Qed.

Lemma readRequest_result (link : list (list byte) -> list byte) (rc : RadiaCode)
    (shared : list byte) (command_id : Z) (last_byte0 : byte) :
  Z.of_nat (List.length shared) = MAX_BUFFER_SIZE ->
  buffer_ok (snd (readRequest link rc shared command_id last_byte0)) /\
  _base_time_sec (fst (readRequest link rc shared command_id last_byte0))
  = _base_time_sec rc /\
  _spectrum_format_version (fst (readRequest link rc shared command_id last_byte0))
  = _spectrum_format_version rc.
Proof.
  intros Hsh.
  destruct (execute_response link rc shared RD_VIRT_STRING (le32_bytes command_id) Hsh)
    as (Hok & Hpos).
  destruct (execute_keeps_fields link rc shared RD_VIRT_STRING (le32_bytes command_id))
    as (Hbase & Hver).
  unfold readRequest.
  destruct (execute link rc shared RD_VIRT_STRING (le32_bytes command_id)) as [rc1 r0].
  cbn [fst snd] in Hok, Hpos, Hbase, Hver.
  pose proof Hok as (Hp & Hs & Hc & Hl).
  assert (Hnew : buffer_ok (BytesBuffer_new (_fixed_data r0))).
  { apply buffer_ok_new. exact Hl. }
  unfold MAX_BUFFER_SIZE in Hp, Hs, Hc, Hl.
  destruct (Z.ltb_spec (_size r0) 8) as [Hlt8|Hge8]; [cbn [fst snd]; auto|].
  assert (Hp4 : _position r0 = 4) by lia.
  rewrite (readUint32_ok r0 Hok) by lia. rewrite Hp4.
  assert (Hok1 : buffer_ok (with_position r0 (4 + 4))).
  { apply buffer_ok_with_position; [assumption | lia]. }
  destruct (Z.lt_ge_cases (_size r0) 12) as [Hlt12|Hge12].
  - rewrite (readUint32_fail _ Hok1) by (cbn [_position _size with_position]; lia).
    cbn [andb negb fst snd]. auto.
  - rewrite (readUint32_ok _ Hok1) by (cbn [_position _size with_position]; lia).
    cbn [andb negb _position _size _fixed_data with_position].
    assert (Hok2 : buffer_ok (with_position (with_position r0 (4 + 4)) (4 + 4 + 4))).
    { apply buffer_ok_with_position; [assumption|]. cbn [_size with_position]. lia. }
    set (r2 := with_position (with_position r0 (4 + 4)) (4 + 4 + 4)) in *.
    rewrite (available_eq r2 Hok2).
    assert (Hs2 : _size r2 = _size r0) by reflexivity.
    assert (Hp2 : _position r2 = 12) by reflexivity.
    assert (Hc2 : _capacity r2 = 4096) by exact Hc.
    match goal with
    | |- context [if ?c then _ else _] => destruct c
    end; [|cbn [fst snd]; auto].
    match goal with
    | |- context [if u8 ?lb =? 0 then _ else _] => destruct (u8 lb =? 0)
    end; [|cbn [fst snd]; auto].
    cbn [fst snd]. split; [|auto].
    rewrite ?Hs2, ?Hp2. unfold wrap_size.
    change (4 + 4 + 4 + (_size r0 - 12)) with (12 + (_size r0 - 12)).
    rewrite (to_uint32_small (12 + (_size r0 - 12))) by lia.
    rewrite (to_uint32_small (12 + (_size r0 - 12) - 1)) by lia.
    apply setSize_ok; [exact Hok2 | unfold MAX_BUFFER_SIZE; lia].
Qed.

(** X19. [RadiaCode::dataBuf] returns for every response the transport can
    hand back, well formed or not: the decoding loop ends, the number of
    records is bounded by the buffer (seven bytes of header each out of at
    most MAX_BUFFER_SIZE), and the base time of the session is not touched.
    Without a connection the result is empty. *)
Theorem dataBuf_returns_on_any_response (link : list (list byte) -> list byte)
    (float_of_int : Z -> float32) (fdiv : float32 -> float32 -> float32) (offset_undefined : Z -> Z)
    (rc : RadiaCode) (shared : list byte) (last_byte0 : byte) :
  Z.of_nat (List.length shared) = MAX_BUFFER_SIZE ->
  exists items br,
    snd (dataBuf link float_of_int fdiv offset_undefined rc shared last_byte0) = Some (items, br) /\
    buffer_ok br /\
    7 * Z.of_nat (List.length items) <= MAX_BUFFER_SIZE /\
    _base_time_sec (fst (dataBuf link float_of_int fdiv offset_undefined rc shared last_byte0))
    = _base_time_sec rc /\
    (_connection rc = None -> items = []).
Proof.
  intros Hsh. unfold dataBuf.
  destruct (readRequest_result link rc shared DATA_BUF last_byte0 Hsh) as (Hok & Hbase & _).
  assert (Hnone : _connection rc = None ->
                  _size (snd (readRequest link rc shared DATA_BUF last_byte0)) = 0).
  { intros Hc. unfold readRequest, execute. rewrite Hc. reflexivity. }
  destruct (readRequest link rc shared DATA_BUF last_byte0) as [rc1 r].
  cbn [fst snd] in *.
  destruct (decodeDataBuf_loop_consumes float_of_int fdiv offset_undefined (_base_time_sec rc1)
              (S (Z.to_nat (fst (available r)))) 0 true [] r Hok)
    as (items & br' & E & Hok' & Hsz & _ & Hcost).
  { rewrite (available_eq r Hok). destruct Hok as (Hp & _). lia. }
  exists items, br'. unfold decodeDataBuf.
  cbn [List.length Z.of_nat] in Hcost.
  destruct Hok as (Hp & Hs & Hcap & _). destruct Hok' as (Hp' & Hs' & Hcap' & Hl').
  split; [exact E|]. split; [unfold buffer_ok; auto|]. split; [lia|].
  split; [exact Hbase|].
  intros Hc. specialize (Hnone Hc). destruct items as [|item items]; [reflexivity|].
  cbn [List.length] in Hcost. lia.
Qed.

Lemma dataBuf_returns_on_any_response_witness :
  let link := fun _ : list (list byte) =>
    [x26; x08; x00; x80;  x01; x00; x00; x00;  x0b; x00; x00; x00;
     x07; x00; x07; xe8; x03; x00; x00;  x02; x05; x01; x00] in
  exists items br,
    snd (dataBuf link (fun z => F32 z) (fun a _ => a) (fun _ => 0) RadiaCode_connected
           _shared_buffer0 xff) = Some (items, br) /\
    buffer_ok br /\
    7 * Z.of_nat (List.length items) <= MAX_BUFFER_SIZE /\
    _base_time_sec (fst (dataBuf link (fun z => F32 z) (fun a _ => a) (fun _ => 0)
                           RadiaCode_connected
                           _shared_buffer0 xff))
    = _base_time_sec RadiaCode_connected /\
    (_connection RadiaCode_connected = None -> items = []).
Proof.
  intros link.
  apply (dataBuf_returns_on_any_response link (fun z => F32 z) (fun a _ => a) (fun _ => 0)
           RadiaCode_connected _shared_buffer0 xff).
  vm_compute. reflexivity.
Defined.

(** ** Telemetry: the sequence counter does not steer the decoding *)

(** X20. The sequence check of [decodeDataBuf] only logs and
    resynchronises: started from any expected sequence number and with or
    without the first-packet flag, the loop decodes the same records and
    leaves the cursor in the same place.  A gap in the sequence numbers never
    drops or changes a record. *)
Theorem decodeDataBuf_ignores_sequence_gaps (float_of_int : Z -> float32)
    (fdiv : float32 -> float32 -> float32) (offset_undefined : Z -> Z)
    (base_time_sec : Z) (fuel : nat) :
  forall (next_seq next_seq' : Z) (first_packet first_packet' : bool)
         (ret : list DataItem) (br : BytesBuffer),
    decodeDataBuf_loop float_of_int fdiv offset_undefined fuel
        base_time_sec next_seq first_packet ret br
    = decodeDataBuf_loop float_of_int fdiv offset_undefined fuel
        base_time_sec next_seq' first_packet' ret br.
Proof.
  induction fuel as [|fuel IH]; intros ns ns' fp fp' ret br; [reflexivity|].
  cbn [decodeDataBuf_loop].
  destruct (fst (available br) >=? 7); [|reflexivity].
  destruct (read_header br) as [[[[seq eid] gid] ts_offset] br1].
  destruct (decode_record float_of_int fdiv eid gid
              (timestamp_of offset_undefined base_time_sec ts_offset) br1)
    as [[item| |] br2];
    reflexivity.
Qed.

(** ** Telemetry: the layout of a record, whole and cut short *)

Lemma value_of_at {A} (w : Z) (interp : list byte -> A) (zero : A) (rd : Cur (bool * A)) :
  (forall b, buffer_ok b -> read_spec w interp zero rd b) ->
  forall (b : BytesBuffer) (q : Z),
    buffer_ok b -> 0 <= q <= _size b ->
    value_of rd (with_position b q)
    = if q + w <=? _size b
      then (interp (slice (_fixed_data b) q w), with_position b (q + w))
      else (zero, with_position b q).
Proof.
  intros Hspec b q Hok Hq.
  assert (Hokq : buffer_ok (with_position b q)) by (apply buffer_ok_with_position; assumption).
  destruct (Hspec _ Hokq) as (Hiff & Hfail & Hpass).
  cbn [_position _size _fixed_data with_position] in Hiff, Hfail, Hpass.
  unfold value_of, bind, Cur_ret.
  destruct (rd (with_position b q)) as [[ok v] b1]. cbn [fst snd] in *.
  destruct (Z.leb_spec (q + w) (_size b)) as [Hin|Hout].
  - destruct ok; [|pose proof (proj2 Hiff Hin); discriminate].
    destruct (Hpass eq_refl) as (-> & ->). reflexivity.
  - destruct ok; [pose proof (proj1 Hiff eq_refl); lia|].
    destruct (Hfail eq_refl) as (-> & ->). reflexivity.
Qed.

Lemma value_readUint8_at (b : BytesBuffer) (q : Z) :
  buffer_ok b -> 0 <= q <= _size b ->
  value_of readUint8 (with_position b q)
  = if q + 1 <=? _size b
    then (le_uint (slice (_fixed_data b) q 1), with_position b (q + 1))
    else (0, with_position b q).
Proof. apply (value_of_at 1 le_uint 0 readUint8 readUint8_meets_spec). Qed.

Lemma value_readUint16_at (b : BytesBuffer) (q : Z) :
  buffer_ok b -> 0 <= q <= _size b ->
  value_of readUint16 (with_position b q)
  = if q + 2 <=? _size b
    then (le_uint (slice (_fixed_data b) q 2), with_position b (q + 2))
    else (0, with_position b q).
Proof. apply (value_of_at 2 le_uint 0 readUint16 readUint16_meets_spec). Qed.

Lemma value_readUint32_at (b : BytesBuffer) (q : Z) :
  buffer_ok b -> 0 <= q <= _size b ->
  value_of readUint32 (with_position b q)
  = if q + 4 <=? _size b
    then (le_uint (slice (_fixed_data b) q 4), with_position b (q + 4))
    else (0, with_position b q).
Proof. apply (value_of_at 4 le_uint 0 readUint32 readUint32_meets_spec). Qed.

Lemma value_readFloat_at (b : BytesBuffer) (q : Z) :
  buffer_ok b -> 0 <= q <= _size b ->
  value_of readFloat (with_position b q)
  = if q + 4 <=? _size b
    then (F32 (le_uint (slice (_fixed_data b) q 4)), with_position b (q + 4))
    else (fzero, with_position b q).
Proof.
  apply (value_of_at 4 (fun bs => F32 (le_uint bs)) fzero readFloat readFloat_meets_spec).
Qed.

(** Where the product [ts_offset * 10] fits an [int] the timestamp is
    determined: the quotient by 1000 is the offset divided by 100. *)
Lemma timestamp_of_fits (offset_undefined : Z -> Z) (base_time_sec ts_offset : Z) :
  - 2 ^ 31 <= ts_offset * 10 < 2 ^ 31 ->
  timestamp_of offset_undefined base_time_sec ts_offset
  = to_uint32 (base_time_sec + Z.quot ts_offset 100).
Proof.
  intros Hts. unfold timestamp_of. cbv zeta.
  destruct (Z.leb_spec (- 2 ^ 31) (ts_offset * 10)) as [_|Hbad]; [|lia].
  destruct (Z.ltb_spec (ts_offset * 10) (2 ^ 31)) as [_|Hbad]; [|lia].
  cbn [andb]. change 1000 with (100 * 10).
  rewrite Z.quot_mul_cancel_r by lia. reflexivity.
Qed.

(** X21. The layout of a real-time record.  With 22 bytes at the cursor
    whose second and third bytes (eid, gid) are 0 and whose time offset,
    times ten, fits an [int], one turn of the loop of [decodeDataBuf] appends
    one [RealTimeData] built from fixed offsets of the record: the timestamp
    is the base time plus a hundredth of the int32 time offset at 3 (modulo
    2^32), the count rate at 7 and the dose rate at 11 are float bit
    patterns, the two errors at 15 and 17 are 16-bit values divided by 10,
    the flags are at 19 and the real-time flags at 21; the cursor then stands
    22 bytes further. *)
Theorem realtime_record_layout (float_of_int : Z -> float32)
    (fdiv : float32 -> float32 -> float32) (offset_undefined : Z -> Z)
    (base_time_sec : Z) (fuel : nat) (next_seq : Z) (first_packet : bool)
    (ret : list DataItem) (br : BytesBuffer) :
  buffer_ok br ->
  let p := _position br in
  let d := _fixed_data br in
  let ts_offset := to_int32 (le_uint (slice d (p + 3) 4)) in
  p + 22 <= _size br ->
  byte_at br (p + 1) = 0 -> byte_at br (p + 2) = 0 ->
  - 2 ^ 31 <= ts_offset * 10 < 2 ^ 31 ->
  decodeDataBuf_loop float_of_int fdiv offset_undefined (S fuel) base_time_sec
    next_seq first_packet ret br
  = decodeDataBuf_loop float_of_int fdiv offset_undefined fuel base_time_sec
      (to_uint8 ((byte_at br p + 1) mod 256)) false
      (ret ++ [RealTimeData
                 (to_uint32 (base_time_sec + Z.quot ts_offset 100))
                 (F32 (le_uint (slice d (p + 7) 4)))
                 (fdiv (float_of_int (le_uint (slice d (p + 15) 2))) f10)
                 (F32 (le_uint (slice d (p + 11) 4)))
                 (fdiv (float_of_int (le_uint (slice d (p + 17) 2))) f10)
                 (le_uint (slice d (p + 19) 2))
                 (le_uint (slice d (p + 21) 1))])
      (with_position br (p + 22)).
Proof.
  intros Hok p d ts_offset Hin Heid Hgid Hts. pose proof Hok as (Hp & _). fold p in Hp.
  cbn [decodeDataBuf_loop]. rewrite (available_eq br Hok). fold p.
  destruct (Z.geb_spec (_size br - p) 7) as [_|Hbad]; [|lia].
  rewrite (read_header_ok br Hok) by (fold p; lia). fold p d ts_offset.
  rewrite (timestamp_of_fits offset_undefined base_time_sec ts_offset Hts).
  rewrite Heid, Hgid. unfold decode_record. cbn [Z.eqb andb]. unfold bind.
  rewrite (value_readFloat_at br (p + 7) Hok) by lia.
  destruct (Z.leb_spec (p + 7 + 4) (_size br)) as [_|Hbad]; [|lia].
  rewrite (value_readFloat_at br (p + 7 + 4) Hok) by lia.
  destruct (Z.leb_spec (p + 7 + 4 + 4) (_size br)) as [_|Hbad]; [|lia].
  rewrite (value_readUint16_at br (p + 7 + 4 + 4) Hok) by lia.
  destruct (Z.leb_spec (p + 7 + 4 + 4 + 2) (_size br)) as [_|Hbad]; [|lia].
  rewrite (value_readUint16_at br (p + 7 + 4 + 4 + 2) Hok) by lia.
  destruct (Z.leb_spec (p + 7 + 4 + 4 + 2 + 2) (_size br)) as [_|Hbad]; [|lia].
  rewrite (value_readUint16_at br (p + 7 + 4 + 4 + 2 + 2) Hok) by lia.
  destruct (Z.leb_spec (p + 7 + 4 + 4 + 2 + 2 + 2) (_size br)) as [_|Hbad]; [|lia].
  rewrite (value_readUint8_at br (p + 7 + 4 + 4 + 2 + 2 + 2) Hok) by lia.
  destruct (Z.leb_spec (p + 7 + 4 + 4 + 2 + 2 + 2 + 1) (_size br)) as [_|Hbad]; [|lia].
  unfold Cur_ret. fold d.
  replace (p + 7 + 4 + 4 + 2 + 2 + 2 + 1) with (p + 22) by lia.
  replace (p + 7 + 4 + 4 + 2 + 2 + 2) with (p + 21) by lia.
  replace (p + 7 + 4 + 4 + 2 + 2) with (p + 19) by lia.
  replace (p + 7 + 4 + 4 + 2) with (p + 17) by lia.
  replace (p + 7 + 4 + 4) with (p + 15) by lia.
  replace (p + 7 + 4) with (p + 11) by lia.
  reflexivity.
Qed.

Lemma realtime_record_layout_witness :
  let br := with_position
              (BytesBuffer_of _shared_buffer0
                 [x26; x08; x00; x80;  x01; x00; x00; x00;  x16; x00; x00; x00;
                  x07; x00; x00;  xe8; x03; x00; x00;
                  x00; x00; x20; x41;  x00; x00; xc8; x42;
                  x0a; x00;  x14; x00;  x01; x00;  x02]) 12 in
  let foi := fun z => F32 z in
  let fdiv := fun (a _ : float32) => a in
  let undef := fun _ : Z => 0 in
  let p := _position br in
  let d := _fixed_data br in
  let ts_offset := to_int32 (le_uint (slice d (p + 3) 4)) in
  decodeDataBuf_loop foi fdiv undef 2 1000 0 true [] br
  = decodeDataBuf_loop foi fdiv undef 1 1000 (to_uint8 ((byte_at br p + 1) mod 256)) false
      ([] ++ [RealTimeData
                (to_uint32 (1000 + Z.quot ts_offset 100))
                (F32 (le_uint (slice d (p + 7) 4)))
                (fdiv (foi (le_uint (slice d (p + 15) 2))) f10)
                (F32 (le_uint (slice d (p + 11) 4)))
                (fdiv (foi (le_uint (slice d (p + 17) 2))) f10)
                (le_uint (slice d (p + 19) 2))
                (le_uint (slice d (p + 21) 1))])
      (with_position br (p + 22)).
Proof.
  intros br foi fdiv undef p d ts_offset.
  apply (realtime_record_layout foi fdiv undef 1000 1 0 true [] br).
  - unfold buffer_ok. vm_compute. intuition discriminate.
  - vm_compute. discriminate.
  - vm_compute. reflexivity.
  - vm_compute. reflexivity.
  - vm_compute. split; [discriminate | reflexivity].
Defined.

Lemma decodeDataBuf_loop_exit (float_of_int : Z -> float32)
    (fdiv : float32 -> float32 -> float32) (offset_undefined : Z -> Z)
    (fuel : nat) (base_time_sec next_seq : Z)
    (first_packet : bool) (ret : list DataItem) (br : BytesBuffer) :
  fst (available br) < 7 ->
  decodeDataBuf_loop float_of_int fdiv offset_undefined (S fuel)
      base_time_sec next_seq first_packet ret br
  = Some (ret, br).
Proof.
  intros Hlt. cbn [decodeDataBuf_loop].
  destruct (Z.geb_spec (fst (available br)) 7); [lia | reflexivity].
Qed.

(** X22. A record cut off after its header is still reported.  When
    exactly the 7 header bytes are left, they name one of the decoded record
    types and the time offset, times ten, fits an [int], [decodeDataBuf]
    returns one record of that type, stamped base time plus a hundredth of
    the offset, whose fields all come from failed reads: zero counts, rates
    and flags, errors of 0 / 10, and for the rare-data record a temperature
    computed from the raw value 0, that is (0 - 2000) / 100.  No read failure
    is reported to the caller and the cursor is left at the end of the
    data. *)
Theorem decodeDataBuf_zero_fills_truncated_record (float_of_int : Z -> float32)
    (fdiv : float32 -> float32 -> float32) (offset_undefined : Z -> Z)
    (br : BytesBuffer) (base_time_sec : Z) :
  buffer_ok br ->
  let p := _position br in
  let ts_offset := to_int32 (le_uint (slice (_fixed_data br) (p + 3) 4)) in
  p + 7 = _size br ->
  byte_at br (p + 1) = 0 ->
  - 2 ^ 31 <= ts_offset * 10 < 2 ^ 31 ->
  let gid := byte_at br (p + 2) in
  let ts := to_uint32 (base_time_sec + Z.quot ts_offset 100) in
  let zero_err := fdiv (float_of_int 0) f10 in
  forall item,
    In (gid, item)
       [(0, RealTimeData ts fzero zero_err fzero zero_err 0 0);
        (1, RawData ts fzero fzero);
        (2, DoseRateDB ts 0 fzero fzero zero_err 0);
        (3, RareData ts 0 fzero (fdiv (float_of_int (0 - 2000)) f100)
                     (fdiv (float_of_int 0) f100) 0);
        (7, Event ts 0 0 0);
        (9, RawData ts fzero fzero)] ->
    decodeDataBuf float_of_int fdiv offset_undefined br base_time_sec
    = Some ([item], with_position br (_size br)).
Proof.
  intros Hok p ts_offset Hin Heid Hts gid ts zero_err item Hitem.
  pose proof Hok as (Hp & _). fold p in Hp.
  unfold decodeDataBuf. rewrite (available_eq br Hok). fold p.
  replace (_size br - p) with 7 by lia. change (Z.to_nat 7) with 7%nat.
  remember 7%nat as fuel eqn:Hfuel.
  cbn [decodeDataBuf_loop]. rewrite (available_eq br Hok). fold p.
  replace (_size br - p) with 7 by lia. change (7 >=? 7) with true. cbv iota.
  rewrite (read_header_ok br Hok) by (fold p; lia). fold p gid ts_offset.
  rewrite (timestamp_of_fits offset_undefined base_time_sec ts_offset Hts). fold ts.
  rewrite Heid.
  assert (Hend : p + 7 = _size br) by exact Hin.
  assert (Hleft : fst (available (with_position br (p + 7))) = 0).
  { unfold available. cbn [fst _size _position with_position].
    replace (_size br - (p + 7)) with 0 by lia. reflexivity. }
  assert (Hf : value_of readFloat (with_position br (p + 7))
               = (fzero, with_position br (p + 7))).
  { rewrite (value_readFloat_at br (p + 7) Hok) by lia.
    destruct (Z.leb_spec (p + 7 + 4) (_size br)); [lia | reflexivity]. }
  assert (H32 : value_of readUint32 (with_position br (p + 7))
                = (0, with_position br (p + 7))).
  { rewrite (value_readUint32_at br (p + 7) Hok) by lia.
    destruct (Z.leb_spec (p + 7 + 4) (_size br)); [lia | reflexivity]. }
  assert (H16 : value_of readUint16 (with_position br (p + 7))
                = (0, with_position br (p + 7))).
  { rewrite (value_readUint16_at br (p + 7) Hok) by lia.
    destruct (Z.leb_spec (p + 7 + 2) (_size br)); [lia | reflexivity]. }
  assert (H8 : value_of readUint8 (with_position br (p + 7))
               = (0, with_position br (p + 7))).
  { rewrite (value_readUint8_at br (p + 7) Hok) by lia.
    destruct (Z.leb_spec (p + 7 + 1) (_size br)); [lia | reflexivity]. }
  cbn [In] in Hitem.
  destruct Hitem as [E|[E|[E|[E|[E|[E|[]]]]]]]; injection E as Hg <-; rewrite <- Hg;
    unfold decode_record; cbn [Z.eqb andb Pos.eqb]; unfold bind;
    repeat (first [rewrite Hf | rewrite H32 | rewrite H16 | rewrite H8]); unfold Cur_ret;
    subst fuel; rewrite decodeDataBuf_loop_exit by (rewrite Hleft; lia);
    rewrite Hend; reflexivity.
Qed.

Lemma decodeDataBuf_zero_fills_truncated_record_witness :
  let br := with_position
              (BytesBuffer_of _shared_buffer0
                 [x26; x08; x00; x80;  x01; x00; x00; x00;  x07; x00; x00; x00;
                  x07; x00; x03;  xe8; x03; x00; x00]) 12 in
  let foi := fun z => F32 z in
  let fdiv := fun (a _ : float32) => a in
  let undef := fun _ : Z => 0 in
  decodeDataBuf foi fdiv undef br 1000
  = Some ([RareData (to_uint32 (1000 + Z.quot 1000 100)) 0 fzero
                    (fdiv (foi (0 - 2000)) f100)
                    (fdiv (foi 0) f100) 0],
          with_position br (_size br)).
Proof.
  intros br foi fdiv undef.
  apply (decodeDataBuf_zero_fills_truncated_record foi fdiv undef br 1000).
  - unfold buffer_ok. vm_compute. intuition discriminate.
  - vm_compute. reflexivity.
  - vm_compute. reflexivity.
  - vm_compute. split; [discriminate | reflexivity].
  - vm_compute. auto 10.
Defined.

(** ** Spectrum counts, format 0: the counts are the words of the payload *)

Lemma with_position_same (b : BytesBuffer) : with_position b (_position b) = b.
Proof. destruct b. reflexivity. Qed.

Lemma decodeCountsV0_loop_words (fuel : nat) :
  forall (sp : Spectrum) (br : BytesBuffer),
    buffer_ok br ->
    0 <= count_size sp <= MAX_CHANNELS ->
    Z.of_nat (List.length (counts sp)) = MAX_CHANNELS ->
    _size br - _position br < 4 * Z.of_nat fuel ->
    exists sp' n,
      decodeCountsV0_loop fuel sp br = Some (sp', with_position br (_position br + 4 * n)) /\
      0 <= n /\ 4 * n <= _size br - _position br /\
      count_size sp' = count_size sp + n /\ count_size sp + n <= MAX_CHANNELS /\
      (count_size sp + n = MAX_CHANNELS \/ _size br - _position br < 4 * (n + 1)) /\
      Z.of_nat (List.length (counts sp')) = MAX_CHANNELS /\
      (duration_sec sp', a0 sp', a1 sp', a2 sp') = (duration_sec sp, a0 sp, a1 sp, a2 sp) /\
      (forall i, 0 <= i < count_size sp -> load 0 (counts sp') i = load 0 (counts sp) i) /\
      (forall i, 0 <= i < n ->
         load 0 (counts sp') (count_size sp + i)
         = le_uint (slice (_fixed_data br) (_position br + 4 * i) 4)).
Proof.
  unfold MAX_CHANNELS.
  induction fuel as [|fuel IH]; intros sp br Hok Hc Hlen Hfuel.
  - destruct Hok as (Hp & _). simpl in Hfuel. lia.
  - pose proof Hok as (Hp & _).
    assert (Hexit : _size br - _position br < 4 \/ count_size sp = 1024 ->
              exists sp' n,
                Some (sp, br) = Some (sp', with_position br (_position br + 4 * n)) /\
                0 <= n /\ 4 * n <= _size br - _position br /\
                count_size sp' = count_size sp + n /\ count_size sp + n <= 1024 /\
                (count_size sp + n = 1024 \/ _size br - _position br < 4 * (n + 1)) /\
                Z.of_nat (List.length (counts sp')) = 1024 /\
                (duration_sec sp', a0 sp', a1 sp', a2 sp')
                = (duration_sec sp, a0 sp, a1 sp, a2 sp) /\
                (forall i, 0 <= i < count_size sp ->
                   load 0 (counts sp') i = load 0 (counts sp) i) /\
                (forall i, 0 <= i < n ->
                   load 0 (counts sp') (count_size sp + i)
                   = le_uint (slice (_fixed_data br) (_position br + 4 * i) 4))).
    { intros Hwhy. exists sp, 0. rewrite Z.mul_0_r, Z.add_0_r, with_position_same.
      split; [reflexivity|]. split; [lia|]. split; [lia|]. split; [lia|]. split; [lia|].
      split; [lia|]. split; [exact Hlen|]. split; [reflexivity|].
      split; [reflexivity|]. intros i Hi. lia. }
    cbn [decodeCountsV0_loop]. rewrite (available_eq br Hok). unfold MAX_CHANNELS.
    destruct (Z.gtb_spec (_size br - _position br) 0) as [_|Hz]; cbn [andb];
      [|apply Hexit; lia].
    destruct (Z.geb_spec (_size br - _position br) 4) as [Hge|Hlt]; cbn [andb];
      [|apply Hexit; lia].
    destruct (Z.ltb_spec (count_size sp) 1024) as [Hroom|Hfull];
      [|apply Hexit; lia].
    unfold decodeCountsV0_step, bind. rewrite (readUint32_ok br Hok) by lia.
    unfold MAX_CHANNELS.
    destruct (Z.ltb_spec (count_size sp) 1024) as [_|Hbad]; [|lia].
    unfold Cur_ret.
    set (w := le_uint (slice (_fixed_data br) (_position br) 4)).
    assert (Hok1 : buffer_ok (with_position br (_position br + 4))).
    { apply buffer_ok_with_position; [assumption | lia]. }
    assert (Hc1 : count_size (append_count sp w) = count_size sp + 1).
    { unfold append_count. cbn [count_size]. apply to_uint32_small. lia. }
    destruct (IH (append_count sp w) (with_position br (_position br + 4)) Hok1)
      as (sp' & n & E & Hn & Hfit & Hcs & Hcap & Hstop & Hlen' & Hhdr & Hold & Hnew).
    { rewrite Hc1. lia. }
    { unfold append_count. cbn [counts]. rewrite poke_length. exact Hlen. }
    { cbn [_size _position with_position]. lia. }
    rewrite Hc1 in Hcs, Hcap, Hstop, Hold, Hnew.
    cbn [_size _position _fixed_data with_position] in E, Hfit, Hstop, Hnew.
    assert (Hbr : with_position (with_position br (_position br + 4))
                                (_position br + 4 + 4 * n)
                  = with_position br (_position br + 4 * (n + 1))).
    { unfold with_position. cbn [_fixed_data _size _capacity]. f_equal. lia. }
    rewrite Hbr in E.
    exists sp', (n + 1). split; [exact E|].
    split; [lia|]. split; [lia|]. split; [lia|]. split; [lia|]. split; [lia|].
    split; [exact Hlen'|]. split; [exact Hhdr|].
    assert (Hcell : forall i, 0 <= i <= count_size sp ->
              load 0 (counts sp') i = if i =? count_size sp then w else load 0 (counts sp) i).
    { intros i Hi. rewrite (Hold i) by lia. unfold append_count. cbn [counts].
      apply load_poke; lia. }
    split.
    + intros i Hi. rewrite (Hcell i) by lia.
      destruct (Z.eqb_spec i (count_size sp)); [lia | reflexivity].
    + intros i Hi. destruct (Z.eq_dec i 0) as [->|Hnz].
      * rewrite Z.add_0_r, Z.mul_0_r, Z.add_0_r. rewrite (Hcell (count_size sp)) by lia.
        rewrite Z.eqb_refl. reflexivity.
      * replace (count_size sp + i) with (count_size sp + 1 + (i - 1)) by lia.
        rewrite (Hnew (i - 1)) by lia. do 2 f_equal. lia.
Qed.

(** X23. Format 0 of the spectrum payload is a plain array of 32-bit
    words.  On a well-formed cursor with [avail] bytes left and the counts
    array at its extent, [decodeCountsV0] returns with
    min(avail / 4, MAX_CHANNELS) channels; channel i is the little-endian
    word at offset 4 i from the cursor, the cursor ends right after the last
    word taken, and duration and calibration are not touched.  Trailing
    bytes that do not make a word, and words beyond MAX_CHANNELS, are left
    unread. *)
Theorem decodeCountsV0_reads_words (br : BytesBuffer) (sp : Spectrum) :
  buffer_ok br ->
  Z.of_nat (List.length (counts sp)) = MAX_CHANNELS ->
  let p := _position br in
  let n := Z.min ((_size br - p) / 4) MAX_CHANNELS in
  exists sp',
    decodeCountsV0 br sp = Some (sp', with_position br (p + 4 * n)) /\
    Spectrum_size sp' = n /\
    (forall i, 0 <= i < n ->
       Spectrum_at sp' i = le_uint (slice (_fixed_data br) (p + 4 * i) 4)) /\
    (duration_sec sp', a0 sp', a1 sp', a2 sp') = (duration_sec sp, a0 sp, a1 sp, a2 sp).
Proof.
  intros Hok Hlen p n. pose proof Hok as (Hp & _). fold p in Hp.
  unfold decodeCountsV0. rewrite (available_eq br Hok). fold p.
  unfold MAX_CHANNELS in *.
  pose proof (Z.div_mod (_size br - p) 4 ltac:(lia)) as Hdm.
  pose proof (Z.mod_pos_bound (_size br - p) 4 ltac:(lia)) as Hmb.
  destruct (Z.ltb_spec (_size br - p) 4) as [Hshort|Henough].
  - assert (Hn : n = 0) by (subst n; lia).
    exists (with_count_size sp 0). rewrite Hn, Z.mul_0_r, Z.add_0_r.
    unfold p. rewrite with_position_same.
    split; [reflexivity|]. split; [reflexivity|]. split; [intros i Hi; lia | reflexivity].
  - destruct (decodeCountsV0_loop_words (S (Z.to_nat (_size br - p))) (with_count_size sp 0)
                br Hok)
      as (sp' & m & E & Hm & Hfit & Hcs & Hcap & Hstop & _ & Hhdr & _ & Hnew).
    { cbn [count_size with_count_size]. unfold MAX_CHANNELS. lia. }
    { exact Hlen. }
    { fold p. lia. }
    cbn [count_size with_count_size] in Hcs, Hcap, Hstop, Hnew.
    unfold MAX_CHANNELS in Hcap, Hstop. fold p in E, Hfit, Hstop, Hnew.
    assert (Hmn : m = n) by (subst n; lia).
    rewrite Hmn in *. exists sp'.
    split; [exact E|]. split; [unfold Spectrum_size; lia|]. split; [|exact Hhdr].
    intros i Hi. unfold Spectrum_at.
    destruct (Z.ltb_spec i (count_size sp')) as [_|Hbad]; [|lia].
    rewrite <- (Hnew i Hi). f_equal.
Qed.

Lemma decodeCountsV0_reads_words_witness :
  let br := with_position
              (BytesBuffer_of _shared_buffer0
                 [x01; x00; x00; x00;  x00; x01; x00; x00;  x2a; x00; x00; x00;  x07; x07])
              4 in
  let sp := Spectrum_new shared_counts0 in
  let p := _position br in
  let n := Z.min ((_size br - p) / 4) MAX_CHANNELS in
  exists sp',
    decodeCountsV0 br sp = Some (sp', with_position br (p + 4 * n)) /\
    Spectrum_size sp' = n /\
    (forall i, 0 <= i < n ->
       Spectrum_at sp' i = le_uint (slice (_fixed_data br) (p + 4 * i) 4)) /\
    (duration_sec sp', a0 sp', a1 sp', a2 sp') = (duration_sec sp, a0 sp, a1 sp, a2 sp).
Proof.
  intros br sp.
  apply (decodeCountsV0_reads_words br sp).
  - unfold buffer_ok. vm_compute. intuition discriminate.
  - vm_compute. reflexivity.
Defined.

(** ** Spectrum: the header, and the channel bound without the final clamp *)

Lemma decode_run_inv (n : nat) (vlen : Z) :
  forall (last : Z) (sp : Spectrum) (br : BytesBuffer),
    0 <= count_size sp <= MAX_CHANNELS ->
    let sp' := snd (fst (decode_run n vlen last sp br)) in
    count_size sp <= count_size sp' <= MAX_CHANNELS /\
    (duration_sec sp', a0 sp', a1 sp', a2 sp') = (duration_sec sp, a0 sp, a1 sp, a2 sp).
Proof.
  unfold MAX_CHANNELS.
  induction n as [|n IH]; intros last sp br Hc.
  - cbn [decode_run fst snd]. split; [lia | reflexivity].
  - cbn [decode_run]. unfold MAX_CHANNELS.
    destruct (Z.ltb_spec (count_size sp) 1024) as [Hroom|Hfull];
      [|cbn [fst snd]; split; [lia | reflexivity]].
    destruct (decode_entry vlen last br) as [[v| |] br1]; cbn [fst snd];
      try (split; [lia | reflexivity]).
    assert (Hc1 : count_size (append_count sp v) = count_size sp + 1).
    { unfold append_count. cbn [count_size]. apply to_uint32_small. lia. }
    destruct (IH v (append_count sp v) br1 ltac:(lia)) as (Hcs & Hhdr).
    split; [lia|]. rewrite Hhdr. reflexivity.
Qed.

Lemma decodeCountsV1_loop_inv (fuel : nat) :
  forall (last : Z) (sp : Spectrum) (br : BytesBuffer) (sp' : Spectrum) (br' : BytesBuffer),
    buffer_ok br -> 0 <= count_size sp <= MAX_CHANNELS ->
    decodeCountsV1_loop fuel last sp br = Some (sp', br') ->
    buffer_ok br' /\ count_size sp <= count_size sp' <= MAX_CHANNELS /\
    (duration_sec sp', a0 sp', a1 sp', a2 sp') = (duration_sec sp, a0 sp, a1 sp, a2 sp).
Proof.
  induction fuel as [|fuel IH]; intros last sp br sp' br' Hok Hc E; [discriminate|].
  cbn [decodeCountsV1_loop] in E.
  destruct ((fst (available br) >=? 2) && (count_size sp <? MAX_CHANNELS)).
  2:{ injection E as <- <-. split; [exact Hok|]. split; [lia | reflexivity]. }
  destruct (post_readUint16 br Hok) as (_ & Hok1 & _).
  destruct (readUint16 br) as [[ok u16] br1]. cbn [snd] in Hok1.
  destruct ok; cbn [negb] in E.
  2:{ injection E as <- <-. split; [exact Hok1|]. split; [lia | reflexivity]. }
  match type of E with
  | context [decode_run ?n ?vl last sp br1] =>
    destruct (decode_run_forward n vl last sp br1 Hok1) as (Hok2 & _);
    destruct (decode_run_inv n vl last sp br1 Hc) as (Hcs & Hhdr);
    destruct (decode_run n vl last sp br1) as [[[go_on last'] sp1] br2]
  end.
  cbn [fst snd] in Hok2, Hcs, Hhdr.
  destruct go_on.
  - destruct (IH last' sp1 br2 sp' br' Hok2 ltac:(lia) E) as (Hok' & Hcs' & Hhdr').
    split; [exact Hok'|]. split; [lia|]. rewrite Hhdr'. exact Hhdr.
  - injection E as <- <-. split; [exact Hok2|]. split; [lia | exact Hhdr].
Qed.

Lemma decodeCountsV1_bounded (br : BytesBuffer) (sp : Spectrum) :
  buffer_ok br ->
  exists sp' br',
    decodeCountsV1 br sp = Some (sp', br') /\ buffer_ok br' /\
    0 <= count_size sp' <= MAX_CHANNELS /\
    (duration_sec sp', a0 sp', a1 sp', a2 sp') = (duration_sec sp, a0 sp, a1 sp, a2 sp).
Proof.
  intros Hok. destruct (decodeCountsV1_total br sp Hok) as ([sp' br'] & E).
  exists sp', br'. split; [exact E|]. unfold decodeCountsV1 in E.
  destruct (fst (available br) <? 2).
  - injection E as <- <-. cbn [count_size with_count_size]. unfold MAX_CHANNELS.
    split; [exact Hok|]. split; [lia | reflexivity].
  - assert (Hc0 : 0 <= count_size (with_count_size sp 0) <= MAX_CHANNELS).
    { cbn [count_size with_count_size]. unfold MAX_CHANNELS. lia. }
    destruct (decodeCountsV1_loop_inv _ _ _ _ _ _ Hok Hc0 E) as (Hok' & Hcs & Hhdr).
    cbn [count_size with_count_size] in Hcs. split; [exact Hok'|]. split; [lia | exact Hhdr].
Qed.

Lemma decodeCountsV0_bounded (br : BytesBuffer) (sp : Spectrum) :
  buffer_ok br -> Z.of_nat (List.length (counts sp)) = MAX_CHANNELS ->
  exists sp' br',
    decodeCountsV0 br sp = Some (sp', br') /\ buffer_ok br' /\
    0 <= count_size sp' <= MAX_CHANNELS /\
    (duration_sec sp', a0 sp', a1 sp', a2 sp') = (duration_sec sp, a0 sp, a1 sp, a2 sp).
Proof.
  intros Hok Hlen. unfold decodeCountsV0. pose proof Hok as (Hp & _).
  destruct (fst (available br) <? 4).
  - exists (with_count_size sp 0), br. split; [reflexivity|]. split; [exact Hok|].
    cbn [count_size with_count_size]. unfold MAX_CHANNELS. split; [lia | reflexivity].
  - destruct (decodeCountsV0_loop_words (S (Z.to_nat (fst (available br))))
                (with_count_size sp 0) br Hok)
      as (sp' & n & E & Hn & Hfit & Hcs & Hcap & _ & _ & Hhdr & _).
    { cbn [count_size with_count_size]. unfold MAX_CHANNELS. lia. }
    { exact Hlen. }
    { rewrite (available_eq br Hok). lia. }
    cbn [count_size with_count_size] in Hcs, Hcap.
    exists sp', (with_position br (_position br + 4 * n)).
    split; [exact E|]. split; [apply buffer_ok_with_position; [exact Hok | lia]|].
    split; [lia | exact Hhdr].
Qed.

Lemma Spectrum_clear_length (sp : Spectrum) :
  List.length (counts (Spectrum_clear sp)) = List.length (counts sp).
Proof. unfold Spectrum_clear. cbn [counts]. apply memcpy_length. Qed.

Lemma decodeSpectrum_bounded (br : BytesBuffer) (format_version : Z) (sp : Spectrum) :
  buffer_ok br ->
  Z.of_nat (List.length (counts sp)) = MAX_CHANNELS ->
  exists sp' br',
    decodeSpectrum br format_version sp = Some (sp', br') /\
    0 <= count_size sp' <= MAX_CHANNELS.
Proof.
  intros Hok Hlen. unfold decodeSpectrum.
  assert (Hcleared : 0 <= count_size (Spectrum_clear sp) <= MAX_CHANNELS).
  { unfold MAX_CHANNELS. cbn. lia. }
  destruct (fst (available br) <? 4 + 3 * 4);
    [eexists _, _; split; [reflexivity|exact Hcleared]|].
  destruct (post_readUint32 br Hok) as (_ & Hok1 & _).
  destruct (readUint32 br) as [[[|] duration] br1]; cbn [negb snd] in *;
    [|eexists _, _; split; [reflexivity|exact Hcleared]].
  destruct (post_readFloat br1 Hok1) as (_ & Hok2 & _).
  destruct (readFloat br1) as [[[|] f0] br2]; cbn [negb snd] in *;
    [|eexists _, _; split; [reflexivity|exact Hcleared]].
  destruct (post_readFloat br2 Hok2) as (_ & Hok3 & _).
  destruct (readFloat br2) as [[[|] f1] br3]; cbn [negb snd] in *;
    [|eexists _, _; split; [reflexivity|exact Hcleared]].
  destruct (post_readFloat br3 Hok3) as (_ & Hok4 & _).
  destruct (readFloat br3) as [[[|] f2] br4]; cbn [negb snd] in *;
    [|eexists _, _; split; [reflexivity|exact Hcleared]].
  set (header_set := mkSpectrum duration f0 f1 f2 (counts (Spectrum_clear sp))
                       (count_size (Spectrum_clear sp))).
  assert (Hlen4 : Z.of_nat (List.length (counts header_set)) = MAX_CHANNELS).
  { cbn [counts header_set]. rewrite Spectrum_clear_length. exact Hlen. }
  destruct (decodeCountsV0_bounded br4 header_set Hok4 Hlen4)
    as (s0 & b0 & E0 & _ & Hc0 & _).
  destruct (decodeCountsV1_bounded br4 header_set Hok4) as (s1 & b1 & E1 & _ & Hc1 & _).
  rewrite E0, E1.
  destruct (format_version =? 0); [|destruct (format_version =? 1)].
  - destruct (Z.gtb_spec (count_size s0) MAX_CHANNELS) as [Hbad|_]; [lia|].
    exists s0, b0. split; [reflexivity | exact Hc0].
  - destruct (Z.gtb_spec (count_size s1) MAX_CHANNELS) as [Hbad|_]; [lia|].
    exists s1, b1. split; [reflexivity | exact Hc1].
  - destruct (Z.gtb_spec (count_size header_set) MAX_CHANNELS) as [Hbad|_].
    + cbn in Hbad. lia.
    + exists header_set, br4. split; [reflexivity | exact Hcleared].
Qed.

(** X24. [decodeSpectrum] on a well-formed cursor.  It always returns,
    with at most MAX_CHANNELS channels.  With fewer than 16 bytes left the
    result is the cleared spectrum and the cursor is not moved.  Otherwise
    duration and the three calibration coefficients are the four words at
    the cursor, and the result is exactly the result of the count decoder
    of the format (none for a format other than 0 and 1) run 16 bytes
    further on: the clamp of [count_size] at the end never changes it. *)
Theorem decodeSpectrum_header_then_counts (br : BytesBuffer) (format_version : Z)
    (sp : Spectrum) :
  buffer_ok br ->
  Z.of_nat (List.length (counts sp)) = MAX_CHANNELS ->
  let p := _position br in
  let d := _fixed_data br in
  exists sp' br',
    decodeSpectrum br format_version sp = Some (sp', br') /\
    buffer_ok br' /\ 0 <= count_size sp' <= MAX_CHANNELS /\
    (_size br - p < 16 -> sp' = Spectrum_clear sp /\ br' = br) /\
    (16 <= _size br - p ->
       let header_set :=
         mkSpectrum (le_uint (slice d p 4)) (F32 (le_uint (slice d (p + 4) 4)))
                    (F32 (le_uint (slice d (p + 8) 4))) (F32 (le_uint (slice d (p + 12) 4)))
                    (counts (Spectrum_clear sp)) 0 in
       (duration_sec sp', a0 sp', a1 sp', a2 sp')
       = (duration_sec header_set, a0 header_set, a1 header_set, a2 header_set) /\
       Some (sp', br')
       = if format_version =? 0 then decodeCountsV0 (with_position br (p + 16)) header_set
         else if format_version =? 1
              then decodeCountsV1 (with_position br (p + 16)) header_set
              else Some (header_set, with_position br (p + 16))).
Proof.
  intros Hok Hlen p d. pose proof Hok as (Hp & _). fold p in Hp.
  unfold decodeSpectrum. rewrite (available_eq br Hok). fold p.
  change (4 + 3 * 4) with 16.
  destruct (Z.ltb_spec (_size br - p) 16) as [Hshort|Hlong].
  { exists (Spectrum_clear sp), br. split; [reflexivity|]. split; [exact Hok|].
    split; [cbn [count_size Spectrum_clear]; unfold MAX_CHANNELS; lia|].
    split; [auto | lia]. }
  rewrite (readUint32_ok br Hok) by (fold p; lia). cbn [negb]. fold p d.
  assert (Hok1 : buffer_ok (with_position br (p + 4)))
    by (apply buffer_ok_with_position; [exact Hok | lia]).
  rewrite (readFloat_ok _ Hok1) by (cbn [_position _size with_position]; lia).
  cbn [negb _position _size _fixed_data with_position]. fold d.
  assert (Hok2 : buffer_ok (with_position (with_position br (p + 4)) (p + 4 + 4)))
    by (apply buffer_ok_with_position; [exact Hok1 | cbn [_size with_position]; lia]).
  rewrite (readFloat_ok _ Hok2) by (cbn [_position _size with_position]; lia).
  cbn [negb _position _size _fixed_data with_position]. fold d.
  assert (Hok3 : buffer_ok (with_position (with_position (with_position br (p + 4))
                                             (p + 4 + 4)) (p + 4 + 4 + 4)))
    by (apply buffer_ok_with_position; [exact Hok2 | cbn [_size with_position]; lia]).
  rewrite (readFloat_ok _ Hok3) by (cbn [_position _size with_position]; lia).
  cbn [negb _position _size _fixed_data with_position]. fold d.
  replace (p + 4 + 4 + 4 + 4) with (p + 16) by lia.
  replace (p + 4 + 4 + 4) with (p + 12) by lia.
  replace (p + 4 + 4) with (p + 8) by lia.
  change (with_position (with_position (with_position (with_position br (p + 4))
                                          (p + 8)) (p + 12)) (p + 16))
    with (with_position br (p + 16)).
  change (count_size (Spectrum_clear sp)) with 0.
  set (header_set := mkSpectrum (le_uint (slice d p 4)) (F32 (le_uint (slice d (p + 4) 4)))
                       (F32 (le_uint (slice d (p + 8) 4)))
                       (F32 (le_uint (slice d (p + 12) 4)))
                       (counts (Spectrum_clear sp)) 0).
  assert (Hok4 : buffer_ok (with_position br (p + 16)))
    by (apply buffer_ok_with_position; [exact Hok | lia]).
  assert (Hlen4 : Z.of_nat (List.length (counts header_set)) = MAX_CHANNELS).
  { cbn [counts header_set]. rewrite Spectrum_clear_length. exact Hlen. }
  destruct (decodeCountsV0_bounded _ header_set Hok4 Hlen4)
    as (s0 & b0 & E0 & Hok0 & Hc0 & Hh0).
  destruct (decodeCountsV1_bounded _ header_set Hok4) as (s1 & b1 & E1 & Hok1' & Hc1 & Hh1).
  rewrite E0, E1.
  destruct (format_version =? 0); [|destruct (format_version =? 1)].
  - destruct (Z.gtb_spec (count_size s0) MAX_CHANNELS) as [Hbad|_]; [lia|].
    exists s0, b0. split; [reflexivity|]. split; [exact Hok0|]. split; [exact Hc0|].
    split; [lia|]. intros _. split; [exact Hh0 | reflexivity].
  - destruct (Z.gtb_spec (count_size s1) MAX_CHANNELS) as [Hbad|_]; [lia|].
    exists s1, b1. split; [reflexivity|]. split; [exact Hok1'|]. split; [exact Hc1|].
    split; [lia|]. intros _. split; [exact Hh1 | reflexivity].
  - cbn [count_size header_set]. unfold MAX_CHANNELS.
    change (0 >? 1024) with false. cbv iota.
    exists header_set, (with_position br (p + 16)).
    split; [reflexivity|]. split; [exact Hok4|]. split; [cbn; lia|].
    split; [lia|]. intros _. split; reflexivity.
Qed.

Lemma decodeSpectrum_header_then_counts_witness :
  let br := with_position
              (BytesBuffer_of _shared_buffer0
                 [x00; x00; x00; x00;
                  x3c; x00; x00; x00;  x00; x00; x80; x3f;  x00; x00; x00; x40;
                  x00; x00; x40; x40;  x05; x00; x00; x00;  x06; x00; x00; x00]) 4 in
  let sp := Spectrum_new shared_counts0 in
  let p := _position br in
  let d := _fixed_data br in
  exists sp' br',
    decodeSpectrum br 0 sp = Some (sp', br') /\
    buffer_ok br' /\ 0 <= count_size sp' <= MAX_CHANNELS /\
    (_size br - p < 16 -> sp' = Spectrum_clear sp /\ br' = br) /\
    (16 <= _size br - p ->
       let header_set :=
         mkSpectrum (le_uint (slice d p 4)) (F32 (le_uint (slice d (p + 4) 4)))
                    (F32 (le_uint (slice d (p + 8) 4))) (F32 (le_uint (slice d (p + 12) 4)))
                    (counts (Spectrum_clear sp)) 0 in
       (duration_sec sp', a0 sp', a1 sp', a2 sp')
       = (duration_sec header_set, a0 header_set, a1 header_set, a2 header_set) /\
       Some (sp', br')
       = if 0 =? 0 then decodeCountsV0 (with_position br (p + 16)) header_set
         else if 0 =? 1
              then decodeCountsV1 (with_position br (p + 16)) header_set
              else Some (header_set, with_position br (p + 16))).
Proof.
  intros br sp.
  apply (decodeSpectrum_header_then_counts br 0 sp).
  - unfold buffer_ok. vm_compute. intuition discriminate.
  - vm_compute. reflexivity.
Defined.

(** X25. [RadiaCode::spectrum] returns for every response the transport
    can hand back: the decoding ends for either format, the spectrum
    returned has between 0 and MAX_CHANNELS channels, and without a
    connection it is the cleared spectrum. *)
Theorem spectrum_returns_on_any_response (link : list (list byte) -> list byte)
    (rc : RadiaCode) (shared : list byte) (last_byte0 : byte) (result : Spectrum) :
  Z.of_nat (List.length shared) = MAX_BUFFER_SIZE ->
  Z.of_nat (List.length (counts result)) = MAX_CHANNELS ->
  exists sp,
    snd (spectrum link rc shared last_byte0 result) = Some sp /\
    0 <= count_size sp <= MAX_CHANNELS /\
    (_connection rc = None -> sp = Spectrum_copy (Spectrum_clear result)).
Proof.
  intros Hsh Hlen. unfold spectrum.
  destruct (readRequest_result link rc shared SPECTRUM last_byte0 Hsh) as (Hok & _).
  assert (Hnone : _connection rc = None ->
                  _size (snd (readRequest link rc shared SPECTRUM last_byte0)) = 0).
  { intros Hc. unfold readRequest, execute. rewrite Hc. reflexivity. }
  destruct (readRequest link rc shared SPECTRUM last_byte0) as [rc1 r].
  cbn [fst snd] in Hok, Hnone.
  assert (Hcleared : 0 <= count_size (Spectrum_copy (Spectrum_clear result)) <= MAX_CHANNELS).
  { unfold MAX_CHANNELS. cbn. lia. }
  destruct (Z.ltb_spec (_size r) 16) as [Hsmall|Hbig].
  { exists (Spectrum_copy (Spectrum_clear result)). cbn [snd]. auto. }
  destruct (decodeSpectrum_bounded r (to_uint8 (_spectrum_format_version rc1))
              (Spectrum_clear result) Hok)
    as (sp' & br' & E & Hc).
  { rewrite Spectrum_clear_length. exact Hlen. }
  rewrite E. cbn [snd]. exists (Spectrum_copy sp'). split; [reflexivity|].
  unfold Spectrum_copy. cbn [count_size].
  destruct (Z.gtb_spec (count_size sp') MAX_CHANNELS) as [Hbad|_]; [lia|].
  split; [exact Hc|]. intros Hnc. specialize (Hnone Hnc). lia.
Qed.

Lemma spectrum_returns_on_any_response_witness :
  let link := fun _ : list (list byte) =>
    [x26; x08; x00; x80;  x01; x00; x00; x00;  x18; x00; x00; x00;
     x3c; x00; x00; x00;  x00; x00; x80; x3f;  x00; x00; x00; x40;
     x00; x00; x40; x40;  x05; x00; x00; x00;  x06; x00; x00; x00] in
  let result := Spectrum_new shared_counts0 in
  exists sp,
    snd (spectrum link RadiaCode_connected _shared_buffer0 xff result) = Some sp /\
    0 <= count_size sp <= MAX_CHANNELS /\
    (_connection RadiaCode_connected = None -> sp = Spectrum_copy (Spectrum_clear result)).
Proof.
  intros link result.
  apply (spectrum_returns_on_any_response link RadiaCode_connected _shared_buffer0 xff
           result).
  - vm_compute. reflexivity.
  - vm_compute. reflexivity.
Defined.

(** ** Telemetry: the timestamp of a record *)

(** X26. The timestamp of a record is the base time plus the time offset
    in whole seconds, the offset counting units of 10 ms.  For offsets from
    -214748364 to 214748364, the range in which ten times the offset fits an
    [int], the result is base + offset / 100, the quotient truncated toward
    zero and the sum taken modulo 2^32, whatever the target does when the
    product overflows; for an offset that is not negative and a sum below
    2^32 it is base + offset / 100 itself.  Outside that range the product
    in the source overflows and nothing is stated. *)
Theorem timestamp_of_offset (offset_undefined : Z -> Z) (base_time_sec ts_offset : Z) :
  - 214748364 <= ts_offset <= 214748364 ->
  timestamp_of offset_undefined base_time_sec ts_offset
  = (base_time_sec + Z.quot ts_offset 100) mod 2 ^ 32 /\
  (0 <= ts_offset -> 0 <= base_time_sec -> base_time_sec + ts_offset / 100 < 2 ^ 32 ->
   timestamp_of offset_undefined base_time_sec ts_offset = base_time_sec + ts_offset / 100).
Proof.
  intros Hts.
  rewrite (timestamp_of_fits offset_undefined base_time_sec ts_offset) by lia.
  unfold to_uint32. split; [reflexivity|].
  intros Hpos Hbase Hsum. rewrite Z.quot_div_nonneg by lia.
  apply Z.mod_small. split; [|exact Hsum].
  assert (0 <= ts_offset / 100) by (apply Z.div_pos; lia). lia.
Qed.

Lemma timestamp_of_offset_witness :
  timestamp_of (fun _ => 0) 1700000000 12345
  = (1700000000 + Z.quot 12345 100) mod 2 ^ 32 /\
  (0 <= 12345 -> 0 <= 1700000000 -> 1700000000 + 12345 / 100 < 2 ^ 32 ->
   timestamp_of (fun _ => 0) 1700000000 12345 = 1700000000 + 12345 / 100).
Proof.
  apply (timestamp_of_offset (fun _ => 0) 1700000000 12345). lia.
Defined.

(** ** Spectrum: pushing values and reading them back *)

Lemma firstn_memcpy_at_single {A} (d : list A) (i : nat) (v : A) :
  (i < List.length d)%nat ->
  firstn (S i) (memcpy_at d i [v]) = firstn i d ++ [v].
Proof.
  revert d. induction i as [|i IH]; intros d Hi.
  - destruct d as [|x d]; simpl in Hi; [lia|]. reflexivity.
  - destruct d as [|x d]; simpl in Hi; [lia|].
    cbn [memcpy_at firstn app]. f_equal. apply IH. lia.
Qed.

Lemma Spectrum_push_back_contents (sp : Spectrum) (v : Z) :
  0 <= count_size sp <= MAX_CHANNELS ->
  Z.of_nat (List.length (counts sp)) = MAX_CHANNELS ->
  let sp' := Spectrum_push_back sp v in
  0 <= count_size sp' <= MAX_CHANNELS /\
  Z.of_nat (List.length (counts sp')) = MAX_CHANNELS /\
  Spectrum_contents sp'
  = firstn (Z.to_nat MAX_CHANNELS) (Spectrum_contents sp ++ [v]).
Proof.
  intros Hc Hlen sp'. subst sp'.
  unfold Spectrum_push_back, Spectrum_contents, MAX_CHANNELS in *.
  assert (Hcl : List.length (firstn (Z.to_nat (count_size sp)) (counts sp))
                = Z.to_nat (count_size sp)).
  { rewrite length_firstn. lia. }
  destruct (Z.ltb_spec (count_size sp) 1024) as [Hroom|Hfull].
  - unfold append_count. cbn [count_size counts]. rewrite poke_length.
    rewrite to_uint32_small by lia.
    split; [lia|]. split; [exact Hlen|].
    replace (Z.to_nat (count_size sp + 1)) with (S (Z.to_nat (count_size sp))) by lia.
    unfold poke, memcpy. rewrite firstn_memcpy_at_single by lia.
    symmetry. apply firstn_all2. rewrite length_app, Hcl. cbn [List.length]. lia.
  - split; [lia|]. split; [exact Hlen|].
    rewrite firstn_app, Hcl.
    replace (Z.to_nat 1024 - Z.to_nat (count_size sp))%nat with 0%nat by lia.
    cbn [firstn]. rewrite app_nil_r. symmetry. apply firstn_all2. lia.
Qed.

(** X27. [Spectrum] as a bounded vector.  After [clear], pushing a list of
    values one by one leaves exactly the first MAX_CHANNELS of them as the
    contents: [size] is the smaller of the number pushed and MAX_CHANNELS,
    [at(i)] gives back the i-th value pushed, and the values pushed on a
    full spectrum are dropped without disturbing the stored ones. *)
Theorem Spectrum_push_back_sequence (sp : Spectrum) (values : list Z) :
  Z.of_nat (List.length (counts sp)) = MAX_CHANNELS ->
  let sp' := fold_left Spectrum_push_back values (Spectrum_clear sp) in
  Spectrum_contents sp' = firstn (Z.to_nat MAX_CHANNELS) values /\
  Spectrum_size sp' = Z.min (Z.of_nat (List.length values)) MAX_CHANNELS /\
  forall i, (i < List.length values)%nat -> Z.of_nat i < MAX_CHANNELS ->
    Spectrum_at sp' (Z.of_nat i) = nth i values 0.
Proof.
  intros Hlen sp'.
  assert (Hgen : forall vs s,
            0 <= count_size s <= MAX_CHANNELS ->
            Z.of_nat (List.length (counts s)) = MAX_CHANNELS ->
            let s' := fold_left Spectrum_push_back vs s in
            0 <= count_size s' <= MAX_CHANNELS /\
            Z.of_nat (List.length (counts s')) = MAX_CHANNELS /\
            Spectrum_contents s'
            = firstn (Z.to_nat MAX_CHANNELS) (Spectrum_contents s ++ vs)).
  { induction vs as [|v vs IH]; intros s Hc Hl.
    - cbn [fold_left]. split; [exact Hc|]. split; [exact Hl|].
      rewrite app_nil_r. symmetry. apply firstn_all2.
      unfold Spectrum_contents. rewrite length_firstn. lia.
    - cbn [fold_left].
      destruct (Spectrum_push_back_contents s v Hc Hl) as (Hc1 & Hl1 & Hcont1).
      destruct (IH (Spectrum_push_back s v) Hc1 Hl1) as (Hc2 & Hl2 & Hcont2).
      split; [exact Hc2|]. split; [exact Hl2|].
      rewrite Hcont2, Hcont1.
      replace (Spectrum_contents s ++ v :: vs) with ((Spectrum_contents s ++ [v]) ++ vs)
        by (rewrite <- app_assoc; reflexivity).
      set (l := Spectrum_contents s ++ [v]).
      destruct (Nat.le_gt_cases (Z.to_nat MAX_CHANNELS) (List.length l)) as [Hfull|Hroom].
      + rewrite (firstn_app (Z.to_nat MAX_CHANNELS) l vs).
        replace (Z.to_nat MAX_CHANNELS - List.length l)%nat with 0%nat by lia.
        cbn [firstn]. rewrite app_nil_r.
        rewrite firstn_app, length_firstn.
        replace (Z.to_nat MAX_CHANNELS
                 - Init.Nat.min (Z.to_nat MAX_CHANNELS) (List.length l))%nat
          with 0%nat by lia.
        cbn [firstn]. rewrite app_nil_r, firstn_firstn, Nat.min_id. reflexivity.
      + rewrite (firstn_all2 l) by lia. reflexivity. }
  destruct (Hgen values (Spectrum_clear sp)) as (Hc & Hl & Hcont).
  { unfold MAX_CHANNELS. cbn. lia. }
  { rewrite Spectrum_clear_length. exact Hlen. }
  fold sp' in Hc, Hl, Hcont.
  change (Spectrum_contents (Spectrum_clear sp)) with (@nil Z) in Hcont.
  cbn [app] in Hcont.
  assert (Hsize : count_size sp' = Z.min (Z.of_nat (List.length values)) MAX_CHANNELS).
  { apply (f_equal (@List.length Z)) in Hcont.
    unfold Spectrum_contents in Hcont. rewrite !length_firstn in Hcont. lia. }
  split; [exact Hcont|]. split; [exact Hsize|].
  intros i Hi Hmax. unfold Spectrum_at.
  destruct (Z.ltb_spec (Z.of_nat i) (count_size sp')) as [_|Hbad]; [|lia].
  unfold load. rewrite Nat2Z.id.
  rewrite <- (firstn_skipn (Z.to_nat (count_size sp')) (counts sp')).
  fold (Spectrum_contents sp'). rewrite Hcont.
  rewrite app_nth1 by (rewrite length_firstn; lia).
  rewrite <- (firstn_skipn (Z.to_nat MAX_CHANNELS) values) at 2.
  rewrite app_nth1 by (rewrite length_firstn; lia). reflexivity.
Qed.

Lemma Spectrum_push_back_sequence_witness :
  let sp := Spectrum_new shared_counts0 in
  let values := [5; 6; 7] in
  let sp' := fold_left Spectrum_push_back values (Spectrum_clear sp) in
  Spectrum_contents sp' = firstn (Z.to_nat MAX_CHANNELS) values /\
  Spectrum_size sp' = Z.min (Z.of_nat (List.length values)) MAX_CHANNELS /\
  forall i, (i < List.length values)%nat -> Z.of_nat i < MAX_CHANNELS ->
    Spectrum_at sp' (Z.of_nat i) = nth i values 0.
Proof.
  intros sp values.
  apply (Spectrum_push_back_sequence sp values).
  vm_compute. reflexivity.
Defined.

(** ** Spectrum counts, format 1: a run of deltas *)

Lemma decode_entry_delta (br : BytesBuffer) (q last vlen w : Z) :
  buffer_ok br -> 0 <= q -> q + w <= _size br ->
  In (vlen, w) [(2, 1); (3, 2); (5, 4)] ->
  decode_entry vlen last (with_position br q)
  = (EntryValue (to_uint32 (last + to_signed (8 * w) (le_uint (slice (_fixed_data br) q w)))),
     with_position br (q + w)).
Proof.
  intros Hok Hq Hin Hcode.
  assert (Hokq : forall k, 0 < k -> q + k <= _size br -> buffer_ok (with_position br q)).
  { intros k Hk Hfit. apply buffer_ok_with_position; [exact Hok | lia]. }
  cbn [In] in Hcode. destruct Hcode as [E|[E|[E|[]]]]; injection E as <- <-;
    unfold decode_entry; cbn [Z.eqb Pos.eqb]; unfold bind.
  - rewrite (readInt8_ok _ (Hokq 1 ltac:(lia) Hin))
      by (cbn [_position _size with_position]; lia).
    reflexivity.
  - rewrite (readInt16_ok _ (Hokq 2 ltac:(lia) Hin))
      by (cbn [_position _size with_position]; lia).
    reflexivity.
  - rewrite (readInt32_ok _ (Hokq 4 ltac:(lia) Hin))
      by (cbn [_position _size with_position]; lia).
    reflexivity.
Qed.

Lemma decode_run_deltas (vlen w : Z) (br : BytesBuffer) :
  buffer_ok br -> In (vlen, w) [(2, 1); (3, 2); (5, 4)] ->
  forall (n : nat) (last : Z) (sp : Spectrum) (q : Z),
    0 <= q -> q + w * Z.of_nat n <= _size br ->
    0 <= count_size sp -> count_size sp + Z.of_nat n <= MAX_CHANNELS ->
    Z.of_nat (List.length (counts sp)) = MAX_CHANNELS ->
    exists last' sp',
      decode_run n vlen last sp (with_position br q)
      = (true, last', sp', with_position br (q + w * Z.of_nat n)) /\
      count_size sp' = count_size sp + Z.of_nat n /\
      Z.of_nat (List.length (counts sp')) = MAX_CHANNELS /\
      (forall i, 0 <= i < count_size sp -> load 0 (counts sp') i = load 0 (counts sp) i) /\
      (forall i, 0 <= i < Z.of_nat n ->
         load 0 (counts sp') (count_size sp + i)
         = to_uint32 ((if i =? 0 then last else load 0 (counts sp') (count_size sp + i - 1))
                      + to_signed (8 * w)
                          (le_uint (slice (_fixed_data br) (q + w * i) w)))).
Proof.
  intros Hok Hcode.
  assert (Hw : 0 < w).
  { cbn [In] in Hcode. destruct Hcode as [E|[E|[E|[]]]]; injection E as <- <-; lia. }
  unfold MAX_CHANNELS.
  induction n as [|n IH]; intros last sp q Hq Hfit Hc Hroom Hlen.
  - exists last, sp. cbn [decode_run Z.of_nat]. rewrite Z.mul_0_r, !Z.add_0_r.
    split; [reflexivity|]. split; [reflexivity|]. split; [exact Hlen|].
    split; [reflexivity|]. intros i Hi. lia.
  - cbn [decode_run]. unfold MAX_CHANNELS.
    destruct (Z.ltb_spec (count_size sp) 1024) as [_|Hbad]; [|lia].
    rewrite (decode_entry_delta br q last vlen w Hok Hq ltac:(nia) Hcode).
    set (v := to_uint32 (last + to_signed (8 * w) (le_uint (slice (_fixed_data br) q w)))).
    assert (Hc1 : count_size (append_count sp v) = count_size sp + 1).
    { unfold append_count. cbn [count_size]. apply to_uint32_small. lia. }
    destruct (IH v (append_count sp v) (q + w))
      as (last' & sp' & E & Hcs & Hlen' & Hold & Hnew).
    { lia. } { nia. } { lia. } { lia. }
    { unfold append_count. cbn [counts]. rewrite poke_length. exact Hlen. }
    rewrite Hc1 in Hcs, Hold, Hnew.
    replace (q + w + w * Z.of_nat n) with (q + w * Z.of_nat (S n)) in E by nia.
    exists last', sp'. split; [exact E|].
    split; [lia|]. split; [exact Hlen'|].
    assert (Hcell : forall i, 0 <= i <= count_size sp ->
              load 0 (counts sp') i = if i =? count_size sp then v else load 0 (counts sp) i).
    { intros i Hi. rewrite (Hold i) by lia. unfold append_count. cbn [counts].
      apply load_poke; lia. }
    split.
    + intros i Hi. rewrite (Hcell i) by lia.
      destruct (Z.eqb_spec i (count_size sp)); [lia | reflexivity].
    + intros i Hi. destruct (Z.eqb_spec i 0) as [->|Hnz].
      * rewrite Z.add_0_r, Z.mul_0_r, Z.add_0_r. rewrite (Hcell (count_size sp)) by lia.
        rewrite Z.eqb_refl. reflexivity.
      * replace (count_size sp + i) with (count_size sp + 1 + (i - 1)) by lia.
        rewrite (Hnew (i - 1)) by lia.
        replace (q + w + w * (i - 1)) with (q + w * i) by lia.
        f_equal. f_equal.
        destruct (Z.eqb_spec (i - 1) 0) as [Hone|Hmore].
        -- replace (count_size sp + 1 + (i - 1) - 1) with (count_size sp) by lia.
           rewrite (Hcell (count_size sp)) by lia. rewrite Z.eqb_refl. reflexivity.
        -- reflexivity.
Qed.

(** X28. Delta coding in format 1.  A run of n entries whose value-length
    code is 2, 3 or 5 (signed deltas of 1, 2 or 4 bytes), with the n deltas
    in the buffer and room for n channels, appends n channels: the first is
    the running value plus the first delta, every next one is the channel
    before it plus its own delta, each sum taken modulo 2^32.  The run ends
    normally and the cursor stands right after the last delta. *)
Theorem decode_run_accumulates_deltas (vlen w : Z) (n : nat) (last : Z) (sp : Spectrum)
    (br : BytesBuffer) :
  buffer_ok br -> In (vlen, w) [(2, 1); (3, 2); (5, 4)] ->
  let p := _position br in
  let c := count_size sp in
  p + w * Z.of_nat n <= _size br ->
  0 <= c -> c + Z.of_nat n <= MAX_CHANNELS ->
  Z.of_nat (List.length (counts sp)) = MAX_CHANNELS ->
  let delta := fun i => to_signed (8 * w) (le_uint (slice (_fixed_data br) (p + w * i) w)) in
  exists last' sp',
    decode_run n vlen last sp br = (true, last', sp', with_position br (p + w * Z.of_nat n)) /\
    Spectrum_size sp' = c + Z.of_nat n /\
    (forall i, 0 <= i < c -> Spectrum_at sp' i = Spectrum_at sp i) /\
    (0 < Z.of_nat n -> Spectrum_at sp' c = to_uint32 (last + delta 0)) /\
    (forall i, 0 < i < Z.of_nat n ->
       Spectrum_at sp' (c + i) = to_uint32 (Spectrum_at sp' (c + i - 1) + delta i)).
Proof.
  intros Hok Hcode p c Hfit Hc Hroom Hlen delta. pose proof Hok as (Hp & _). fold p in Hp.
  destruct (decode_run_deltas vlen w br Hok Hcode n last sp p ltac:(lia) Hfit Hc Hroom Hlen)
    as (last' & sp' & E & Hcs & _ & Hold & Hnew).
  unfold p in E at 1. rewrite with_position_same in E. fold c in Hcs, Hold, Hnew.
  exists last', sp'. split; [exact E|]. split; [exact Hcs|].
  assert (Hat : forall i, 0 <= i < c + Z.of_nat n -> Spectrum_at sp' i = load 0 (counts sp') i).
  { intros i Hi. unfold Spectrum_at.
    destruct (Z.ltb_spec i (count_size sp')); [reflexivity | lia]. }
  split; [|split].
  - intros i Hi. rewrite Hat, Hold by lia. unfold Spectrum_at. fold c.
    destruct (Z.ltb_spec i c); [reflexivity | lia].
  - intros Hn. rewrite Hat by lia.
    replace c with (c + 0) at 1 by lia. rewrite (Hnew 0) by lia. reflexivity.
  - intros i Hi. rewrite !Hat by lia. rewrite (Hnew i) by lia.
    destruct (Z.eqb_spec i 0); [lia | reflexivity].
Qed.

Lemma decode_run_accumulates_deltas_witness :
  let br := with_position (BytesBuffer_of _shared_buffer0 [x32; x00; x05; xfe; x0a]) 2 in
  let sp := with_count_size (Spectrum_new shared_counts0) 0 in
  let p := _position br in
  let c := count_size sp in
  let delta := fun i => to_signed (8 * 1) (le_uint (slice (_fixed_data br) (p + 1 * i) 1)) in
  exists last' sp',
    decode_run 3 2 0 sp br = (true, last', sp', with_position br (p + 1 * Z.of_nat 3)) /\
    Spectrum_size sp' = c + Z.of_nat 3 /\
    (forall i, 0 <= i < c -> Spectrum_at sp' i = Spectrum_at sp i) /\
    (0 < Z.of_nat 3 -> Spectrum_at sp' c = to_uint32 (0 + delta 0)) /\
    (forall i, 0 < i < Z.of_nat 3 ->
       Spectrum_at sp' (c + i) = to_uint32 (Spectrum_at sp' (c + i - 1) + delta i)).
Proof.
  intros br sp.
  apply (decode_run_accumulates_deltas 2 1 3 0 sp br).
  - unfold buffer_ok. vm_compute. intuition discriminate.
  - cbn [In]. auto.
  - vm_compute. discriminate.
  - vm_compute. discriminate.
  - vm_compute. discriminate.
  - vm_compute. reflexivity.
Defined.

(** ** BytesBuffer: what a new cursor finds in the shared store *)

Lemma load_memcpy_0 {A} (dflt : A) (d src : list A) (i : Z) :
  (List.length src <= List.length d)%nat -> 0 <= i ->
  load dflt (memcpy d 0 src) i
  = if i <? Z.of_nat (List.length src) then load dflt src i else load dflt d i.
Proof.
  intros Hfit Hi. unfold load, memcpy. change (Z.to_nat 0) with 0%nat.
  rewrite memcpy_at_0, overwrite_prefix by exact Hfit.
  destruct (Z.ltb_spec i (Z.of_nat (List.length src))) as [Hin|Hout].
  - apply app_nth1. lia.
  - rewrite app_nth2 by lia. rewrite nth_skipn. f_equal. lia.
Qed.

(** X29. [BytesBuffer(data, length)] on the shared store.  The new cursor
    is well formed, stands at 0 and has size min(length, MAX_BUFFER_SIZE);
    the store holds the first [size] bytes of the data, zeros from there up
    to offset 16, and beyond both it still holds whatever the store held
    before the constructor ran: a new buffer is not a clean one. *)
Theorem BytesBuffer_of_keeps_old_bytes (shared data : list byte) :
  Z.of_nat (List.length shared) = MAX_BUFFER_SIZE ->
  let b := BytesBuffer_of shared data in
  let n := Z.min (Z.of_nat (List.length data)) MAX_BUFFER_SIZE in
  buffer_ok b /\ _position b = 0 /\ _size b = n /\
  (forall i, 0 <= i < n -> load x00 (_fixed_data b) i = load x00 data i) /\
  (forall i, n <= i < 16 -> load x00 (_fixed_data b) i = x00) /\
  (forall i, Z.max n 16 <= i < MAX_BUFFER_SIZE ->
     load x00 (_fixed_data b) i = load x00 shared i).
Proof.
  intros Hsh b n.
  assert (Hok : buffer_ok b) by (apply buffer_ok_of; exact Hsh).
  assert (Hsz : _size b = n) by apply BytesBuffer_of_size.
  unfold MAX_BUFFER_SIZE in *.
  assert (Hzero : forall i, 0 <= i ->
            load x00 (memset_zero shared 16) i = if i <? 16 then x00 else load x00 shared i).
  { intros i Hi. unfold memset_zero.
    rewrite load_memcpy_0; [|rewrite repeat_length; lia | exact Hi].
    rewrite repeat_length. change (Z.of_nat (Z.to_nat 16)) with 16.
    destruct (Z.ltb_spec i 16); [|reflexivity].
    unfold load. apply nth_repeat. }
  assert (Hdata : forall i, 0 <= i ->
            load x00 (_fixed_data b) i
            = if i <? n then load x00 data i
              else if i <? 16 then x00 else load x00 shared i).
  { intros i Hi. subst b. unfold BytesBuffer_of.
    destruct (Z.eqb_spec (Z.of_nat (List.length data)) 0) as [Hempty|Hsome].
    - cbn [_fixed_data]. rewrite Hzero by exact Hi.
      destruct (Z.ltb_spec i n); [lia | reflexivity].
    - cbn [_fixed_data]. unfold MAX_BUFFER_SIZE.
      set (size := if Z.of_nat (List.length data) >? 4096 then 4096
                   else Z.of_nat (List.length data)).
      assert (Hsize : size = n).
      { subst size n. destruct (Z.gtb_spec (Z.of_nat (List.length data)) 4096); lia. }
      rewrite Hsize.
      assert (Hsl : Z.of_nat (List.length (slice data 0 n)) = n).
      { apply slice_length; lia. }
      rewrite load_memcpy_0; [|rewrite memset_zero_length; lia | exact Hi].
      rewrite Hsl.
      destruct (Z.ltb_spec i n) as [Hin|Hout]; [|apply Hzero; exact Hi].
      unfold load, slice. change (Z.to_nat 0) with 0%nat. cbn [skipn].
      rewrite <- (firstn_skipn (Z.to_nat n) data) at 2.
      symmetry. apply app_nth1. rewrite length_firstn. lia. }
  split; [exact Hok|]. split; [|split; [exact Hsz|split; [|split]]].
  - subst b. unfold BytesBuffer_of.
    destruct (Z.of_nat (List.length data) =? 0); reflexivity.
  - intros i Hi. rewrite Hdata by lia. destruct (Z.ltb_spec i n); [reflexivity | lia].
  - intros i Hi. rewrite Hdata by lia. destruct (Z.ltb_spec i n); [lia|].
    destruct (Z.ltb_spec i 16); [reflexivity | lia].
  - intros i Hi. rewrite Hdata by lia. destruct (Z.ltb_spec i n); [lia|].
    destruct (Z.ltb_spec i 16); [lia | reflexivity].
Qed.

Lemma BytesBuffer_of_keeps_old_bytes_witness :
  let shared := repeat x55 (Z.to_nat MAX_BUFFER_SIZE) in
  let data := [x01; x02; x03] in
  let b := BytesBuffer_of shared data in
  let n := Z.min (Z.of_nat (List.length data)) MAX_BUFFER_SIZE in
  buffer_ok b /\ _position b = 0 /\ _size b = n /\
  (forall i, 0 <= i < n -> load x00 (_fixed_data b) i = load x00 data i) /\
  (forall i, n <= i < 16 -> load x00 (_fixed_data b) i = x00) /\
  (forall i, Z.max n 16 <= i < MAX_BUFFER_SIZE ->
     load x00 (_fixed_data b) i = load x00 shared i).
Proof.
  intros shared data.
  apply (BytesBuffer_of_keeps_old_bytes shared data).
  vm_compute. reflexivity.
Defined.

(** ** Device settings: the light switch is a read-modify-write *)

Lemma execute_seq (link : list (list byte) -> list byte) (rc : RadiaCode)
    (sent : list (list byte)) (shared : list byte) (reqtype : Z) (args : list byte) :
  _connection rc = Some sent ->
  _seq (fst (execute link rc shared reqtype args)) = to_uint8 ((_seq rc + 1) mod 32).
Proof.
  intros Hc. unfold execute. rewrite Hc. destruct (readBytes 4 _) as [hdr r]. reflexivity.
Qed.

Lemma testbit_high (a n k : Z) : 0 <= a < 2 ^ n -> 0 <= n <= k -> Z.testbit a k = false.
Proof.
  intros Ha Hk. rewrite <- (Z.mod_small a (2 ^ n)) by exact Ha.
  apply Z.mod_pow2_bits_high. exact Hk.
Qed.

Lemma to_uint32_of_bits (x : Z) :
  (forall k, 32 <= k -> Z.testbit x k = false) -> to_uint32 x = x.
Proof.
  intros Hhigh. unfold to_uint32. apply Z.bits_inj'. intros k Hk.
  destruct (Z.lt_ge_cases k 32) as [Hlo|Hhi].
  - apply Z.mod_pow2_bits_low. lia.
  - rewrite Z.mod_pow2_bits_high by lia. symmetry. apply Hhigh. exact Hhi.
Qed.

Lemma testbit_8 (k : Z) : Z.testbit 8 k = (3 =? k).
Proof. apply (Z.pow2_bits_eqb 3). lia. Qed.

(** X30. [setLightOn] is a read-modify-write of DEVICE_CTRL: one batch
    read of the register, then one write of the word read with bit 3
    (LIGHT) set or cleared and every other bit kept, under the next sequence
    number.  The read is not checked: when it yields no value (a short
    response or a validity word other than 1) the word written is LIGHT
    alone or 0, so every other device control flag is written as cleared. *)
Theorem setLightOn_read_modify_write (link : list (list byte) -> list byte)
    (rc : RadiaCode) (sent : list (list byte)) (shared : list byte) (on : bool) :
  _connection rc = Some sent ->
  Z.of_nat (List.length shared) = MAX_BUFFER_SIZE ->
  let read := full_request_of (_seq rc) RD_VIRT_SFR_BATCH
                (le32_bytes 1 ++ le32_bytes DEVICE_CTRL) in
  let payload := link (read :: sent) in
  Z.of_nat (List.length payload) <= MAX_BUFFER_SIZE ->
  let current := if (12 <=? Z.of_nat (List.length payload))
                    && (le_uint (slice payload 4 4) =? 1)
                 then le_uint (slice payload 8 4) else 0 in
  exists value,
    _connection (fst (setLightOn link rc shared on))
    = Some (full_request_of (to_uint8 ((_seq rc + 1) mod 32)) WR_VIRT_SFR
              (le32_bytes DEVICE_CTRL ++ le32_bytes value) :: read :: sent) /\
    Z.testbit value 3 = on /\
    (forall k, k <> 3 -> Z.testbit value k = Z.testbit current k) /\
    (current = 0 -> value = if on then LIGHT else 0).
Proof.
  intros Hc Hsh read payload Hlen current.
  assert (Hcur : 0 <= current < 2 ^ 32).
  { subst current.
    destruct ((12 <=? Z.of_nat (List.length payload)) && (le_uint (slice payload 4 4) =? 1));
      [apply (le_uint_slice_range payload 8 4) | ]; lia. }
  pose proof (readVSFR_closed_form link rc sent shared DEVICE_CTRL Hc Hsh Hlen) as H.
  cbv zeta in H. fold read payload current in H.
  unfold setLightOn.
  destruct (readVSFR link rc shared DEVICE_CTRL) as [[deviceCtrl rc1] store].
  destruct H as (Hrc1 & Hconn & Hvalue). rewrite Hvalue.
  assert (Hseq : _seq rc1 = to_uint8 ((_seq rc + 1) mod 32)).
  { rewrite Hrc1. apply (execute_seq link rc sent). exact Hc. }
  assert (Hbits : forall k, 0 <= k ->
            Z.testbit (if on then Z.lor current LIGHT else Z.land current (Z.lnot LIGHT)) k
            = if 3 =? k then on else Z.testbit current k).
  { intros k Hk. change LIGHT with 8. destruct on.
    - rewrite Z.lor_spec, testbit_8. destruct (3 =? k); [apply orb_true_r | apply orb_false_r].
    - rewrite Z.land_spec, Z.lnot_spec, testbit_8 by exact Hk.
      destruct (3 =? k); [apply andb_false_r | apply andb_true_r]. }
  assert (Hword : (if on then to_uint32 (Z.lor current LIGHT)
                   else to_uint32 (Z.land current (Z.lnot LIGHT)))
                  = if on then Z.lor current LIGHT else Z.land current (Z.lnot LIGHT)).
  { assert (Hhigh : forall k, 32 <= k ->
              Z.testbit (if on then Z.lor current LIGHT
                         else Z.land current (Z.lnot LIGHT)) k = false).
    { intros k Hk. rewrite Hbits by lia.
      destruct (Z.eqb_spec 3 k); [lia|]. apply (testbit_high current 32); lia. }
    destruct on; apply to_uint32_of_bits; exact Hhigh. }
  exists (if on then Z.lor current LIGHT else Z.land current (Z.lnot LIGHT)).
  split; [|split; [|split]].
  - rewrite Hword, (writeRequest_sends link rc1 (read :: sent) store _ _ Hconn), Hseq.
    reflexivity.
  - rewrite Hbits by lia. reflexivity.
  - intros k Hk. destruct (Z.lt_ge_cases k 0) as [Hneg|Hpos].
    + rewrite !Z.testbit_neg_r by exact Hneg. reflexivity.
    + rewrite Hbits by exact Hpos. destruct (Z.eqb_spec 3 k); [lia | reflexivity].
  - intros ->. destruct on; reflexivity.
Qed.

Lemma setLightOn_read_modify_write_witness :
  let link := fun _ : list (list byte) =>
    [x2a; x08; x00; x80; x01; x00; x00; x00; x35; x00; x00; x00] in
  let read := full_request_of 0 RD_VIRT_SFR_BATCH (le32_bytes 1 ++ le32_bytes DEVICE_CTRL) in
  let payload := link [read] in
  let current := if (12 <=? Z.of_nat (List.length payload))
                    && (le_uint (slice payload 4 4) =? 1)
                 then le_uint (slice payload 8 4) else 0 in
  exists value,
    _connection (fst (setLightOn link RadiaCode_connected _shared_buffer0 true))
    = Some [full_request_of (to_uint8 ((0 + 1) mod 32)) WR_VIRT_SFR
              (le32_bytes DEVICE_CTRL ++ le32_bytes value); read] /\
    Z.testbit value 3 = true /\
    (forall k, k <> 3 -> Z.testbit value k = Z.testbit current k) /\
    (current = 0 -> value = if true then LIGHT else 0).
Proof.
  intros link.
  apply (setLightOn_read_modify_write link RadiaCode_connected [] _shared_buffer0 true).
  - reflexivity.
  - vm_compute. reflexivity.
  - vm_compute. discriminate.
Defined.
